(** * Agentic workflow orchestrator: budget, router, fan-out and control loop

    A shallow embedding of the Python sources
      app/domain/budget.py, app/domain/candidate.py, app/adapter/adapter.py,
      app/nodes/router.py, app/nodes/debate.py, app/nodes/planner.py,
      app/utils/traces.py and app/orchestrator.py
    together with the properties stated about them.

    Conventions.
    - Python [float] is kept abstract behind the class [PyFloat]; it has two
      instances: [binary64] (IEEE 754 double precision, what CPython runs) and
      [exactQ] (exact rationals, the arithmetic without rounding).
    - Python [int] is [Z]; [str] is [string]; [Optional[T]] is [option T];
      a [dict] is an association list in insertion order.
    - A raising computation returns [Err e]; awaited external capabilities
      (worker completion, judge, verifier, planner) and [logging] are events of
      a free monad [Prog], run by [interp] against a handler; a theorem about
      every handler speaks about every possible behaviour of the environment.
    - The library objects the sources use are parameters: [random.Random]
      behind the class [PyRandom], the built-in [sorted] behind the class
      [PySorted] with what Python documents of it.  A generator object that
      is shared or owned is modelled in a store of objects ([Store]). *)

From Stdlib Require Import ZArith QArith Qfield Lqa List String Bool Lia Floats Permutation
  Sorted.
Import ListNotations.
Local Open Scope string_scope.
Local Open Scope list_scope.
Local Open Scope Z_scope.

Set Implicit Arguments.

(* ================================================================== *)
(** ** Python floats *)

Class PyFloat (F : Type) : Type := {
  fzero : F;                    (* 0.0 *)
  fone  : F;                    (* 1.0 *)
  fadd  : F -> F -> F;          (* x + y *)
  fsub  : F -> F -> F;          (* x - y *)
  fmul  : F -> F -> F;          (* x * y *)
  fdiv  : F -> F -> F;          (* x / y, y non-zero *)
  fltb  : F -> F -> bool;       (* x < y *)
  of_int : Z -> F               (* float(n) *)
}.

(** [x > y] is [y < x] for floats. *)
Definition fgtb {F} `{PyFloat F} (x y : F) : bool := fltb y x.

(** The laws of [<] the proofs below rely on; both hold with NaN around. *)
Class PyFloatOrder (F : Type) `{PyFloat F} : Prop := {
  fltb_irrefl : forall x : F, fltb x x = false;
  fltb_trans : forall x y z : F, fltb x y = true -> fltb y z = true -> fltb x z = true
}.
Arguments PyFloatOrder F {_}.

(** IEEE 754 binary64, i.e. CPython's [float]. *)
#[export] Instance binary64 : PyFloat float := {|
  fzero := 0%float;
  fone := 1%float;
  fadd := PrimFloat.add;
  fsub := PrimFloat.sub;
  fmul := PrimFloat.mul;
  fdiv := PrimFloat.div;
  fltb := PrimFloat.ltb;
  of_int := fun n => SF2Prim (binary_normalize prec emax n 0 false)
|}.

(** Exact rational arithmetic. *)
#[export] Instance exactQ : PyFloat Q := {|
  fzero := 0%Q;
  fone := 1%Q;
  fadd := Qplus;
  fsub := Qminus;
  fmul := Qmult;
  fdiv := Qdiv;
  fltb := fun x y => negb (Qle_bool y x);
  of_int := inject_Z
|}.

(** Exact value of a finite binary64 number. *)
Definition float_to_Q (x : float) : option Q :=
  match Prim2SF x with
  | S754_zero _ => Some 0%Q
  | S754_finite s m e =>
      let v := (inject_Z (Z.pos m) * Qpower 2 e)%Q in
      Some (if s then Qopp v else v)
  | _ => None
  end.

(* ================================================================== *)
(** ** Exceptions and results *)

Inductive Exc : Type :=
| KeyError (key : string)
| IndexError
| ValueError
| ZeroDivisionError
| TypeError
| Failure (what : string).      (* anything raised by an external capability *)

Inductive Result (A : Type) : Type :=
| Ok (a : A)
| Err (e : Exc).
Arguments Ok {A} a.
Arguments Err {A} e.

Definition is_ok {A} (r : Result A) : bool :=
  match r with Ok _ => true | Err _ => false end.

Definition rbind {A B} (r : Result A) (f : A -> Result B) : Result B :=
  match r with Ok a => f a | Err e => Err e end.

(** All results, in order, or the first error by position. *)
Fixpoint sequence {A} (l : list (Result A)) : Result (list A) :=
  match l with
  | [] => Ok []
  | r :: rest =>
      match r with
      | Err e => Err e
      | Ok a => match sequence rest with Ok l' => Ok (a :: l') | Err e => Err e end
      end
  end.

(* ================================================================== *)
(** ** Python built-ins used by the sources *)

Section Builtins.
Context {F : Type} `{PyFloat F}.

(** [l[i]] with Python's negative indices. *)
Definition py_index {A} (l : list A) (i : Z) : Result A :=
  let n := Z.of_nat (List.length l) in
  let j := if i <? 0 then i + n else i in
  if (0 <=? j) && (j <? n)
  then match nth_error l (Z.to_nat j) with Some a => Ok a | None => Err IndexError end
  else Err IndexError.

(** [l[-1]]. *)
Definition py_last {A} (l : list A) : Result A := py_index l (-1).

(** [sum(xs)]: left to right, starting from 0. *)
Definition py_sum (xs : list F) : F := fold_left fadd xs fzero.

(** [max(xs, default=d)]: the first maximal element under [>]. *)
Definition py_max_default (xs : list F) (d : F) : F :=
  match xs with
  | [] => d
  | x :: rest => fold_left (fun m y => if fgtb y m then y else m) rest x
  end.

(** [min(xs, key=key)]: the first minimal element under [<] on keys;
    raises ValueError on an empty argument. *)
Definition py_min_key {A} (key : A -> F) (xs : list A) : Result A :=
  match xs with
  | [] => Err ValueError
  | x :: rest =>
      Ok (fold_left (fun m y => if fltb (key y) (key m) then y else m) rest x)
  end.

(** [max(zs)] on ints; raises ValueError on an empty argument. *)
Definition py_max_int (zs : list Z) : Result Z :=
  match zs with
  | [] => Err ValueError
  | z :: rest => Ok (fold_left (fun m y => if m <? y then y else m) rest z)
  end.

(** [l[:n]]. For the non-negative [n] the sources pass this is the prefix
    of length [n]. *)
Definition py_take {A} (n : Z) (l : list A) : list A := firstn (Z.to_nat n) l.

(** The list comprehension [[x for x in l if test(x)]]: the test is
    evaluated on each element in order, and the first one that raises ends
    the comprehension. *)
Fixpoint select {A} (test : A -> Result bool) (l : list A) : Result (list A) :=
  match l with
  | [] => Ok []
  | x :: rest =>
      match test x with
      | Err e => Err e
      | Ok b =>
          match select test rest with
          | Err e => Err e
          | Ok kept => Ok (if b then x :: kept else kept)
          end
      end
  end.

(** The stable sort into descending key order: elements with equal keys
    keep their relative order.  It is the reference [sorted] is held to
    below, on keys that [<] orders. *)
Fixpoint insert_desc {A} (x : F * A) (l : list (F * A)) : list (F * A) :=
  match l with
  | [] => [x]
  | y :: l' => if fltb (fst x) (fst y) then y :: insert_desc x l' else x :: y :: l'
  end.

Definition sort_desc {A} (l : list (F * A)) : list (F * A) :=
  fold_right insert_desc [] l.

(** Keys that [<] orders: on them it is a strict weak order.  In binary64
    these are the key lists without a NaN next to two different numbers. *)
Definition ordered_keys (ks : list F) : Prop :=
  (forall x, In x ks -> fltb x x = false)
  /\ (forall x y z, In x ks -> In y ks -> In z ks ->
        fltb x y = true -> fltb y z = true -> fltb x z = true)
  /\ (forall x y z, In x ks -> In y ks -> In z ks ->
        fltb x y = false -> fltb y z = false -> fltb x z = false).

End Builtins.

(** Python's [sorted(xs, key=..., reverse=True)], on precomputed keys.  The
    built-in is not part of the repository; it is a parameter of the
    development, held to what Python documents of it: the result is a
    reordering of the argument, and the sort is stable, so that on keys
    that [<] orders the result is the stable descending sort.  What it
    returns on other keys (a NaN among different numbers) depends on the
    sorting algorithm of the interpreter and is left open. *)
Class PySorted (F : Type) `{PyFloat F} : Type := {
  py_sorted_desc : forall A : Type, list (F * A) -> list (F * A);
  py_sorted_desc_perm : forall (A : Type) (l : list (F * A)),
      Permutation (py_sorted_desc l) l;
  py_sorted_desc_stable : forall (A : Type) (l : list (F * A)),
      ordered_keys (map fst l) -> py_sorted_desc l = sort_desc l
}.
Arguments PySorted F {_}.
Arguments py_sorted_desc {F _ _ A} l.

(* ================================================================== *)
(** ** domain/skill.py, adapter/adapter.py, domain/candidate.py *)

Inductive Skill : Type := ANALYZE | REASON | SUMMARIZE | CODE | MATH | PLAN.

(** [Skill.value]. *)
Definition Skill_value (s : Skill) : string :=
  match s with
  | ANALYZE => "analyze"
  | REASON => "reason"
  | SUMMARIZE => "summarize"
  | CODE => "code"
  | MATH => "math"
  | PLAN => "plan"
  end.

Section Domain.
Context {F : Type} `{PyFloat F}.

(** [skills] is declared a [Tuple[Skill, ...]]; [OpenAIAdapter] and
    [GoogleAdapter] store [None] there when they are built without
    [skills] (their default). *)
Record ModelSpec : Type := {
  name : string;
  provider : string;
  cost_per_1k_input : F;
  cost_per_1k_output : F;
  tier : Z;
  skills : option (list Skill)
}.

Record CallRequest : Type := {
  system : string;
  user : string
}.

Record CallResult : Type := {
  res_text : string;
  res_tokens_in : Z;
  res_tokens_out : Z;
  res_latency_s : F;
  res_cost_usd : F
}.

(** An [LLMAdapter]: only its [spec] is data; [acomplete] is an external
    capability (event [Acomplete] below). *)
Record LLMAdapter : Type := { spec : ModelSpec }.

Record Candidate : Type := {
  model : string;
  text : string;
  latency_s : F;
  cost_usd : F;
  tokens_in : Z;
  tokens_out : Z
}.

(** A [Dict[str, LLMAdapter]] / [Dict[str, ArmStat]] in insertion order. *)
Definition Dict (V : Type) : Type := list (string * V).

Fixpoint dict_get {V} (d : Dict V) (k : string) : Result V :=
  match d with
  | [] => Err (KeyError k)
  | (k', v) :: d' => if String.eqb k' k then Ok v else dict_get d' k
  end.

(** [d[k] = v]: overwrite in place, or append a new key. *)
Fixpoint dict_set {V} (d : Dict V) (k : string) (v : V) : Dict V :=
  match d with
  | [] => [(k, v)]
  | (k', v') :: d' =>
      if String.eqb k' k then (k', v) :: d' else (k', v') :: dict_set d' k v
  end.

Definition dict_keys {V} (d : Dict V) : list string := map fst d.
Definition dict_values {V} (d : Dict V) : list V := map snd d.

End Domain.

Arguments ModelSpec F : clear implicits.
Arguments CallResult F : clear implicits.
Arguments LLMAdapter F : clear implicits.
Arguments Candidate F : clear implicits.

(* ================================================================== *)
(** ** domain/budget.py *)

Section BudgetDef.
Context {F : Type} `{PyFloat F}.

Record Budget : Type := {
  usd_left : F;
  deadline_s : option F
}.

(** [Budget.allow]: the answer, and the budget object after the call. *)
Definition Budget_allow (b : Budget) (cost latency : F) : bool * Budget :=
  if fltb (usd_left b) cost then (false, b)
  else
    match deadline_s b with
    | Some d => if fltb d latency then (false, b) else (true, b)
    | None => (true, b)
    end.

(** [Budget.charge]: the budget object after the call. *)
Definition Budget_charge (b : Budget) (cost : F) : Budget :=
  {| usd_left := fsub (usd_left b) cost; deadline_s := deadline_s b |}.

End BudgetDef.

Arguments Budget F : clear implicits.

(* ================================================================== *)
(** ** nodes/router.py *)

(** Python's [random.Random]: the generator state, its construction from a
    seed and one draw of [random()].  The module is not part of the
    repository; it is a parameter of the development. *)
Class PyRandom (F : Type) : Type := {
  Rng : Type;
  Random : Z -> Rng;
  rng_random : Rng -> F * Rng
}.

Section RouterDef.
Context {F : Type} `{PyFloat F} `{PyRandom F} {Sorting : PySorted F}.

Record RouterCfg : Type := {
  epsilon : F;
  alpha_cost : F
}.

Record ArmStat : Type := {
  pulls : Z;
  winrate : F;
  cost : F
}.

(** [ArmStat()]. *)
Definition ArmStat_new : ArmStat :=
  {| pulls := 0; winrate := fzero; cost := fzero |}.

(** [ArmStat.update]: the object after the call.  [pulls] is incremented
    first; the division raises when it is then zero, the means untouched. *)
Definition ArmStat_update (s : ArmStat) (reward c : F) : Result unit * ArmStat :=
  let pulls' := pulls s + 1 in
  if pulls' =? 0 then
    (Err ZeroDivisionError, {| pulls := pulls'; winrate := winrate s; cost := cost s |})
  else
    let winrate' := fadd (winrate s) (fdiv (fsub reward (winrate s)) (of_int pulls')) in
    let cost' := fadd (cost s) (fdiv (fsub c (cost s)) (of_int pulls')) in
    (Ok tt, {| pulls := pulls'; winrate := winrate'; cost := cost' |}).

Record Router : Type := {
  adapters : Dict (LLMAdapter F);
  cfg : RouterCfg;
  rng : Rng;
  stats : Dict ArmStat
}.

(** [Router.__init__]. *)
Definition Router_init (ads : Dict (LLMAdapter F)) (c : RouterCfg) (seed : Z) : Router :=
  {| adapters := ads;
     cfg := c;
     rng := Random seed;
     stats := map (fun kv => (fst kv, ArmStat_new)) ads |}.

Definition set_rng (r : Router) (g : Rng) : Router :=
  {| adapters := adapters r; cfg := cfg r; rng := g; stats := stats r |}.

Definition set_stats (r : Router) (st : Dict ArmStat) : Router :=
  {| adapters := adapters r; cfg := cfg r; rng := rng r; stats := st |}.

(** [Router._score]: the router after the call carries the advanced
    generator, also when the call raised. *)
Definition Router_score (r : Router) (nm : string) : Result F * Router :=
  match dict_get (stats r) nm with
  | Err e => (Err e, r)
  | Ok s =>
      let (u, g1) := rng_random (rng r) in
      let explore := fltb u (epsilon (cfg r)) in
      if explore || (pulls s =? 0) then
        let (v, g2) := rng_random g1 in
        (Ok v, set_rng r g2)
      else
        (Ok (fsub (winrate s) (fmul (alpha_cost (cfg r)) (cost s))), set_rng r g1)
  end.

(** The filter of [pick_k]. *)
Definition tier_ok (tier_hint : option Z) (a : LLMAdapter F) : bool :=
  match tier_hint with
  | None => true
  | Some t => tier (spec a) >=? t
  end.

(** [not skill or any(s.value == skill for s in a.spec.skills) or not
    a.spec.skills]: with a non-empty [skill], iterating over [skills] comes
    first and raises [TypeError] when it is [None]. *)
Definition skill_ok (skill : string) (a : LLMAdapter F) : Result bool :=
  if String.eqb skill "" then Ok true
  else
    match skills (spec a) with
    | None => Err TypeError
    | Some declared =>
        Ok (existsb (fun s => String.eqb (Skill_value s) skill) declared
            || match declared with [] => true | _ => false end)
    end.

(** The condition of the comprehension: [and] reads the skill test only
    when the tier test holds. *)
Definition eligible (skill : string) (tier_hint : option Z) (a : LLMAdapter F)
  : Result bool :=
  if tier_ok tier_hint a then skill_ok skill a else Ok false.

(** The key pass of [sorted]: [_score] is called once per element, in list
    order; the first raising call ends the pass. *)
Fixpoint score_all (r : Router) (cand : list (LLMAdapter F))
  : Result (list (F * LLMAdapter F)) * Router :=
  match cand with
  | [] => (Ok [], r)
  | a :: rest =>
      match Router_score r (name (spec a)) with
      | (Err e, r1) => (Err e, r1)
      | (Ok k, r1) =>
          match score_all r1 rest with
          | (Err e, r2) => (Err e, r2)
          | (Ok ks, r2) => (Ok ((k, a) :: ks), r2)
          end
      end
  end.

(** The pool [pick_k] sorts: the eligible adapters, or all of them when
    none is eligible; the exception of the comprehension when it raises. *)
Definition pool (ads : Dict (LLMAdapter F)) (skill : string) (tier_hint : option Z)
  : Result (list (LLMAdapter F)) :=
  match select (eligible skill tier_hint) (dict_values ads) with
  | Err e => Err e
  | Ok [] => Ok (dict_values ads)
  | Ok cand => Ok cand
  end.

(** [Router.pick_k]. *)
Definition Router_pick_k (r : Router) (skill : string) (k : Z) (tier_hint : option Z)
  : Result (list string) * Router :=
  match pool (adapters r) skill tier_hint with
  | Err e => (Err e, r)
  | Ok cand =>
      match score_all r cand with
      | (Err e, r') => (Err e, r')
      | (Ok keyed, r') =>
          let scored := map snd (py_sorted_desc keyed) in
          (Ok (map (fun a => name (spec a)) (py_take (Z.max 1 k) scored)), r')
      end
  end.

(** [Router.update]. *)
Definition Router_update (r : Router) (nm : string) (reward c : F) : Result unit * Router :=
  match dict_get (stats r) nm with
  | Err e => (Err e, r)
  | Ok s =>
      let (res, s') := ArmStat_update s reward c in
      (res, set_stats r (dict_set (stats r) nm s'))
  end.

End RouterDef.

Arguments RouterCfg F : clear implicits.
Arguments ArmStat F : clear implicits.
Arguments Router F {_}.

(* ================================================================== *)
(** ** nodes/planner.py, utils/traces.py: plans and traces *)

(** Values of the open [Dict[str, Any]] metadata bags. *)
#[warnings="-register-all"]
Inductive PyVal : Type :=
| VStr (s : string)
| VInt (z : Z)
| VDict (d : list (string * PyVal)).

Definition Meta : Type := Dict PyVal.

Record PlanStep : Type := {
  skill : string;
  description : string;
  k_models : Z;
  tier_hint : option Z;
  max_rounds : Z
}.

Section TraceDef.
Context {F : Type}.

Record Plan : Type := {
  steps : list PlanStep;
  hard_budget_usd : F;
  hard_latency_s : option F;
  seed : Z
}.

Record StepTrace : Type := {
  step_idx : Z;
  st_skill : string;
  chosen_models : list string;
  candidates : list (Candidate F);
  chosen_idx : Z;
  judge_meta : Meta;
  verified : bool;
  verifier_meta : Meta
}.

Record RunTrace : Type := {
  task : string;
  final_text : string;
  run_steps : list StepTrace;
  total_cost_usd : F;
  total_latency_s : F
}.

(** The [logging] calls of [Orchestrator.run], one constructor per call
    site; a step is logged under its displayed number [si + 1]. *)
Inductive LogMsg : Type :=
| LogGeneratingPlan (task : string) (budget_usd : F)
| LogPlanGenerated (n : nat)
| LogStep (step : Z) (skill description : string)
| LogSelected (step : Z) (names : list string)
| LogRunningDebate (step : Z)
| LogDebateComplete (step : Z) (n : nat)
| LogTrimming (step : Z)
| LogJudging (step : Z)
| LogChosen (step : Z) (j_idx : Z)
| LogVerifying (step : Z)
| LogVerification (step : Z) (ok : bool)
| LogAttemptImprove (step : Z)
| LogRunningImprove (step : Z)
| LogImproveComplete (step : Z) (n : nat)
| LogJudgingImproved (step : Z)
| LogVerifyingImproved (step : Z)
| LogImproveVerification (step : Z) (ok : bool).

End TraceDef.

Arguments Plan F : clear implicits.
Arguments StepTrace F : clear implicits.
Arguments RunTrace F : clear implicits.
Arguments LogMsg F : clear implicits.

(* ================================================================== *)
(** ** Programs over the external capabilities *)

Section ProgDef.
Context {F : Type}.

(** What the control loop asks of its environment.  An awaited capability
    answers with a value or raises; [Completion n] is the order in which
    [n] concurrently awaited tasks finish, chosen by the event loop. *)
Inductive Call : Type -> Type :=
| Acomplete (key : string) (a : LLMAdapter F) (req : CallRequest)
    : Call (Result (CallResult F))
| Completion (n : nat) : Call (list nat)
| JudgePick (task : string) (cands : list (Candidate F)) : Call (Result (Z * Meta))
| VerifierCheck (task answer : string) (metadata : Meta) : Call (Result (bool * Meta))
| MakePlan (task : string) (budget_usd : F) (latency : option F) : Call (Result (Plan F))
| Log (m : LogMsg F) : Call unit.

Inductive Prog (A : Type) : Type :=
| Ret (a : A)
| Raise (e : Exc)
| Vis (X : Type) (c : Call X) (k : X -> Prog A).
Arguments Ret {A} a.
Arguments Raise {A} e.
Arguments Vis {A X} c k.

Fixpoint bind {A B} (p : Prog A) (f : A -> Prog B) : Prog B :=
  match p with
  | Ret a => f a
  | Raise e => Raise e
  | Vis c k => Vis c (fun x => bind (k x) f)
  end.

(** A pure step that may raise. *)
Definition lift {A} (r : Result A) : Prog A :=
  match r with Ok a => Ret a | Err e => Raise e end.

(** [await] of a capability: its exception, if any, is re-raised here. *)
Definition await {A} (c : Call (Result A)) : Prog A := Vis c lift.

Definition log (m : LogMsg F) : Prog unit := Vis (Log m) Ret.

(** One answered call. *)
Inductive Event : Type :=
| Ev (X : Type) (c : Call X) (x : X).
Arguments Ev {X} c x.

(** The environment: it answers every call, and has a private state of
    its own, so that equal calls may be answered differently over time. *)
Definition Handler (S : Type) : Type := forall X, Call X -> S -> X * S.

(** [interp h p s]: run [p] against the environment [h] started in [s];
    the answered calls in order, the outcome, and the environment's state
    at the end. *)
Fixpoint interp {S A} (h : Handler S) (p : Prog A) (s : S)
  : list Event * Result A * S :=
  match p with
  | Ret a => ([], Ok a, s)
  | Raise e => ([], Err e, s)
  | Vis c k =>
      let (x, s') := h _ c s in
      let '(tr, res, s'') := interp h (k x) s' in
      (Ev c x :: tr, res, s'')
  end.

(** The exceptions the environment raised along a trace. *)
Definition failure_of (ev : Event) : list Exc :=
  match ev with
  | @Ev _ c x =>
      match c in Call X return X -> list Exc with
      | Acomplete _ _ _ => fun r => match r with Err e => [e] | Ok _ => [] end
      | JudgePick _ _ => fun r => match r with Err e => [e] | Ok _ => [] end
      | VerifierCheck _ _ _ => fun r => match r with Err e => [e] | Ok _ => [] end
      | MakePlan _ _ _ => fun r => match r with Err e => [e] | Ok _ => [] end
      | Completion _ => fun _ => []
      | Log _ => fun _ => []
      end x
  end.

Definition failures (tr : list Event) : list Exc := flat_map failure_of tr.

(** The logged messages of a trace. *)
Definition log_of (ev : Event) : list (LogMsg F) :=
  match ev with
  | @Ev _ c _ => match c with Log m => [m] | _ => [] end
  end.

Definition logged (tr : list Event) : list (LogMsg F) := flat_map log_of tr.

(** The answered worker invocations of a trace, in issue order. *)
Definition completion_of (ev : Event) : list (string * Result (CallResult F)) :=
  match ev with
  | @Ev _ c x =>
      match c in Call X return X -> list (string * Result (CallResult F)) with
      | Acomplete key _ _ => fun r => [(key, r)]
      | _ => fun _ => []
      end x
  end.

Definition completions (tr : list Event) : list (string * Result (CallResult F)) :=
  flat_map completion_of tr.

End ProgDef.

Arguments Call F : clear implicits.
Arguments Prog F A : clear implicits.
Arguments Event F : clear implicits.
Arguments Handler F S : clear implicits.
Arguments Ret {F A} a.
Arguments Raise {F A} e.
Arguments Vis {F A X} c k.
Arguments Ev {F X} c x.

Declare Scope prog_scope.
Delimit Scope prog_scope with prog.
Notation "x <- p ;; q" := (bind p (fun x => q))
  (at level 61, p at next level, right associativity) : prog_scope.
Notation "' pat <- p ;; q" := (bind p (fun x => match x with pat => q end))
  (at level 61, pat pattern, p at next level, right associativity) : prog_scope.
Notation "p ;; q" := (bind p (fun _ => q))
  (at level 61, right associativity) : prog_scope.

(* ================================================================== *)
(** ** nodes/debate.py *)

Section DebateDef.
Context {F : Type} `{PyFloat F}.
Local Open Scope prog_scope.

(** The [Candidate(...)] built by [one] from a completion. *)
Definition candidate_of (nm : string) (res : CallResult F) : Candidate F :=
  {| model := nm;
     text := res_text res;
     latency_s := res_latency_s res;
     cost_usd := res_cost_usd res;
     tokens_in := res_tokens_in res;
     tokens_out := res_tokens_out res |}.

(** The coroutine [one(name)], run as a task: its outcome (a candidate or
    the exception it died with) is kept for [gather]. *)
Definition Debate_one (ads : Dict (LLMAdapter F)) (req : CallRequest) (nm : string)
  : Prog F (Result (Candidate F)) :=
  match dict_get ads nm with
  | Err e => Ret (Err e)
  | Ok a =>
      Vis (Acomplete nm a req)
          (fun r => Ret (match r with
                         | Ok res => Ok (candidate_of nm res)
                         | Err e => Err e
                         end))
  end.

(** The tasks handed to [asyncio.gather], started in argument order. *)
Fixpoint run_tasks {A} (tasks : list (Prog F (Result A))) : Prog F (list (Result A)) :=
  match tasks with
  | [] => Ret []
  | t :: rest =>
      r <- t ;;
      rs <- run_tasks rest ;;
      Ret (r :: rs)
  end.

(** The exception of the task that fails first in completion order. *)
Fixpoint first_raised {A} (order : list nat) (outs : list (Result A)) : option Exc :=
  match order with
  | [] => None
  | i :: rest =>
      match nth_error outs i with
      | Some (Err e) => Some e
      | _ => first_raised rest outs
      end
  end.

(** What awaiting [asyncio.gather] yields: the first exception raised, or
    else every result in argument order. *)
Definition gather {A} (order : list nat) (outs : list (Result A)) : Result (list A) :=
  match first_raised order outs with
  | Some e => Err e
  | None => sequence outs
  end.

(** [Debate.run]. *)
Definition Debate_run (ads : Dict (LLMAdapter F)) (names : list string) (req : CallRequest)
  : Prog F (list (Candidate F)) :=
  outs <- run_tasks (map (Debate_one ads req) names) ;;
  order <- Vis (Completion (List.length names)) Ret ;;
  lift (gather order outs).

End DebateDef.

(* ================================================================== *)
(** ** orchestrator.py *)

(** utils/prompts.py, the constants the loop uses. *)
Definition AGENT_SYSTEM_PROMPT : string := "You are a helpful assistant.".
Definition AGENT_IMPROVE_SYSTEM_PROMPT : string := "Improve the answer.".
(** [AGENT_IMPROVE_USER_PROMPT.format(task=task, previous=previous)]. *)
Definition AGENT_IMPROVE_USER_PROMPT (task previous : string) : string :=
  ("Task: " ++ task ++ " Previous answer: " ++ previous ++ " Fix issues succinctly.")%string.

Section OrchestratorDef.
Context {F : Type} `{PyFloat F} `{PyRandom F} {Sorting : PySorted F}.
Local Open Scope prog_scope.

Record Orchestrator : Type := {
  orch_adapters : Dict (LLMAdapter F);
  orch_router : Router F;
  orch_rng : Rng
}.

(** The local variables of [run] that live across loop iterations,
    together with the router object the loop mutates. *)
Record LoopState : Type := {
  ls_router : Router F;
  ls_budget : Budget F;
  ls_total_cost : F;
  ls_total_lat : F;
  ls_step_traces : list (StepTrace F)
}.

(** The local variables of one iteration, as they stand after VERIFY and
    again after the optional improve round. *)
Record StepState : Type := {
  ss_router : Router F;
  ss_budget : Budget F;
  ss_total_cost : F;
  ss_total_lat : F;
  ss_names : list string;
  ss_cand : list (Candidate F);
  ss_step_cost : F;
  ss_j_idx : Z;
  ss_j_meta : Meta;
  ss_chosen : Candidate F;
  ss_ok : bool;
  ss_verified : bool;
  ss_v_meta : Meta
}.

(** A router method called from the loop: the router object is mutated,
    an exception propagates. *)
Definition router_call {A} (c : Result A * Router F) : Prog F (A * Router F) :=
  match c with
  | (Ok a, r) => Ret (a, r)
  | (Err e, _) => Raise e
  end.

(** What ADMIT leaves behind: the candidates that proceed, the step cost
    and latency, the running totals and the charged budget. *)
Record Admission : Type := {
  ad_cand : list (Candidate F);
  ad_step_cost : F;
  ad_step_lat : F;
  ad_total_cost : F;
  ad_total_lat : F;
  ad_budget : Budget F
}.

(** Lines 84-95: step cost and latency, the trim to the cheapest candidate
    when the budget does not allow them, the totals and the charge. *)
Definition admission (si : Z) (ls : LoopState) (cand : list (Candidate F)) : Prog F Admission :=
  let step_cost := py_sum (map cost_usd cand) in
  let step_lat := py_max_default (map latency_s cand) fzero in
  let (allowed, budget) := Budget_allow (ls_budget ls) step_cost step_lat in
  '(cand, step_cost, step_lat) <-
    (if negb allowed then
       log (LogTrimming (si + 1)) ;;
       cheapest <- lift (py_min_key cost_usd cand) ;;
       Ret ([cheapest], cost_usd cheapest, latency_s cheapest)
     else Ret (cand, step_cost, step_lat)) ;;
  Ret {| ad_cand := cand;
         ad_step_cost := step_cost;
         ad_step_lat := step_lat;
         ad_total_cost := fadd (ls_total_cost ls) step_cost;
         ad_total_lat := fadd (ls_total_lat ls) step_lat;
         ad_budget := Budget_charge budget step_cost |}.

(** Lines 74-113: ROUTE, EXECUTE, ADMIT, JUDGE, VERIFY. *)
Definition first_round (o : Orchestrator) (task : string) (si : Z) (step : PlanStep)
    (ls : LoopState) : Prog F StepState :=
  log (LogStep (si + 1) (skill step) (description step)) ;;
  '(names, router) <-
    router_call (Router_pick_k (ls_router ls) (skill step) (k_models step) (tier_hint step)) ;;
  log (LogSelected (si + 1) names) ;;
  log (LogRunningDebate (si + 1)) ;;
  cand <- Debate_run (orch_adapters o) names
            {| system := AGENT_SYSTEM_PROMPT; user := task |} ;;
  log (LogDebateComplete (si + 1) (List.length cand)) ;;
  ad <- admission si ls cand ;;
  let cand := ad_cand ad in
  log (LogJudging (si + 1)) ;;
  '(j_idx, j_meta) <-
    (if Nat.eqb (List.length cand) 1
     then Ret (0, [("judge_text", VStr "There is only one candidate.")])
     else await (JudgePick task cand)) ;;
  chosen <- lift (py_index cand j_idx) ;;
  log (LogChosen (si + 1) j_idx) ;;
  log (LogVerifying (si + 1)) ;;
  '(ok, v_meta) <-
    await (VerifierCheck task (text chosen) [("skill", VStr (skill step))]) ;;
  log (LogVerification (si + 1) ok) ;;
  Ret {| ss_router := router; ss_budget := ad_budget ad;
         ss_total_cost := ad_total_cost ad; ss_total_lat := ad_total_lat ad;
         ss_names := names; ss_cand := cand; ss_step_cost := ad_step_cost ad;
         ss_j_idx := j_idx; ss_j_meta := j_meta; ss_chosen := chosen;
         ss_ok := ok; ss_verified := ok; ss_v_meta := v_meta |}.

(** [max(self.adapters[n].spec.tier for n in names)]. *)
Definition max_tier (ads : Dict (LLMAdapter F)) (names : list string) : Result Z :=
  rbind (sequence (map (fun n => rbind (dict_get ads n) (fun a => Ok (tier (spec a)))) names))
        py_max_int.

(** The guard of line 114. *)
Definition improve_guard (step : PlanStep) (s : StepState) : bool :=
  negb (ss_ok s) && (max_rounds step >? 0) && fgtb (usd_left (ss_budget s)) fzero.

(** Lines 115-148: the body of the improve round. *)
Definition improve_body (o : Orchestrator) (task : string) (si : Z) (step : PlanStep)
    (s : StepState) : Prog F StepState :=
  log (LogAttemptImprove (si + 1)) ;;
  top <- lift (max_tier (orch_adapters o) (ss_names s)) ;;
  let next_tier := top + 1 in
  '(names2, router) <-
    router_call (Router_pick_k (ss_router s) (skill step) 1 (Some next_tier)) ;;
  log (LogRunningImprove (si + 1)) ;;
  cand2 <- Debate_run (orch_adapters o) names2
             {| system := AGENT_IMPROVE_SYSTEM_PROMPT;
                user := AGENT_IMPROVE_USER_PROMPT task (text (ss_chosen s)) |} ;;
  log (LogImproveComplete (si + 1) (List.length cand2)) ;;
  let total_cost := fadd (ss_total_cost s) (py_sum (map cost_usd cand2)) in
  let total_lat := fadd (ss_total_lat s) (py_max_default (map latency_s cand2) fzero) in
  let budget := Budget_charge (ss_budget s) (py_sum (map cost_usd cand2)) in
  let all_cand := ss_chosen s :: cand2 in
  log (LogJudgingImproved (si + 1)) ;;
  '(j_idx2, j_meta2) <- await (JudgePick task all_cand) ;;
  chosen <- lift (py_index all_cand j_idx2) ;;
  log (LogVerifyingImproved (si + 1)) ;;
  '(ok2, v_meta2) <-
    await (VerifierCheck task (text chosen)
             [("skill", VStr (skill step)); ("round", VInt 2)]) ;;
  log (LogImproveVerification (si + 1) ok2) ;;
  Ret {| ss_router := router; ss_budget := budget;
         ss_total_cost := total_cost; ss_total_lat := total_lat;
         ss_names := ss_names s; ss_cand := ss_cand s; ss_step_cost := ss_step_cost s;
         ss_j_idx := ss_j_idx s;
         ss_j_meta := dict_set (ss_j_meta s) "improve" (VDict j_meta2);
         ss_chosen := chosen;
         ss_ok := ss_ok s; ss_verified := ok2;
         ss_v_meta := dict_set (ss_v_meta s) "improve" (VDict v_meta2) |}.

(** Lines 114-148. *)
Definition improve_round (o : Orchestrator) (task : string) (si : Z) (step : PlanStep)
    (s : StepState) : Prog F StepState :=
  if improve_guard step s then improve_body o task si step s else Ret s.

(** Lines 150-166: router feedback and the appended [StepTrace]. *)
Definition record_step (si : Z) (step : PlanStep) (ls : LoopState) (s : StepState)
  : Prog F LoopState :=
  '(_, router) <-
    router_call (Router_update (ss_router s) (model (ss_chosen s))
                   (if ss_verified s then fone else fzero) (cost_usd (ss_chosen s))) ;;
  Ret {| ls_router := router;
         ls_budget := ss_budget s;
         ls_total_cost := ss_total_cost s;
         ls_total_lat := ss_total_lat s;
         ls_step_traces :=
           ls_step_traces ls ++
           [{| step_idx := si;
               st_skill := skill step;
               chosen_models := ss_names s;
               candidates := ss_cand s;
               chosen_idx := ss_j_idx s;
               judge_meta := ss_j_meta s;
               verified := ss_verified s;
               verifier_meta := ss_v_meta s |}] |}.

(** One iteration of the [for] loop of [run]. *)
Definition run_step (o : Orchestrator) (task : string) (si : Z) (step : PlanStep)
    (ls : LoopState) : Prog F LoopState :=
  s1 <- first_round o task si step ls ;;
  s2 <- improve_round o task si step s1 ;;
  record_step si step ls s2.

(** [for si, step in enumerate(plan.steps)], from index [si]. *)
Fixpoint run_loop (o : Orchestrator) (task : string) (si : Z) (todo : list PlanStep)
    (ls : LoopState) : Prog F LoopState :=
  match todo with
  | [] => Ret ls
  | step :: rest =>
      ls' <- run_step o task si step ls ;;
      run_loop o task (si + 1) rest ls'
  end.

(** Lines 168-172. *)
Definition final_text_of (traces : list (StepTrace F)) : Result string :=
  match traces with
  | [] => Ok ""
  | _ =>
      rbind (py_last traces) (fun t =>
      rbind (py_index (candidates t) (chosen_idx t)) (fun c =>
      Ok (text c)))
  end.

(** [Orchestrator.run]: the returned trace, with the orchestrator whose
    router the run has mutated. *)
Definition Orchestrator_run (o : Orchestrator) (task : string) (budget_usd : F)
    (latency : option F) : Prog F (RunTrace F * Orchestrator) :=
  log (LogGeneratingPlan task budget_usd) ;;
  plan <- await (MakePlan task budget_usd latency) ;;
  log (LogPlanGenerated (List.length (steps plan))) ;;
  let budget := {| usd_left := hard_budget_usd plan; deadline_s := hard_latency_s plan |} in
  ls <- run_loop o task 0 (steps plan)
          {| ls_router := orch_router o; ls_budget := budget;
             ls_total_cost := fzero; ls_total_lat := fzero; ls_step_traces := [] |} ;;
  final <- lift (final_text_of (ls_step_traces ls)) ;;
  Ret ({| task := task;
          final_text := final;
          run_steps := ls_step_traces ls;
          total_cost_usd := ls_total_cost ls;
          total_latency_s := ls_total_lat ls |},
       {| orch_adapters := orch_adapters o;
          orch_router := ls_router ls;
          orch_rng := orch_rng o |}).

End OrchestratorDef.

Arguments Orchestrator F {_}.
Arguments LoopState F {_}.
Arguments StepState F {_}.
Arguments Admission F : clear implicits.

(* ================================================================== *)
(** ** Vocabulary of the properties *)

Section Vocabulary.
Context {F : Type} `{PyFloat F} `{PyRandom F} {Sorting : PySorted F}.

(** A sequence of [update(reward, cost)] calls on one [ArmStat]. *)
Fixpoint ArmStat_updates (s : ArmStat F) (obs : list (F * F))
  : Result unit * ArmStat F :=
  match obs with
  | [] => (Ok tt, s)
  | (reward, c) :: rest =>
      match ArmStat_update s reward c with
      | (Ok _, s') => ArmStat_updates s' rest
      | (Err e, s') => (Err e, s')
      end
  end.

(** The calls a client can make on a [Router]. *)
Inductive RouterCall : Type :=
| CallPickK (skill : string) (k : Z) (tier_hint : option Z)
| CallUpdate (nm : string) (reward c : F).

(** What a call hands back: a selection, nothing, or an exception. *)
Inductive RouterAnswer : Type :=
| Picked (names : list string)
| Updated
| Raised (e : Exc).

Definition Router_call (r : Router F) (c : RouterCall) : RouterAnswer * Router F :=
  match c with
  | CallPickK sk k th =>
      match Router_pick_k r sk k th with
      | (Ok names, r') => (Picked names, r')
      | (Err e, r') => (Raised e, r')
      end
  | CallUpdate nm reward c =>
      match Router_update r nm reward c with
      | (Ok _, r') => (Updated, r')
      | (Err e, r') => (Raised e, r')
      end
  end.

Fixpoint Router_calls (r : Router F) (cs : list RouterCall) : list RouterAnswer * Router F :=
  match cs with
  | [] => ([], r)
  | c :: rest =>
      let (a, r1) := Router_call r c in
      let (ans, r2) := Router_calls r1 rest in
      (a :: ans, r2)
  end.

(** The calls one iteration of the loop makes on the router, read off the
    local variables after VERIFY ([s1]) and at RECORD ([s2]): the first
    [pick_k] (lines 75-77), the [pick_k] of the improve round when its
    guard holds (lines 117-120), and the final [update] (lines 151-153). *)
Definition improve_calls (o : Orchestrator F) (step : PlanStep) (s1 : StepState F)
  : list RouterCall :=
  if improve_guard step s1 then
    match max_tier (orch_adapters o) (ss_names s1) with
    | Ok top => [CallPickK (skill step) 1 (Some (top + 1))]
    | Err _ => []
    end
  else [].

Definition step_calls (o : Orchestrator F) (step : PlanStep) (s1 s2 : StepState F)
  : list RouterCall :=
  CallPickK (skill step) (k_models step) (tier_hint step)
  :: improve_calls o step s1
  ++ [CallUpdate (model (ss_chosen s2)) (if ss_verified s2 then fone else fzero)
                 (cost_usd (ss_chosen s2))].

(** Adapters are registered under their own name, as in [main.py]. *)
Definition keyed_by_name (ads : Dict (LLMAdapter F)) : Prop :=
  Forall (fun kv => fst kv = name (spec (snd kv))) ads.

(** Every adapter declares its skills: a tuple, possibly empty, and not
    the [None] an adapter built without [skills] stores. *)
Definition declared_skills (ads : Dict (LLMAdapter F)) : Prop :=
  Forall (fun kv => skills (spec (snd kv)) <> None) ads.

(** What every router built by [Router_init] keeps true: its adapters are
    the ones it was given and it has one [ArmStat] per adapter key. *)
Definition router_inv (ads : Dict (LLMAdapter F)) (r : Router F) : Prop :=
  adapters r = ads /\ dict_keys (stats r) = dict_keys ads.

(** How the tasks of a fan-out relate to the worker invocations made: a
    name that is not registered dies with its [KeyError] without invoking
    anything; a registered one turns its completion into a candidate. *)
Inductive fanned (ads : Dict (LLMAdapter F))
  : list string -> list (Result (Candidate F))
    -> list (string * Result (CallResult F)) -> Prop :=
| fanned_nil : fanned ads [] [] []
| fanned_missing n ns outs cm e :
    dict_get ads n = Err e ->
    fanned ads ns outs cm ->
    fanned ads (n :: ns) (Err e :: outs) cm
| fanned_call n ns outs cm a r :
    dict_get ads n = Ok a ->
    fanned ads ns outs cm ->
    fanned ads (n :: ns)
           (match r with Ok res => Ok (candidate_of n res) | Err e => Err e end :: outs)
           ((n, r) :: cm).

(** Number of improve rounds announced in a trace. *)
Definition is_attempt (m : LogMsg F) : bool :=
  match m with LogAttemptImprove _ => true | _ => false end.

Definition attempts (tr : list (Event F)) : nat :=
  List.length (filter is_attempt (logged tr)).

(** Number of fan-outs awaited in a trace. *)
Definition is_gather (ev : Event F) : bool :=
  match ev with
  | @Ev _ _ c _ => match c with Completion _ => true | _ => false end
  end.

Definition fanouts (tr : list (Event F)) : nat := List.length (filter is_gather tr).

(** The completions that returned, in issue order. *)
Fixpoint returned {A} (l : list (Result A)) : list A :=
  match l with
  | [] => []
  | Ok a :: rest => a :: returned rest
  | Err _ :: rest => returned rest
  end.

Definition completion_costs (tr : list (Event F)) : list F :=
  map res_cost_usd (returned (map snd (completions tr))).

End Vocabulary.

Arguments RouterCall F : clear implicits.

(* ================================================================== *)
(** ** Generator objects *)

Section Objects.
Context {F : Type} `{PyFloat F} `{PyRandom F} {Sorting : PySorted F}.

(** A [random.Random] is a mutable object reached through references.
    The store holds the state of every generator object of the process
    under its address; [next] is the first address not yet in use.
    Objects are never freed. *)
Record Store : Type := {
  cells : nat -> Rng;
  next : nat
}.

Definition read (st : Store) (a : nat) : Rng := cells st a.

Definition write (st : Store) (a : nat) (g : Rng) : Store :=
  {| cells := fun b => if Nat.eqb b a then g else cells st b;
     next := next st |}.

(** [random.Random(seed)]: a new object, at a fresh address. *)
Definition Random_new (seed : Z) (st : Store) : nat * Store :=
  (next st,
   {| cells := fun b => if Nat.eqb b (next st) then Random seed else cells st b;
      next := Datatypes.S (next st) |}).

(** [g.random()] on the object at address [a]. *)
Definition random_at (a : nat) (st : Store) : F * Store :=
  let (u, g) := rng_random (read st a) in (u, write st a g).

(** A [Router] object: [self.rng] is a reference to a generator object. *)
Record RouterObj : Type := {
  ro_adapters : Dict (LLMAdapter F);
  ro_cfg : RouterCfg F;
  ro_rng : nat;
  ro_stats : Dict (ArmStat F)
}.

(** [Router.__init__] (lines 58-61): [self.rng = random.Random(seed)]
    creates the generator object. *)
Definition RouterObj_init (ads : Dict (LLMAdapter F)) (c : RouterCfg F) (seed : Z)
    (st : Store) : RouterObj * Store :=
  let (a, st') := Random_new seed st in
  ({| ro_adapters := ads; ro_cfg := c; ro_rng := a;
      ro_stats := map (fun kv => (fst kv, ArmStat_new)) ads |}, st').

(** The fields of the object, with the state of the generator [self.rng]
    refers to: the value the methods of router.py are embedded on. *)
Definition deref (ro : RouterObj) (st : Store) : Router F :=
  {| adapters := ro_adapters ro; cfg := ro_cfg ro;
     rng := read st (ro_rng ro); stats := ro_stats ro |}.

(** A method call on the object.  The method runs on the object's fields;
    its draws are [self.rng.random()], so the generator object [self.rng]
    refers to ends in the state the method left it in ([pick_k] and
    [update] do not await, nothing else runs meanwhile).  [self.rng]
    itself is never reassigned. *)
Definition RouterObj_call (ro : RouterObj) (c : RouterCall F) (st : Store)
  : RouterAnswer * RouterObj * Store :=
  let (ans, r) := Router_call (deref ro st) c in
  (ans,
   {| ro_adapters := adapters r; ro_cfg := cfg r; ro_rng := ro_rng ro;
      ro_stats := stats r |},
   write st (ro_rng ro) (rng r)).

(** What happens in a process that holds a router: calls on the router,
    and the other components at work in between.  Another component can
    create generators of its own ([Orchestrator.__init__] does, line 47;
    so does a second [Router]) and draw from any generator it holds a
    reference to. *)
Inductive Action : Type :=
| OnRouter (c : RouterCall F)
| OtherNew (seed : Z)
| OtherDraw (i : nat).

(** A process: the store, the router object, the references the other
    components hold ([p_theirs], in the order they got them), the
    addresses they drew from, and the answers the router has given. *)
Record Process : Type := {
  p_store : Store;
  p_router : RouterObj;
  p_theirs : list nat;
  p_drawn : list nat;
  p_answers : list RouterAnswer
}.

(** The router is constructed in a process that may already hold
    generators (the module-level generator of [random] among them), all
    of them reachable by the other components. *)
Definition start (ads : Dict (LLMAdapter F)) (c : RouterCfg F) (seed : Z) (st : Store)
  : Process :=
  let (ro, st') := RouterObj_init ads c seed st in
  {| p_store := st'; p_router := ro; p_theirs := seq 0 (next st);
     p_drawn := []; p_answers := [] |}.

Definition act (p : Process) (a : Action) : Process :=
  match a with
  | OnRouter c =>
      let '(ans, ro, st) := RouterObj_call (p_router p) c (p_store p) in
      {| p_store := st; p_router := ro; p_theirs := p_theirs p;
         p_drawn := p_drawn p; p_answers := p_answers p ++ [ans] |}
  | OtherNew seed =>
      let (a, st) := Random_new seed (p_store p) in
      {| p_store := st; p_router := p_router p; p_theirs := p_theirs p ++ [a];
         p_drawn := p_drawn p; p_answers := p_answers p |}
  | OtherDraw i =>
      match nth_error (p_theirs p) i with
      | Some a =>
          {| p_store := snd (random_at a (p_store p)); p_router := p_router p;
             p_theirs := p_theirs p; p_drawn := p_drawn p ++ [a];
             p_answers := p_answers p |}
      | None => p
      end
  end.

Definition run_process (p : Process) (acts : list Action) : Process :=
  fold_left act acts p.

(** The calls made on the router in a run of the process. *)
Definition router_calls_of (acts : list Action) : list (RouterCall F) :=
  flat_map (fun a => match a with OnRouter c => [c] | _ => [] end) acts.

(** [owned p r]: the router object of [p], with its generator, is in the
    state [r]; its generator is an object of the store, no other component
    holds a reference to it, and none has drawn from it. *)
Definition owned (p : Process) (r : Router F) : Prop :=
  deref (p_router p) (p_store p) = r
  /\ (ro_rng (p_router p) < next (p_store p))%nat
  /\ Forall (fun a => (a < next (p_store p))%nat /\ a <> ro_rng (p_router p))
            (p_theirs p)
  /\ Forall (fun a => a <> ro_rng (p_router p)) (p_drawn p).

End Objects.

Arguments Store F {_}.
Arguments RouterObj F : clear implicits.
Arguments Action F : clear implicits.
Arguments Process F {_}.

(** Arithmetic mean over the rationals. *)
Definition Qsum (l : list Q) : Q := fold_right Qplus 0%Q l.
Definition Qmean (l : list Q) : Q := (Qsum l / inject_Z (Z.of_nat (List.length l)))%Q.

(** The running mean over the rationals: [pulls] counts the observations
    and [winrate * pulls], [cost * pulls] are their sums. *)
Definition mean_inv (s : ArmStat Q) (seen : list (Q * Q)) : Prop :=
  pulls s = Z.of_nat (List.length seen)
  /\ (winrate s * inject_Z (pulls s) == Qsum (map fst seen))%Q
  /\ (cost s * inject_Z (pulls s) == Qsum (map snd seen))%Q.

(* ================================================================== *)
(** ** Vocabulary of the proofs *)

(** The scan of [min] and [max]: keep the current best, replace it by a
    strictly better element. *)
Definition scan {A} (better : A -> A -> bool) (rest : list A) (m : A) : A :=
  fold_left (fun m y => if better y m then y else m) rest m.

Section ProofVocabulary.
Context {F : Type} `{PyFloat F} `{PyRandom F} {Sorting : PySorted F}.

(** The exceptions worker invocations raised, read off the completions. *)
Definition completion_failures (cm : list (string * Result (CallResult F))) : list Exc :=
  flat_map (fun kr => match snd kr with Err e => [e] | Ok _ => [] end) cm.

(** [returns p Q]: whenever [p] returns [a] after the trace [tr], [Q tr a]. *)
Definition returns {A} (p : Prog F A) (Q : list (Event F) -> A -> Prop) : Prop :=
  forall S (h : Handler F S) (s : S),
    match interp h p s with
    | (tr, Ok a, _) => Q tr a
    | (_, Err _, _) => True
    end.

(** [always p Q]: [Q] holds of the trace and outcome of every run of [p]. *)
Definition always {A} (p : Prog F A) (Q : list (Event F) -> Result A -> Prop) : Prop :=
  forall S (h : Handler F S) (s : S),
    match interp h p s with (tr, res, _) => Q tr res end.

(** Once the environment has raised, the program ends with an exception:
    one the environment raised, or the [KeyError] of a worker name that is
    not registered (a task of the same fan-out that died on its own). *)
Definition aborted (ads : Dict (LLMAdapter F)) {A} (tr : list (Event F))
    (res : Result A) : Prop :=
  failures tr = []
  \/ exists e, res = Err e
               /\ (In e (failures tr)
                   \/ exists k, e = KeyError k /\ ~ In k (dict_keys ads)).

Definition propagates (ads : Dict (LLMAdapter F)) {A} (p : Prog F A) : Prop :=
  always p (aborted ads).

(** [quiet p]: no run of [p] announces an improve round. *)
Definition quiet {A} (p : Prog F A) : Prop := always p (fun tr _ => attempts tr = 0%nat).

(** What ADMIT hands on, whatever the order on floats is. *)
Definition admitted (ls : LoopState F) (cand : list (Candidate F)) (ad : Admission F) : Prop :=
  ad_total_cost ad = fadd (ls_total_cost ls) (ad_step_cost ad)
  /\ ad_total_lat ad = fadd (ls_total_lat ls) (ad_step_lat ad)
  /\ ad_budget ad = Budget_charge (ls_budget ls) (ad_step_cost ad)
  /\ ((ad_cand ad = cand /\ ad_step_cost ad = py_sum (map cost_usd cand))
      \/ exists cheapest, In cheapest cand /\ ad_cand ad = [cheapest]
                          /\ ad_step_cost ad = cost_usd cheapest).

(** What the first round leaves behind when it returns. *)
Definition first_round_post (task : string) (si : Z) (step : PlanStep)
    (ls : LoopState F) (tr : list (Event F)) (st : StepState F) : Prop :=
  Router_pick_k (ls_router ls) (skill step) (k_models step) (tier_hint step)
    = (Ok (ss_names st), ss_router st)
  /\ (exists ress ad,
         List.length ress = List.length (ss_names st)
         /\ completions tr = combine (ss_names st) (map Ok ress)
         /\ admitted ls (map (fun nr => candidate_of (fst nr) (snd nr))
                             (combine (ss_names st) ress)) ad
         /\ ss_cand st = ad_cand ad
         /\ ss_step_cost st = ad_step_cost ad
         /\ ss_total_cost st = ad_total_cost ad
         /\ ss_total_lat st = ad_total_lat ad
         /\ ss_budget st = ad_budget ad)
  /\ py_index (ss_cand st) (ss_j_idx st) = Ok (ss_chosen st)
  /\ ss_verified st = ss_ok st
  /\ (exists tr0 m,
         tr = tr0 ++ [Ev (VerifierCheck task (text (ss_chosen st))
                            [("skill", VStr (skill step))]) (Ok (ss_ok st, m));
                      Ev (Log (LogVerification (si + 1) (ss_ok st))) tt])
  /\ attempts tr = 0%nat
  /\ fanouts tr = 1%nat.

(** What the improve round leaves behind when it returns. *)
Definition improve_post (o : Orchestrator F) (task : string) (step : PlanStep)
    (s1 : StepState F) (tr : list (Event F)) (s2 : StepState F) : Prop :=
  ss_names s2 = ss_names s1
  /\ ss_cand s2 = ss_cand s1
  /\ ss_j_idx s2 = ss_j_idx s1
  /\ ss_step_cost s2 = ss_step_cost s1
  /\ ss_ok s2 = ss_ok s1
  /\ fanouts tr = 1%nat
  /\ exists top names2 ress j_idx2 j_meta2 v_meta2,
       max_tier (orch_adapters o) (ss_names s1) = Ok top
       /\ Router_pick_k (ss_router s1) (skill step) 1 (Some (top + 1))
          = (Ok names2, ss_router s2)
       /\ List.length ress = List.length names2
       /\ completions tr = combine names2 (map Ok ress)
       /\ let cand2 := map (fun nr => candidate_of (fst nr) (snd nr))
                           (combine names2 ress) in
          map cost_usd cand2 = completion_costs tr
          /\ py_index (ss_chosen s1 :: cand2) j_idx2 = Ok (ss_chosen s2)
          /\ ss_total_cost s2 = fadd (ss_total_cost s1) (py_sum (map cost_usd cand2))
          /\ ss_total_lat s2
             = fadd (ss_total_lat s1) (py_max_default (map latency_s cand2) fzero)
          /\ ss_budget s2 = Budget_charge (ss_budget s1) (py_sum (map cost_usd cand2))
          /\ In (Ev (JudgePick task (ss_chosen s1 :: cand2)) (Ok (j_idx2, j_meta2))) tr
          /\ In (Ev (VerifierCheck task (text (ss_chosen s2))
                       [("skill", VStr (skill step)); ("round", VInt 2)])
                    (Ok (ss_verified s2, v_meta2))) tr
          /\ ss_j_meta s2 = dict_set (ss_j_meta s1) "improve" (VDict j_meta2)
          /\ ss_v_meta s2 = dict_set (ss_v_meta s1) "improve" (VDict v_meta2).

(** The [StepTrace] appended for a step. *)
Definition step_trace_of (si : Z) (step : PlanStep) (s2 : StepState F) : StepTrace F :=
  {| step_idx := si;
     st_skill := skill step;
     chosen_models := ss_names s2;
     candidates := ss_cand s2;
     chosen_idx := ss_j_idx s2;
     judge_meta := ss_j_meta s2;
     verified := ss_verified s2;
     verifier_meta := ss_v_meta s2 |}.

End ProofVocabulary.

(* ================================================================== *)
(** ** Worked configurations *)

(** A small linear congruential generator standing in for [random.Random]
    in the worked examples; no theorem depends on it. *)
Definition lcg_next (s : Z) : Z := (s * 1103515245 + 12345) mod 2147483648.

#[export] Instance lcg_binary64 : PyRandom float := {|
  Rng := Z;
  Random := fun seed => seed mod 2147483648;
  rng_random := fun s =>
    (PrimFloat.div (of_int (lcg_next s)) (of_int 2147483648), lcg_next s)
|}.

#[export] Instance lcg_exactQ : PyRandom Q := {|
  Rng := Z;
  Random := fun seed => seed mod 2147483648;
  rng_random := fun s => ((inject_Z (lcg_next s) / inject_Z 2147483648)%Q, lcg_next s)
|}.

(** The workers of [main.py], over exact rationals. *)
Definition gpt_4o : LLMAdapter Q :=
  {| spec := {| name := "gpt-4o"; provider := "openai";
                cost_per_1k_input := 5 # 1000; cost_per_1k_output := 15 # 1000;
                tier := 1; skills := Some [MATH; CODE] |} |}.

Definition gpt_4o_mini : LLMAdapter Q :=
  {| spec := {| name := "gpt-4o-mini"; provider := "openai";
                cost_per_1k_input := 1 # 1000; cost_per_1k_output := 2 # 1000;
                tier := 0; skills := Some [REASON; ANALYZE; SUMMARIZE] |} |}.

Definition worker_models : Dict (LLMAdapter Q) :=
  [("gpt-4o", gpt_4o); ("gpt-4o-mini", gpt_4o_mini)].

(** [RouterCfg()] and the orchestrator of [main.py]. *)
Definition default_cfg : RouterCfg Q := {| epsilon := 5 # 100; alpha_cost := 0%Q |}.

Definition demo_orchestrator : Orchestrator Q :=
  {| orch_adapters := worker_models;
     orch_router := Router_init worker_models default_cfg 123;
     orch_rng := Random 123 |}.

(** A one-step plan: one worker of tier 1 or more for a "math" step, one
    improve round allowed. *)
Definition demo_step : PlanStep :=
  {| skill := "math"; description := "add the numbers";
     k_models := 1; tier_hint := Some 1; max_rounds := 1 |}.

(** An environment for the worked runs.  Its state counts the verifier
    calls made so far.  A worker answers with its own name and the system
    prompt it was given, and is paid its output price; concurrent tasks finish in reverse order; the planner
    plans [demo_step]; the judge picks the last candidate; the verifier
    rejects the first answer it sees and accepts the later ones. *)
Definition demo_env : Handler Q nat :=
  fun X (c : Call Q X) =>
    match c in Call _ X return nat -> X * nat with
    | Acomplete key a req =>
        fun n => (Ok {| res_text := ("answer of " ++ key ++ " to: " ++ system req)%string;
                        res_tokens_in := 10; res_tokens_out := 20;
                        res_latency_s := 1%Q;
                        res_cost_usd := cost_per_1k_output (spec a) |}, n)
    | Completion k => fun n => (rev (seq 0 k), n)
    | JudgePick _ cands =>
        fun n => (Ok (Z.of_nat (List.length cands) - 1, [("judge_text", VStr "last")]), n)
    | VerifierCheck _ _ _ =>
        fun n => (Ok (Nat.ltb 0 n, [("verifier_text", VStr "checked")]), Datatypes.S n)
    | MakePlan _ b l =>
        fun n => (Ok {| steps := [demo_step]; hard_budget_usd := b;
                        hard_latency_s := l; seed := 123 |}, n)
    | Log _ => fun n => (tt, n)
    end.

(** Two candidates that cost more together than the budget below holds. *)
Definition demo_candidates : list (Candidate Q) :=
  [ {| model := "gpt-4o"; text := "4"; latency_s := 2%Q; cost_usd := 15 # 1000;
       tokens_in := 10; tokens_out := 20 |};
    {| model := "gpt-4o-mini"; text := "four"; latency_s := 1%Q; cost_usd := 2 # 1000;
       tokens_in := 10; tokens_out := 20 |} ].

Definition demo_loop_state : LoopState Q :=
  {| ls_router := Router_init worker_models default_cfg 123;
     ls_budget := {| usd_left := 1 # 100; deadline_s := None |};
     ls_total_cost := 0%Q; ls_total_lat := 0%Q; ls_step_traces := [] |}.

(** The router of [main.py] before its first call, and a configuration
    that always explores. *)
Definition fresh_router : Router Q := Router_init worker_models default_cfg 123.

Definition eager_cfg : RouterCfg Q := {| epsilon := 1%Q; alpha_cost := 1%Q |}.

(** A router that never explores, after both workers have been pulled. *)
Definition greedy_router : Router Q :=
  snd (Router_update
         (snd (Router_update
                 (Router_init worker_models {| epsilon := 0%Q; alpha_cost := 1%Q |} 123)
                 "gpt-4o" 1%Q (15 # 1000)))
         "gpt-4o-mini" 0%Q (2 # 1000)).

(** A loop state whose router has no adapters. *)
Definition bare_loop_state : LoopState Q :=
  {| ls_router := Router_init [] default_cfg 123;
     ls_budget := {| usd_left := 1 # 100; deadline_s := None |};
     ls_total_cost := 0%Q; ls_total_lat := 0%Q; ls_step_traces := [] |}.

(** A budget with a deadline, in binary64. *)
Definition timed_budget : Budget float :=
  {| usd_left := 1%float; deadline_s := Some 30%float |}.

(** Two processes for a router: one in which nothing else happens, in a
    store without generators, and one that starts with a generator in the
    store and in which another component draws and creates a generator of
    its own between the calls. *)
Definition routing_calls : list (RouterCall Q) :=
  [CallPickK "" 2 None; CallUpdate "gpt-4o" 1%Q (15 # 1000); CallPickK "math" 1 (Some 1)].

Definition empty_store : Store Q := {| cells := fun _ => 0; next := 0 |}.

Definition busy_store : Store Q := {| cells := fun _ => 42; next := 1 |}.

Definition quiet_session : list (Action Q) := map (@OnRouter Q) routing_calls.

Definition busy_session : list (Action Q) :=
  [OtherDraw 0; OnRouter (CallPickK "" 2 None); OtherNew 7; OtherDraw 1; OtherDraw 0;
   OnRouter (CallUpdate "gpt-4o" 1%Q (15 # 1000)); OtherDraw 1;
   OnRouter (CallPickK "math" 1 (Some 1))].

(** What [Router.__init__] never builds: a second router object whose
    [rng] refers to the generator of the first. *)
Definition aliased_router (ro : RouterObj Q) : RouterObj Q :=
  {| ro_adapters := worker_models; ro_cfg := default_cfg; ro_rng := ro_rng ro;
     ro_stats := map (fun kv => (fst kv, ArmStat_new)) worker_models |}.

(** An adapter built without [skills], as [OpenAIAdapter(model, cost_in,
    cost_out)] builds it. *)
Definition gpt_plain : LLMAdapter Q :=
  {| spec := {| name := "gpt-4o"; provider := "openai";
                cost_per_1k_input := 5 # 1000; cost_per_1k_output := 15 # 1000;
                tier := 0; skills := None |} |}.

(* ================================================================== *)
(** ** Vocabulary of the further properties *)

Section Labels.
Context {F : Type} `{PyFloat F} `{PyRandom F} {Sorting : PySorted F}.

(** An answered call, spelled out: what was asked and what came back. *)
Inductive Label : Type :=
| LInvoke (key : string) (a : LLMAdapter F) (req : CallRequest)
    (answer : Result (CallResult F))
| LCompletion (n : nat) (order : list nat)
| LJudge (task : string) (cands : list (Candidate F)) (answer : Result (Z * Meta))
| LVerify (task answer_text : string) (metadata : Meta) (answer : Result (bool * Meta))
| LPlan (task : string) (budget_usd : F) (latency : option F) (answer : Result (Plan F))
| LLog (m : LogMsg F).

Definition label (ev : Event F) : Label :=
  match ev with
  | @Ev _ _ c x =>
      match c in Call _ X return X -> Label with
      | Acomplete key a req => fun r => LInvoke key a req r
      | Completion n => fun order => LCompletion n order
      | JudgePick task cands => fun r => LJudge task cands r
      | VerifierCheck task answer md => fun r => LVerify task answer md r
      | MakePlan task b l => fun r => LPlan task b l r
      | Log m => fun _ => LLog m
      end x
  end.

Definition labels (tr : list (Event F)) : list Label := map label tr.

Definition is_invoke (l : Label) : bool :=
  match l with LInvoke _ _ _ _ => true | _ => false end.

Definition is_judge (l : Label) : bool :=
  match l with LJudge _ _ _ => true | _ => false end.

Definition is_verify (l : Label) : bool :=
  match l with LVerify _ _ _ _ => true | _ => false end.

(** The judge calls of a trace. *)
Definition judged (tr : list (Event F)) : list Label := filter is_judge (labels tr).

(** [advance n g]: the generator [g] after [n] draws of [random()]. *)
Fixpoint advance (n : nat) (g : Rng) : Rng :=
  match n with
  | O => g
  | Datatypes.S n' => advance n' (snd (rng_random g))
  end.

(** The router with another configuration. *)
Definition with_cfg (r : Router F) (c : RouterCfg F) : Router F :=
  {| adapters := adapters r; cfg := c; rng := rng r; stats := stats r |}.

(** All pulls recorded in a statistics dict. *)
Definition total_pulls (st : Dict (ArmStat F)) : Z :=
  fold_right (fun kv acc => pulls (snd kv) + acc) 0 st.

(** The static utility [winrate - alpha * cost] of an adapter, by the
    statistics kept under its name (0.0 standing in when there are none). *)
Definition utility (r : Router F) (a : LLMAdapter F) : F :=
  match dict_get (stats r) (name (spec a)) with
  | Ok s => fsub (winrate s) (fmul (alpha_cost (cfg r)) (cost s))
  | Err _ => fzero
  end.

(** The workers a fan-out over [names] invokes: the registered ones. *)
Definition registered (ads : Dict (LLMAdapter F)) (names : list string)
  : list (string * LLMAdapter F) :=
  flat_map (fun n => match dict_get ads n with
                     | Ok a => [(n, a)]
                     | Err _ => []
                     end) names.

(** The steps of a loop taken one after the other: [R si step ls ls']
    relates the loop state before and after the step of index [si]. *)
Fixpoint chain (R : Z -> PlanStep -> LoopState F -> LoopState F -> Prop)
    (si : Z) (todo : list PlanStep) (ls ls' : LoopState F) : Prop :=
  match todo with
  | [] => ls' = ls
  | step :: rest => exists mid, R si step ls mid /\ chain R (si + 1) rest mid ls'
  end.

(** A recorded trace whose [chosen_idx] addresses one of its candidates. *)
Definition well_indexed (t : StepTrace F) : Prop :=
  candidates t <> []
  /\ - Z.of_nat (List.length (candidates t)) <= chosen_idx t
     < Z.of_nat (List.length (candidates t))
  /\ exists c, py_index (candidates t) (chosen_idx t) = Ok c /\ In c (candidates t).

(** The amounts of a list charged one after the other. *)
Definition charge_all (charges : list F) (b : Budget F) : Budget F :=
  fold_left Budget_charge charges b.

(** What one returning step does to the loop state: a first round, an
    improve round when its guard holds, the router feedback and the
    appended trace. *)
Definition step_rel (o : Orchestrator F) (task : string) (si : Z) (step : PlanStep)
    (ls ls' : LoopState F) : Prop :=
  exists tr1 st1 tr2 st2,
    first_round_post task si step ls tr1 st1
    /\ (if improve_guard step st1
        then improve_post o task step st1 tr2 st2
        else st2 = st1)
    /\ Router_update (ss_router st2) (model (ss_chosen st2))
         (if ss_verified st2 then fone else fzero) (cost_usd (ss_chosen st2))
       = (Ok tt, ls_router ls')
    /\ ls_budget ls' = ss_budget st2
    /\ ls_total_cost ls' = ss_total_cost st2
    /\ ls_total_lat ls' = ss_total_lat st2
    /\ ls_step_traces ls' = ls_step_traces ls ++ [step_trace_of si step st2].

(** The loop state [run] starts from (lines 64-70). *)
Definition initial_loop_state (o : Orchestrator F) (plan : Plan F) : LoopState F :=
  {| ls_router := orch_router o;
     ls_budget := {| usd_left := hard_budget_usd plan; deadline_s := hard_latency_s plan |};
     ls_total_cost := fzero; ls_total_lat := fzero; ls_step_traces := [] |}.

(** The indices [enumerate] hands out from [si] on. *)
Fixpoint indices_from (si : Z) (n : nat) : list Z :=
  match n with
  | O => []
  | Datatypes.S n' => si :: indices_from (si + 1) n'
  end.

(** A step whose [max_rounds] is reduced to the two values the guard of
    line 114 tells apart. *)
Definition clamp_rounds (step : PlanStep) : PlanStep :=
  {| skill := skill step; description := description step;
     k_models := k_models step; tier_hint := tier_hint step;
     max_rounds := if max_rounds step >? 0 then 1 else 0 |}.

(** [every P p]: every answered call of every run of [p], returning or
    raising, satisfies [P]. *)
Definition every {A} (P : Label -> Prop) (p : Prog F A) : Prop :=
  forall S (h : Handler F S) (s : S), Forall P (labels (fst (fst (interp h p s)))).

(** The two requests workers are sent during a run on [task]. *)
Definition original_request (task : string) : CallRequest :=
  {| system := AGENT_SYSTEM_PROMPT; user := task |}.

Definition improve_request (task previous : string) : CallRequest :=
  {| system := AGENT_IMPROVE_SYSTEM_PROMPT;
     user := AGENT_IMPROVE_USER_PROMPT task previous |}.

(** What a run on [task] may ask of its environment: workers registered
    with the orchestrator, invoked under their own key with the original
    request or an improve request; the planner, the judge and the verifier
    asked about [task]. *)
Definition about_task (o : Orchestrator F) (task : string) (l : Label) : Prop :=
  match l with
  | LInvoke key a req _ =>
      dict_get (orch_adapters o) key = Ok a
      /\ (req = original_request task
          \/ exists previous, req = improve_request task previous)
  | LCompletion _ _ => True
  | LJudge t _ _ => t = task
  | LVerify t _ _ _ => t = task
  | LPlan t _ _ _ => t = task
  | LLog _ => True
  end.

End Labels.

(** Statistics whose pull counts are not negative and whose win rates are
    frequencies. *)
Definition sane_stats (st : Dict (ArmStat Q)) : Prop :=
  Forall (fun kv => 0 <= pulls (snd kv)
                    /\ (0 <= winrate (snd kv))%Q /\ (winrate (snd kv) <= 1)%Q) st.

Arguments Label F : clear implicits.

(* ================================================================== *)
(** * Properties *)

(** ** The order on floats *)

Ltac cmp_cases :=
  repeat match goal with
  | H : context [Z.compare ?a ?b] |- _ => destruct (Z.compare_spec a b)
  | |- context [Z.compare ?a ?b] => destruct (Z.compare_spec a b)
  | H : context [Pos.compare ?a ?b] |- _ => destruct (Pos.compare_spec a b)
  | |- context [Pos.compare ?a ?b] => destruct (Pos.compare_spec a b)
  end.

Lemma SFltb_irrefl f : SFltb f f = false.
Proof.
  unfold SFltb, SFcompare.
  destruct f as [s| [|] | |[|] m e]; try reflexivity;
    change (Pos.compare_cont Eq m m) with (Pos.compare m m);
    cmp_cases; simpl; try reflexivity; lia.
Qed.

Lemma SFltb_trans f g h : SFltb f g = true -> SFltb g h = true -> SFltb f h = true.
Proof.
  unfold SFltb, SFcompare.
  destruct f as [sf| [|] | |[|] mf ef], g as [sg| [|] | |[|] mg eg],
           h as [sh| [|] | |[|] mh eh];
    try reflexivity; try discriminate; intros Hfg Hgh;
    change (Pos.compare_cont Eq ?a ?b) with (Pos.compare a b) in *;
    cmp_cases; simpl in *; subst; try reflexivity; try discriminate; lia.
Qed.

#[export] Instance binary64_order : PyFloatOrder float.
Proof.
  split; simpl; intros.
  - rewrite ltb_spec. apply SFltb_irrefl.
  - rewrite ltb_spec in *. eapply SFltb_trans; eauto.
Qed.

Lemma Qltb_true (x y : Q) : negb (Qle_bool y x) = true <-> (x < y)%Q.
Proof.
  rewrite negb_true_iff. split; intro Hxy.
  - apply Qnot_le_lt. intro Hle. apply Qle_bool_iff in Hle. congruence.
  - destruct (Qle_bool y x) eqn:E; [|reflexivity].
    apply Qle_bool_iff in E. exfalso. eapply Qlt_not_le; eauto.
Qed.

#[export] Instance exactQ_order : PyFloatOrder Q.
Proof.
  split; simpl; intros.
  - apply negb_false_iff. apply Qle_bool_iff. apply Qle_refl.
  - apply Qltb_true. apply Qltb_true in H, H0. eapply Qlt_trans; eauto.
Qed.

(* ================================================================== *)
(** ** Budget *)

(** C5: [allow(cost, latency)] answers false exactly when [cost > remaining]
    or a deadline is set and [latency > deadline], and leaves the budget as
    it was; [charge(cost)] sets [remaining] to [remaining - cost] whatever
    the values are, so that a positive [remaining] can become negative. *)
Theorem Budget_allow_charge_spec :
  (forall (F : Type) (HF : PyFloat F) (b : Budget F) (cost latency : F),
      (fst (Budget_allow b cost latency) = false <->
         (fgtb cost (usd_left b) = true \/
          exists d, deadline_s b = Some d /\ fgtb latency d = true))
      /\ snd (Budget_allow b cost latency) = b
      /\ usd_left (Budget_charge b cost) = fsub (usd_left b) cost
      /\ deadline_s (Budget_charge b cost) = deadline_s b)
  /\ (exists (b : Budget float) (cost : float),
         fltb fzero (usd_left b) = true
         /\ fst (Budget_allow b cost fzero) = false
         /\ fltb (usd_left (Budget_charge b cost)) fzero = true).
Proof.
  split.
  - intros F HF b cost latency. unfold Budget_allow, fgtb.
    repeat split; try reflexivity.
    + destruct (fltb (usd_left b) cost) eqn:Ec; [intros _; now left|].
      destruct (deadline_s b) as [d|] eqn:Ed; [|discriminate].
      destruct (fltb d latency) eqn:El; [|discriminate].
      intros _. right. exists d. split; [reflexivity|exact El].
    + intros [Hc | [d [Hd Hl]]].
      * rewrite Hc. reflexivity.
      * rewrite Hd, Hl. destruct (fltb (usd_left b) cost); reflexivity.
    + destruct (fltb (usd_left b) cost); [reflexivity|].
      destruct (deadline_s b) as [d|]; [|reflexivity].
      destruct (fltb d latency); reflexivity.
  - exists {| usd_left := 0.5%float; deadline_s := None |}, 1%float.
    repeat split.
Qed.

(* ================================================================== *)
(** ** ArmStat *)

Section ArmStatFacts.
Context {F : Type} `{PyFloat F}.

Lemma ArmStat_update_pulls (s : ArmStat F) (reward c : F) :
  pulls (snd (ArmStat_update s reward c)) = pulls s + 1
  /\ (0 <= pulls s -> fst (ArmStat_update s reward c) = Ok tt).
Proof.
  unfold ArmStat_update.
  destruct (pulls s + 1 =? 0) eqn:E; simpl; split; auto.
  apply Z.eqb_eq in E. lia.
Qed.

Lemma ArmStat_updates_pulls (obs : list (F * F)) :
  forall s : ArmStat F, 0 <= pulls s ->
    exists s', ArmStat_updates s obs = (Ok tt, s')
               /\ pulls s' = pulls s + Z.of_nat (List.length obs).
Proof.
  induction obs as [|[reward c] rest IH]; intros s Hs; simpl.
  - exists s. split; [reflexivity|lia].
  - destruct (ArmStat_update_pulls s reward c) as [Hp Hok].
    specialize (Hok Hs).
    destruct (ArmStat_update s reward c) as [res s1]. simpl in *. subst res.
    destruct (IH s1) as [s' [Hrun Hn]]; [lia|].
    exists s'. split; [exact Hrun|lia].
Qed.

End ArmStatFacts.

Lemma Qsum_snoc (l : list Q) (x : Q) : (Qsum (l ++ [x]) == Qsum l + x)%Q.
Proof.
  induction l as [|y l IH]; simpl.
  - ring.
  - rewrite IH. ring.
Qed.

Lemma incremental_mean_step (w r s : Q) (n : Z) :
  0 <= n ->
  (w * inject_Z n == s)%Q ->
  ((w + (r - w) / inject_Z (n + 1)) * inject_Z (n + 1) == s + r)%Q.
Proof.
  intros Hn Hw.
  assert (Hnz : ~ (inject_Z (n + 1) == 0)%Q).
  { intro E. change 0%Q with (inject_Z 0) in E. apply (proj1 (inject_Z_injective _ _)) in E. lia. }
  rewrite <- Hw. rewrite inject_Z_plus in *. change (inject_Z 1) with 1%Q in *.
  field. exact Hnz.
Qed.

Lemma ArmStat_update_mean_inv (s : ArmStat Q) (seen : list (Q * Q)) (reward c : Q) :
  mean_inv s seen ->
  exists s', ArmStat_update s reward c = (Ok tt, s')
             /\ mean_inv s' (seen ++ [(reward, c)]).
Proof.
  intros (Hp & Hw & Hc).
  unfold ArmStat_update.
  destruct (pulls s + 1 =? 0) eqn:E; [apply Z.eqb_eq in E; lia|].
  eexists. split; [reflexivity|].
  unfold mean_inv; simpl.
  rewrite !length_app, !map_app; simpl. rewrite !Qsum_snoc.
  repeat split.
  - lia.
  - apply incremental_mean_step; [lia|exact Hw].
  - apply incremental_mean_step; [lia|exact Hc].
Qed.

Lemma ArmStat_updates_mean_inv (obs : list (Q * Q)) :
  forall (s : ArmStat Q) (seen : list (Q * Q)),
    mean_inv s seen ->
    exists s', ArmStat_updates s obs = (Ok tt, s') /\ mean_inv s' (seen ++ obs).
Proof.
  induction obs as [|[reward c] rest IH]; intros s seen Hinv; simpl.
  - exists s. rewrite app_nil_r. split; [reflexivity|exact Hinv].
  - destruct (ArmStat_update_mean_inv reward c Hinv) as [s1 [Hup Hinv1]].
    rewrite Hup.
    destruct (IH s1 _ Hinv1) as [s' [Hrun Hinv']].
    exists s'. split; [exact Hrun|].
    rewrite <- app_assoc in Hinv'. exact Hinv'.
Qed.

(** C4 (as amended): starting from [ArmStat()], every sequence of [update]
    calls succeeds and leaves [pulls] equal to the number of calls, each call
    raising [pulls] by one, in any float arithmetic; when the arithmetic is
    exact (rationals), [winrate] and [cost] after the n-th call (n >= 1) are
    the arithmetic means of the n rewards and of the n costs. *)
Theorem ArmStat_updates_mean_exact :
  (forall (F : Type) (HF : PyFloat F) (obs : list (F * F)),
      exists s, ArmStat_updates ArmStat_new obs = (Ok tt, s)
                /\ pulls s = Z.of_nat (List.length obs))
  /\ (forall (F : Type) (HF : PyFloat F) (s : ArmStat F) (reward c : F),
         pulls (snd (ArmStat_update s reward c)) = pulls s + 1)
  /\ (forall (o : Q * Q) (rest : list (Q * Q)),
         let obs := o :: rest in
         exists s, ArmStat_updates ArmStat_new obs = (Ok tt, s)
                   /\ pulls s = Z.of_nat (List.length obs)
                   /\ (winrate s == Qmean (map fst obs))%Q
                   /\ (cost s == Qmean (map snd obs))%Q).
Proof.
  split; [|split].
  - intros F HF obs.
    destruct (ArmStat_updates_pulls obs ArmStat_new) as [s [Hrun Hp]]; [simpl; lia|].
    exists s. split; [exact Hrun|]. simpl in Hp. lia.
  - intros F HF s reward c. apply ArmStat_update_pulls.
  - intros o rest obs.
    destruct (@ArmStat_updates_mean_inv obs ArmStat_new []) as [s [Hrun (Hp & Hw & Hc)]].
    { unfold mean_inv; simpl. repeat split; ring. }
    simpl app in *.
    exists s. split; [exact Hrun|]. split; [exact Hp|].
    assert (Hnz : ~ (inject_Z (pulls s) == 0)%Q).
    { intro E. change 0%Q with (inject_Z 0) in E. apply (proj1 (inject_Z_injective _ _)) in E.
      rewrite Hp in E. subst obs. simpl List.length in E. lia. }
    unfold Qmean. rewrite !length_map, <- Hp, <- Hw, <- Hc.
    split; field; exact Hnz.
Qed.

(** C4, as stated, fails in binary64: after the rewards 1.0, 0.0, 0.0 the
    stored [winrate] is 0.33333333333333337; it is neither the exact mean
    1/3 nor the float quotient [sum/3] = 0.3333333333333333. *)
Lemma ArmStat_mean_inexact_binary64 :
  exists s : ArmStat float,
    ArmStat_updates ArmStat_new [(1, 0); (0, 0); (0, 0)]%float = (Ok tt, s)
    /\ pulls s = 3
    /\ float_to_Q (winrate s) = Some (6004799503160662 # 18014398509481984)
    /\ ~ (6004799503160662 # 18014398509481984 == Qmean [1; 0; 0])%Q
    /\ PrimFloat.eqb (winrate s) (fdiv (py_sum [1; 0; 0]%float) (of_int 3)) = false.
Proof.
  eexists. split; [vm_compute; reflexivity|].
  repeat split; try (vm_compute; reflexivity).
  vm_compute. discriminate.
Qed.

(* ================================================================== *)
(** ** Dictionaries and sorting *)

Section DictFacts.
Context {V : Type}.

Lemma dict_get_in_keys (d : Dict V) (k : string) :
  In k (dict_keys d) -> exists v, dict_get d k = Ok v.
Proof.
  induction d as [|[k' v'] d IH]; simpl; [tauto|].
  intros [E | Hin].
  - subst. rewrite String.eqb_refl. eauto.
  - destruct (String.eqb k' k); eauto.
Qed.

Lemma dict_get_ok_in (d : Dict V) (k : string) (v : V) :
  dict_get d k = Ok v -> In k (dict_keys d) /\ In v (dict_values d).
Proof.
  induction d as [|[k' v'] d IH]; simpl; [discriminate|].
  destruct (String.eqb k' k) eqn:E.
  - apply String.eqb_eq in E. intros [= ->]. auto.
  - intros Hg. destruct (IH Hg). auto.
Qed.

Lemma dict_set_keys (d : Dict V) (k : string) (v : V) :
  In k (dict_keys d) -> dict_keys (dict_set d k v) = dict_keys d.
Proof.
  induction d as [|[k' v'] d IH]; simpl; [tauto|].
  intros Hin. destruct (String.eqb k' k) eqn:E; simpl; [reflexivity|].
  f_equal. apply IH. destruct Hin as [E' | Hin]; [|exact Hin].
  subst. rewrite String.eqb_refl in E. discriminate.
Qed.

End DictFacts.

Section SortFacts.
Context {F : Type} `{PyFloat F} {A : Type}.

Lemma insert_desc_perm (x : F * A) (l : list (F * A)) :
  Permutation (insert_desc x l) (x :: l).
Proof.
  induction l as [|y l IH]; simpl; [reflexivity|].
  destruct (fltb (fst x) (fst y)); [|reflexivity].
  rewrite IH. apply perm_swap.
Qed.

Lemma sort_desc_perm (l : list (F * A)) : Permutation (sort_desc l) l.
Proof.
  induction l as [|x l IH]; simpl; [reflexivity|].
  rewrite insert_desc_perm. now constructor.
Qed.

End SortFacts.

(** Over the rationals [<] orders every list of keys, so that [sorted] is
    the stable descending sort there; the worked runs, which are over the
    rationals, compute with it. *)
#[export] Instance stable_sorted_Q : PySorted Q := {|
  py_sorted_desc := fun A => sort_desc (A:=A);
  py_sorted_desc_perm := fun A l => sort_desc_perm l;
  py_sorted_desc_stable := fun A l _ => eq_refl
|}.

(* ================================================================== *)
(** ** Router *)

Section RouterFacts.
Context {F : Type} `{PyFloat F} `{PyRandom F} {Sorting : PySorted F}.

Lemma Router_init_inv ads c seed : router_inv ads (Router_init ads c seed).
Proof.
  split; [reflexivity|]. unfold dict_keys; simpl. rewrite map_map. reflexivity.
Qed.

Lemma Router_score_frame (r : Router F) (nm : string) :
  adapters (snd (Router_score r nm)) = adapters r
  /\ cfg (snd (Router_score r nm)) = cfg r
  /\ stats (snd (Router_score r nm)) = stats r.
Proof.
  unfold Router_score.
  destruct (dict_get (stats r) nm) as [s|e]; simpl; [|auto].
  destruct (rng_random (rng r)) as [u g1].
  destruct (fltb u (epsilon (cfg r)) || (pulls s =? 0)).
  - destruct (rng_random g1) as [v g2]. simpl. auto.
  - simpl. auto.
Qed.

Lemma Router_score_ok (r : Router F) (nm : string) :
  In nm (dict_keys (stats r)) -> exists k, fst (Router_score r nm) = Ok k.
Proof.
  intros Hin. destruct (dict_get_in_keys _ _ Hin) as [s Hs].
  unfold Router_score. rewrite Hs.
  destruct (rng_random (rng r)) as [u g1].
  destruct (fltb u (epsilon (cfg r)) || (pulls s =? 0)).
  - destruct (rng_random g1) as [v g2]. simpl. eauto.
  - simpl. eauto.
Qed.

Lemma score_all_frame (cand : list (LLMAdapter F)) :
  forall r : Router F,
    adapters (snd (score_all r cand)) = adapters r
    /\ cfg (snd (score_all r cand)) = cfg r
    /\ stats (snd (score_all r cand)) = stats r.
Proof.
  induction cand as [|a rest IH]; intros r; simpl; [auto|].
  pose proof (Router_score_frame r (name (spec a))) as (Ha & Hc & Hs).
  destruct (Router_score r (name (spec a))) as [[k|e] r1]; simpl in *; [|auto].
  specialize (IH r1). destruct (score_all r1 rest) as [[ks|e] r2]; simpl in *;
    destruct IH as (Ha' & Hc' & Hs'); repeat split; congruence.
Qed.

Lemma score_all_ok (cand : list (LLMAdapter F)) :
  forall r : Router F,
    (forall a, In a cand -> In (name (spec a)) (dict_keys (stats r))) ->
    exists keyed, fst (score_all r cand) = Ok keyed /\ map snd keyed = cand.
Proof.
  induction cand as [|a rest IH]; intros r Hcov; simpl.
  - exists []. auto.
  - destruct (Router_score_ok r (name (spec a))) as [k Hk]; [apply Hcov; now left|].
    pose proof (Router_score_frame r (name (spec a))) as (_ & _ & Hs).
    destruct (Router_score r (name (spec a))) as [res r1]; simpl in *. subst res.
    destruct (IH r1) as [ks [Hks Hmap]].
    { intros b Hb. rewrite Hs. apply Hcov. now right. }
    destruct (score_all r1 rest) as [res r2]; simpl in *. subst res.
    exists ((k, a) :: ks). simpl. split; [reflexivity|]. now f_equal.
Qed.

Lemma select_kept {A} (test : A -> Result bool) (l : list A) :
  forall kept, select test l = Ok kept ->
    forall a, In a kept <-> In a l /\ test a = Ok true.
Proof.
  induction l as [|x rest IH]; simpl; intros kept Hsel a.
  - injection Hsel as <-. simpl. tauto.
  - destruct (test x) as [b|e] eqn:Ex; [|discriminate].
    destruct (select test rest) as [kept'|e] eqn:Er; [|discriminate].
    injection Hsel as <-. specialize (IH kept' eq_refl a).
    destruct b; simpl; rewrite IH; split.
    + intros [<-|[Ha Ht]]; auto.
    + intros [[<-|Ha] Ht]; auto.
    + intros [Ha Ht]; auto.
    + intros [[<-|Ha] Ht]; [congruence|auto].
Qed.

Lemma select_total {A} (test : A -> Result bool) (l : list A) :
  (forall a, In a l -> exists b, test a = Ok b) -> exists kept, select test l = Ok kept.
Proof.
  induction l as [|x rest IH]; simpl; intros Hall; [eauto|].
  destruct (Hall x (or_introl eq_refl)) as [b ->].
  destruct IH as [kept ->]; [intros a Ha; apply Hall; now right|]. eauto.
Qed.

Lemma select_raises {A} (test : A -> Result bool) (l : list A) (e : Exc) :
  select test l = Err e -> exists a, In a l /\ test a = Err e.
Proof.
  induction l as [|x rest IH]; simpl; [discriminate|].
  destruct (test x) as [b|e'] eqn:Ex.
  - destruct (select test rest) as [kept|e'] eqn:Er; [discriminate|].
    intros [= ->]. destruct (IH eq_refl) as (a & Ha & Ht). eauto.
  - intros [= ->]. eauto.
Qed.

(** The only exception of the filter: [TypeError], from an adapter without
    declared skills that the tier test lets through to a non-empty skill. *)
Lemma eligible_raises sk th (a : LLMAdapter F) (e : Exc) :
  eligible sk th a = Err e ->
  e = TypeError /\ tier_ok th a = true /\ sk <> "" /\ skills (spec a) = None.
Proof.
  unfold eligible, skill_ok. destruct (tier_ok th a); [|discriminate].
  destruct (String.eqb sk "") eqn:Esk; [discriminate|].
  destruct (skills (spec a)); [discriminate|]. intros [= <-].
  repeat split; auto. intros ->. discriminate.
Qed.

Lemma eligible_declared sk th (a : LLMAdapter F) :
  skills (spec a) <> None -> exists b, eligible sk th a = Ok b.
Proof.
  intros Hdecl. unfold eligible, skill_ok. destruct (tier_ok th a); [|eauto].
  destruct (String.eqb sk ""); [eauto|].
  destruct (skills (spec a)); [eauto|congruence].
Qed.

Lemma pool_incl (ads : Dict (LLMAdapter F)) sk th cand a :
  pool ads sk th = Ok cand -> In a cand -> In a (dict_values ads).
Proof.
  unfold pool. destruct (select (eligible sk th) (dict_values ads)) as [kept|e] eqn:E;
    [|discriminate].
  destruct kept as [|b l]; intros [= <-]; [auto|].
  intros Hin. apply (select_kept _ _ E) in Hin. tauto.
Qed.

Lemma pool_nonempty (ads : Dict (LLMAdapter F)) sk th cand :
  ads <> [] -> pool ads sk th = Ok cand -> cand <> [].
Proof.
  unfold pool. intros Hne.
  destruct (select (eligible sk th) (dict_values ads)) as [kept|e]; [|discriminate].
  destruct kept; intros [= <-]; [|discriminate].
  destruct ads; [congruence|discriminate].
Qed.

Lemma pool_eligible (ads : Dict (LLMAdapter F)) sk th cand :
  pool ads sk th = Ok cand ->
  (exists a, In a (dict_values ads) /\ eligible sk th a = Ok true) ->
  forall a, In a cand -> eligible sk th a = Ok true.
Proof.
  unfold pool. intros Hpool [b [Hb Hel]] a.
  destruct (select (eligible sk th) (dict_values ads)) as [kept|e] eqn:E; [|discriminate].
  assert (Hin : In b kept) by (apply (select_kept _ _ E); auto).
  destruct kept as [|c l]; [destruct Hin|]. injection Hpool as <-.
  intros Ha. apply (select_kept _ _ E) in Ha. tauto.
Qed.

Lemma pool_fallback (ads : Dict (LLMAdapter F)) sk th :
  (forall a, In a (dict_values ads) -> eligible sk th a = Ok false) ->
  select (eligible sk th) (dict_values ads) = Ok []
  /\ pool ads sk th = Ok (dict_values ads).
Proof.
  intros Hnone. unfold pool.
  destruct (select_total (eligible sk th) (dict_values ads)) as [kept Hsel];
    [intros a Ha; rewrite (Hnone a Ha); eauto|].
  rewrite Hsel. destruct kept as [|c l]; [auto|].
  assert (Hin : In c (c :: l)) by now left.
  apply (select_kept _ _ Hsel) in Hin. destruct Hin as [Hin Hel].
  rewrite (Hnone c Hin) in Hel. discriminate.
Qed.

(** Adapters that declare their skills make the filter total. *)
Lemma pool_declared (ads : Dict (LLMAdapter F)) sk th :
  declared_skills ads -> exists cand, pool ads sk th = Ok cand.
Proof.
  intros Hdecl. unfold pool.
  destruct (select_total (eligible sk th) (dict_values ads)) as [kept ->].
  - intros a Ha. apply eligible_declared.
    unfold declared_skills in Hdecl. rewrite Forall_forall in Hdecl.
    unfold dict_values in Ha. apply in_map_iff in Ha. destruct Ha as [kv [<- Hkv]].
    now apply Hdecl.
  - destruct kept; eauto.
Qed.

Lemma pool_raises (ads : Dict (LLMAdapter F)) sk th (e : Exc) :
  pool ads sk th = Err e ->
  e = TypeError
  /\ exists a, In a (dict_values ads) /\ tier_ok th a = true /\ sk <> ""
               /\ skills (spec a) = None.
Proof.
  unfold pool. destruct (select (eligible sk th) (dict_values ads)) as [kept|e'] eqn:E.
  - destruct kept; discriminate.
  - intros [= ->]. destruct (select_raises _ _ E) as (a & Ha & Ht).
    destruct (eligible_raises _ _ _ Ht) as (-> & Htier & Hsk & Hnone). eauto 10.
Qed.

Lemma keyed_by_name_cover ads (r : Router F) :
  keyed_by_name ads -> router_inv ads r ->
  forall a, In a (dict_values ads) -> In (name (spec a)) (dict_keys (stats r)).
Proof.
  intros Hk [_ Hkeys] a Hin. rewrite Hkeys.
  unfold dict_values in Hin. apply in_map_iff in Hin. destruct Hin as [[k b] [E Hin]].
  simpl in E. subst b.
  unfold keyed_by_name in Hk. rewrite Forall_forall in Hk. specialize (Hk _ Hin).
  simpl in Hk. subst k. unfold dict_keys. apply in_map_iff. exists (name (spec a), a). auto.
Qed.

(** [pick_k] on a well-formed router whose filter does not raise: it
    returns, and what it returns is a prefix of a permutation of the pool. *)
Lemma Router_pick_k_shape ads (r : Router F) sk k th cand :
  keyed_by_name ads -> router_inv ads r -> pool ads sk th = Ok cand ->
  exists scored r',
    Router_pick_k r sk k th
      = (Ok (map (fun a => name (spec a)) (py_take (Z.max 1 k) scored)), r')
    /\ Permutation scored cand
    /\ router_inv ads r' /\ cfg r' = cfg r /\ stats r' = stats r.
Proof.
  intros Hk Hinv Hpool. pose proof Hinv as [Hads Hkeys].
  unfold Router_pick_k. rewrite Hads, Hpool.
  destruct (score_all_ok cand r) as [keyed [Hok Hmap]].
  { intros a Hin. eapply keyed_by_name_cover; eauto. eapply pool_incl; eauto. }
  pose proof (score_all_frame cand r) as (Ha & Hc & Hs).
  destruct (score_all r cand) as [res r']; simpl in *. subst res.
  exists (map snd (py_sorted_desc keyed)), r'. split; [reflexivity|].
  split.
  - rewrite <- Hmap. apply Permutation_map. apply py_sorted_desc_perm.
  - repeat split; congruence.
Qed.

Lemma Router_update_inv ads (r : Router F) nm reward c :
  router_inv ads r -> router_inv ads (snd (Router_update r nm reward c)).
Proof.
  intros [Hads Hkeys]. unfold Router_update.
  destruct (dict_get (stats r) nm) as [s|e] eqn:Eg; simpl; [|now split].
  destruct (ArmStat_update s reward c) as [res s']; simpl.
  split; [exact Hads|].
  change (dict_keys (dict_set (stats r) nm s') = dict_keys ads).
  rewrite dict_set_keys; [exact Hkeys|]. apply (dict_get_ok_in _ _ Eg).
Qed.

Lemma Router_pick_k_frame (r : Router F) sk k th :
  adapters (snd (Router_pick_k r sk k th)) = adapters r
  /\ cfg (snd (Router_pick_k r sk k th)) = cfg r
  /\ stats (snd (Router_pick_k r sk k th)) = stats r.
Proof.
  unfold Router_pick_k. destruct (pool (adapters r) sk th) as [cand|e]; [|simpl; auto].
  pose proof (score_all_frame cand r) as Hf.
  destruct (score_all r cand) as [[keyed|e] r']; simpl in *; exact Hf.
Qed.

Lemma Router_calls_inv ads (cs : list (RouterCall F)) :
  forall r : Router F, router_inv ads r -> router_inv ads (snd (Router_calls r cs)).
Proof.
  induction cs as [|c cs IH]; intros r Hinv; simpl; [exact Hinv|].
  assert (Hinv1 : router_inv ads (snd (Router_call r c))).
  { destruct c as [sk k th | nm reward c]; simpl.
    - pose proof (Router_pick_k_frame r sk k th) as (Ha & _ & Hs).
      destruct (Router_pick_k r sk k th) as [[names|e] r']; simpl in *;
        destruct Hinv; split; congruence.
    - pose proof (Router_update_inv nm reward c Hinv) as Hu.
      destruct (Router_update r nm reward c) as [[u|e] r']; simpl in *; exact Hu. }
  destruct (Router_call r c) as [a r1]. simpl in Hinv1.
  specialize (IH r1 Hinv1). destruct (Router_calls r1 cs) as [ans r2]. exact IH.
Qed.

End RouterFacts.

Section RouterClaims.
Context {F : Type} `{PyFloat F} `{PyRandom F} {Sorting : PySorted F}.

Lemma py_take_length {A} (n : Z) (l : list A) :
  l <> [] ->
  1 <= Z.of_nat (List.length (py_take (Z.max 1 n) l)) <= Z.max 1 n
  /\ Z.of_nat (List.length (py_take (Z.max 1 n) l))
     = Z.min (Z.of_nat (List.length l)) (Z.max 1 n).
Proof.
  intros Hne. unfold py_take. rewrite length_firstn.
  destruct l as [|x l]; [congruence|]. simpl List.length. lia.
Qed.

(** [pick_k] on any router reachable from [Router_init], when its filter
    does not raise: it returns the names of a non-empty prefix of a
    reordering of the pool. *)
Lemma Router_pick_k_reachable
    (ads : Dict (LLMAdapter F)) (c : RouterCfg F) (seed : Z)
    (history : list (RouterCall F)) (sk : string) (k : Z) (th : option Z)
    (cand : list (LLMAdapter F)) :
  ads <> [] ->
  keyed_by_name ads ->
  pool ads sk th = Ok cand ->
  let r := snd (Router_calls (Router_init ads c seed) history) in
  exists scored r',
    Router_pick_k r sk k th
      = (Ok (map (fun a => name (spec a)) (py_take (Z.max 1 k) scored)), r')
    /\ Permutation scored cand
    /\ scored <> []
    /\ forall n, In n (map (fun a => name (spec a)) (py_take (Z.max 1 k) scored)) ->
         exists a, In a cand /\ name (spec a) = n.
Proof.
  intros Hne Hkeyed Hpool r.
  assert (Hinv : router_inv ads r)
    by (apply Router_calls_inv, Router_init_inv).
  destruct (Router_pick_k_shape sk k th Hkeyed Hinv Hpool)
    as (scored & r' & Hpick & Hperm & _).
  exists scored, r'. split; [exact Hpick|]. split; [exact Hperm|]. split.
  - intro E. subst scored. apply Permutation_nil in Hperm.
    exact (pool_nonempty sk th Hne Hpool Hperm).
  - intros n Hin. apply in_map_iff in Hin. destruct Hin as [a [E Hin]].
    exists a. split; [|exact E].
    eapply Permutation_in; [exact Hperm|]. unfold py_take in Hin.
    rewrite <- (firstn_skipn (Z.to_nat (Z.max 1 k)) scored).
    apply in_or_app. now left.
Qed.

(** C6, as amended: on a router built over a non-empty adapter dict whose
    adapters are registered under their own names and declare their
    skills, whatever calls were made on it before, [pick_k] returns; it
    returns between 1 and [max(1, k)] names of adapters of the dict, in
    fact the first [max(1, k)] of a reordering of the pool; when some
    adapter passes both filters every returned name is that of an adapter
    passing both, and when none does the pool is the whole adapter set. *)
Theorem Router_pick_k_spec
    (ads : Dict (LLMAdapter F)) (c : RouterCfg F) (seed : Z)
    (history : list (RouterCall F)) (sk : string) (k : Z) (th : option Z) :
  ads <> [] ->
  keyed_by_name ads ->
  declared_skills ads ->
  let r := snd (Router_calls (Router_init ads c seed) history) in
  exists names scored cand r',
    pool ads sk th = Ok cand
    /\ Router_pick_k r sk k th = (Ok names, r')
    /\ names = map (fun a => name (spec a)) (py_take (Z.max 1 k) scored)
    /\ Permutation scored cand
    /\ 1 <= Z.of_nat (List.length names) <= Z.max 1 k
    /\ (forall n, In n names ->
          exists a, In a (dict_values ads) /\ name (spec a) = n)
    /\ ((exists a, In a (dict_values ads) /\ eligible sk th a = Ok true) ->
        forall n, In n names ->
          exists a, In a (dict_values ads) /\ name (spec a) = n
                    /\ tier_ok th a = true /\ skill_ok sk a = Ok true)
    /\ ((forall a, In a (dict_values ads) -> eligible sk th a = Ok false) ->
        cand = dict_values ads
        /\ Z.of_nat (List.length names)
           = Z.min (Z.of_nat (List.length ads)) (Z.max 1 k)).
Proof.
  intros Hne Hkeyed Hdecl r.
  destruct (pool_declared sk th Hdecl) as [cand Hpool].
  destruct (Router_pick_k_reachable c seed history sk k th Hne Hkeyed Hpool)
    as (scored & r' & Hpick & Hperm & Hsne & Hsub).
  exists (map (fun a => name (spec a)) (py_take (Z.max 1 k) scored)), scored, cand, r'.
  destruct (py_take_length k Hsne) as [Hlen Hlen'].
  split; [exact Hpool|].
  split; [exact Hpick|]. split; [reflexivity|]. split; [exact Hperm|].
  split; [rewrite length_map; lia|].
  split; [|split].
  - intros n Hin. destruct (Hsub n Hin) as [a [Ha E]].
    exists a. split; [eapply pool_incl; eauto | exact E].
  - intros Hsome n Hin. destruct (Hsub n Hin) as [a [Ha E]].
    assert (Hel : eligible sk th a = Ok true) by (eapply pool_eligible; eauto).
    exists a. split; [eapply pool_incl; eauto|]. split; [exact E|].
    unfold eligible in Hel. destruct (tier_ok th a); [auto|discriminate].
  - intros Hnone. pose proof (pool_fallback _ _ _ Hnone) as [_ Hall].
    assert (Hcand : cand = dict_values ads) by congruence.
    split; [exact Hcand|].
    rewrite length_map, Hlen'.
    rewrite (Permutation_length Hperm), Hcand.
    unfold dict_values. rewrite length_map. reflexivity.
Qed.

End RouterClaims.

Section EscalationRouting.
Context {F : Type} `{PyFloat F} `{PyRandom F} {Sorting : PySorted F}.


End EscalationRouting.

(* ================================================================== *)
(** ** Programs *)

Section ProgFacts.
Context {F : Type} {S : Type} (h : Handler F S).

Lemma interp_bind {A B} (p : Prog F A) (f : A -> Prog F B) (s : S) :
  interp h (bind p f) s =
  let '(tr1, r1, s1) := interp h p s in
  match r1 with
  | Ok a => let '(tr2, r2, s2) := interp h (f a) s1 in (tr1 ++ tr2, r2, s2)
  | Err e => (tr1, Err e, s1)
  end.
Proof.
  revert s. induction p as [a|e|X c k IH]; intros s; simpl.
  - destruct (interp h (f a) s) as [[tr2 r2] s2]. reflexivity.
  - reflexivity.
  - destruct (@h _ c s) as [x s']. rewrite IH.
    destruct (interp h (k x) s') as [[tr1 r1] s1].
    destruct r1 as [a|e]; [|reflexivity].
    destruct (interp h (f a) s1) as [[tr2 r2] s2]. reflexivity.
Qed.

Lemma interp_lift {A} (r : Result A) (s : S) : interp h (lift r) s = ([], r, s).
Proof. destruct r; reflexivity. Qed.

Lemma interp_log (m : LogMsg F) (s : S) :
  interp h (log m) s = ([Ev (Log m) (fst (@h _ (Log m) s))], Ok (fst (@h _ (Log m) s)),
                        snd (@h _ (Log m) s)).
Proof. unfold log. simpl. destruct (@h _ (Log m) s). reflexivity. Qed.

Lemma interp_await {A} (c : Call F (Result A)) (s : S) :
  interp h (await c) s = ([Ev c (fst (@h _ c s))], fst (@h _ c s), snd (@h _ c s)).
Proof.
  unfold await. simpl. destruct (@h _ c s) as [x s']. rewrite interp_lift. reflexivity.
Qed.

End ProgFacts.

Section TraceFacts.
Context {F : Type}.

Lemma failures_app (t1 t2 : list (Event F)) :
  failures (t1 ++ t2) = failures t1 ++ failures t2.
Proof. unfold failures. apply flat_map_app. Qed.

Lemma logged_app (t1 t2 : list (Event F)) : logged (t1 ++ t2) = logged t1 ++ logged t2.
Proof. unfold logged. apply flat_map_app. Qed.

Lemma completions_app (t1 t2 : list (Event F)) :
  completions (t1 ++ t2) = completions t1 ++ completions t2.
Proof. unfold completions. apply flat_map_app. Qed.

Lemma attempts_app (t1 t2 : list (Event F)) :
  attempts (t1 ++ t2) = (attempts t1 + attempts t2)%nat.
Proof. unfold attempts. rewrite logged_app, filter_app, length_app. reflexivity. Qed.

Lemma fanouts_app (t1 t2 : list (Event F)) :
  fanouts (t1 ++ t2) = (fanouts t1 + fanouts t2)%nat.
Proof. unfold fanouts. rewrite filter_app, length_app. reflexivity. Qed.

End TraceFacts.

(* ================================================================== *)
(** ** Fan-out *)

Section DebateFacts.
Context {F : Type} `{PyFloat F} {S : Type} (h : Handler F S).

Lemma sequence_ok_length {A} (l : list (Result A)) (vs : list A) :
  sequence l = Ok vs -> l = map Ok vs.
Proof.
  revert vs. induction l as [|r l IH]; intros vs; simpl.
  - intros [= <-]. reflexivity.
  - destruct r as [a|e]; [|discriminate].
    destruct (sequence l) as [l'|e]; [|discriminate].
    intros [= <-]. simpl. f_equal. now apply IH.
Qed.

Lemma sequence_err_in {A} (l : list (Result A)) (e : Exc) :
  sequence l = Err e -> In (Err e) l.
Proof.
  induction l as [|r l IH]; simpl; [discriminate|].
  destruct r as [a|e']; [|intros [= ->]; now left].
  destruct (sequence l) as [l'|e']; [discriminate|].
  intros [= ->]. right. now apply IH.
Qed.

Lemma first_raised_in {A} (order : list nat) (outs : list (Result A)) (e : Exc) :
  first_raised order outs = Some e -> In (Err e) outs.
Proof.
  induction order as [|i order IH]; simpl; [discriminate|].
  destruct (nth_error outs i) as [[a|e']|] eqn:E; auto.
  intros [= ->]. eapply nth_error_In; eauto.
Qed.

(** [gather] hands back results only when every task returned, and then
    in argument order, whatever the completion order. *)
Lemma gather_ok {A} (order : list nat) (outs : list (Result A)) (vs : list A) :
  gather order outs = Ok vs <-> outs = map Ok vs.
Proof.
  unfold gather. split.
  - destruct (first_raised order outs); [discriminate|]. apply sequence_ok_length.
  - intros ->. destruct (first_raised order (map Ok vs)) as [e|] eqn:E.
    + apply first_raised_in in E. apply in_map_iff in E.
      destruct E as [v [E _]]. discriminate.
    + clear E. induction vs as [|v vs IH]; simpl; [reflexivity|]. now rewrite IH.
Qed.

(** [gather] raises the exception of one of the failed tasks. *)
Lemma gather_err {A} (order : list nat) (outs : list (Result A)) (e : Exc) :
  gather order outs = Err e -> In (Err e) outs.
Proof.
  unfold gather. destruct (first_raised order outs) as [e'|] eqn:E.
  - intros [= <-]. eapply first_raised_in; eauto.
  - apply sequence_err_in.
Qed.

Lemma run_tasks_fanned (ads : Dict (LLMAdapter F)) (req : CallRequest)
    (names : list string) :
  forall s : S,
    exists tr outs s',
      interp h (run_tasks (map (Debate_one ads req) names)) s = (tr, Ok outs, s')
      /\ fanned ads names outs (completions tr)
      /\ logged tr = [] /\ fanouts tr = 0%nat
      /\ failures tr = flat_map (fun kr => match snd kr with
                                           | Err e => [e]
                                           | Ok _ => []
                                           end) (completions tr).
Proof.
  induction names as [|n names IH]; intros s; simpl.
  - exists [], [], s. repeat split. constructor.
  - rewrite interp_bind. unfold Debate_one at 1.
    destruct (dict_get ads n) as [a|e] eqn:Eg; simpl.
    + destruct (h (Acomplete n a req) s) as [r s1].
      rewrite interp_bind.
      destruct (IH s1) as (tr & outs & s' & Hrun & Hf & Hl & Hg & Hfail).
      rewrite Hrun. simpl. rewrite ?app_nil_r.
      eexists _, _, s'. split; [reflexivity|].
      split; [|split; [|split]].
      * simpl. eapply fanned_call; eauto.
      * simpl. exact Hl.
      * simpl. exact Hg.
      * unfold failures in *. simpl. rewrite Hfail. reflexivity.
    + rewrite interp_bind.
      destruct (IH s) as (tr & outs & s' & Hrun & Hf & Hl & Hg & Hfail).
      rewrite Hrun. simpl. rewrite ?app_nil_r.
      eexists _, _, s'. split; [reflexivity|].
      split; [|split; [|split]]; auto.
      eapply fanned_missing; eauto.
Qed.

Lemma fanned_all_ok (ads : Dict (LLMAdapter F)) names outs cm (cs : list (Candidate F)) :
  fanned ads names outs cm ->
  outs = map Ok cs ->
  exists ress,
    List.length ress = List.length names
    /\ cm = combine names (map Ok ress)
    /\ cs = map (fun nr => candidate_of (fst nr) (snd nr)) (combine names ress)
    /\ Forall (fun n => In n (dict_keys ads)) names.
Proof.
  intros Hf. revert cs. induction Hf as [|n ns outs cm e Hg Hf IH|n ns outs cm a r Hg Hf IH];
    intros cs Hcs.
  - destruct cs; [|discriminate]. exists []. repeat split. constructor.
  - destruct cs; discriminate.
  - destruct cs as [|c cs]; [discriminate|]. simpl in Hcs.
    injection Hcs as Hc Hrest.
    destruct r as [res|e]; [|discriminate]. injection Hc as <-.
    destruct (IH cs Hrest) as (ress & Hlen & Hcm & Hcs' & Hall).
    exists (res :: ress). simpl. repeat split; try congruence.
    constructor; [|exact Hall]. apply (dict_get_ok_in _ _ Hg).
Qed.

End DebateFacts.

Section DebateRun.
Context {F : Type} `{PyFloat F} {S : Type} (h : Handler F S).

(** One run of [Debate.run]: the invocations in argument order, then the
    completion order asked of the event loop, then [gather]. *)
Lemma Debate_run_interp (ads : Dict (LLMAdapter F)) (names : list string)
    (req : CallRequest) (s : S) :
  exists tr0 outs order s',
    interp h (Debate_run ads names req) s
      = (tr0 ++ [Ev (Completion (List.length names)) order], gather order outs, s')
    /\ fanned ads names outs (completions tr0)
    /\ logged tr0 = [] /\ fanouts tr0 = 0%nat
    /\ failures tr0 = completion_failures (completions tr0).
Proof.
  unfold Debate_run. rewrite interp_bind.
  destruct (run_tasks_fanned h ads req names s)
    as (tr0 & outs & s1 & Hrun & Hf & Hl & Hg & Hfail).
  rewrite Hrun. rewrite interp_bind. simpl.
  destruct (h (Completion (List.length names)) s1) as [order s2].
  rewrite interp_lift.
  exists tr0, outs, order, s2. simpl. repeat split; auto.
Qed.

Lemma fanned_props (ads : Dict (LLMAdapter F)) names outs cm :
  fanned ads names outs cm ->
  List.length outs = List.length names
  /\ (forall e, In (Err e) outs ->
        In e (completion_failures cm)
        \/ exists k, e = KeyError k /\ In k names /\ ~ In k (dict_keys ads))
  /\ (completion_failures cm = [] -> Forall (fun n => In n (dict_keys ads)) names ->
      exists cs, outs = map Ok cs)
  /\ (forall e, In e (completion_failures cm) -> In (Err e) outs).
Proof.
  induction 1 as [|n ns outs cm e Hg Hf IH|n ns outs cm a r Hg Hf IH].
  - repeat split; simpl; try tauto. intros _ _. exists []. reflexivity.
  - destruct IH as (Hlen & Herr & Hok & Hfl).
    split; [simpl; congruence|]. split; [|split].
    + intros e' [E | Hin].
      * injection E as <-. right.
        assert (Hk : e = KeyError n /\ ~ In n (dict_keys ads)).
        { clear -Hg. induction ads as [|[k v] d IHd]; simpl in *.
          - injection Hg as <-. tauto.
          - destruct (String.eqb k n) eqn:E; [discriminate|].
            destruct (IHd Hg) as [-> Hn]. split; [reflexivity|].
            intros [-> | Hin]; [rewrite String.eqb_refl in E; discriminate | tauto]. }
        destruct Hk as [-> Hn]. exists n. simpl. auto.
      * destruct (Herr e' Hin) as [Hc | (k & -> & Hk & Hn)]; [now left|].
        right. exists k. simpl. auto.
    + intros _ Hall. inversion Hall as [|? ? Hn _]; subst.
      destruct (dict_get_in_keys _ _ Hn) as [v Hv]. congruence.
    + intros e' Hin. right. auto.
  - destruct IH as (Hlen & Herr & Hok & Hfl).
    split; [simpl; congruence|]. split; [|split].
    + intros e' [E | Hin].
      * destruct r as [res|e]; [discriminate|]. injection E as <-.
        left. simpl. now left.
      * destruct (Herr e' Hin) as [Hc | (k & -> & Hk & Hn)].
        -- left. unfold completion_failures. simpl. apply in_or_app. now right.
        -- right. exists k. simpl. auto.
    + unfold completion_failures. simpl. intros Hnone Hall.
      apply app_eq_nil in Hnone. destruct Hnone as [Hr Hnone].
      destruct r as [res|e]; [|discriminate].
      inversion Hall; subst.
      destruct (Hok Hnone) as [cs ->]; [assumption|].
      exists (candidate_of n res :: cs). reflexivity.
    + unfold completion_failures. simpl. intros e' Hin.
      apply in_app_or in Hin. destruct Hin as [Hin | Hin].
      * destruct r as [res|e]; [destruct Hin|].
        destruct Hin as [<- | []]. now left.
      * right. auto.
Qed.

End DebateRun.

Section DebateClaims.
Context {F : Type} `{PyFloat F}.

Lemma map_model_candidates (names : list string) :
  forall ress : list (CallResult F),
    List.length ress = List.length names ->
    map model (map (fun nr => candidate_of (fst nr) (snd nr)) (combine names ress)) = names.
Proof.
  induction names as [|n names IH]; intros [|r ress]; simpl; try discriminate; auto.
  intros [= Hlen]. f_equal. now apply IH.
Qed.

Lemma forallb_registered (ads : Dict (LLMAdapter F)) (names : list string) :
  forallb (fun n => is_ok (dict_get ads n)) names = true
  <-> Forall (fun n => In n (dict_keys ads)) names.
Proof.
  rewrite forallb_forall, Forall_forall. split; intros Hall n Hin.
  - specialize (Hall n Hin). destruct (dict_get ads n) as [a|e] eqn:E; [|discriminate].
    apply (dict_get_ok_in _ _ E).
  - destruct (dict_get_in_keys _ _ (Hall n Hin)) as [a ->]. reflexivity.
Qed.

(** What one fan-out does, against any environment. *)
Lemma Debate_run_facts {S} (h : Handler F S) (s : S)
    (ads : Dict (LLMAdapter F)) (names : list string) (req : CallRequest) :
  let '(tr, res, _) := interp h (Debate_run ads names req) s in
  (exists tr0 order, tr = tr0 ++ [Ev (Completion (List.length names)) order])
  /\ fanouts tr = 1%nat
  /\ logged tr = []
  /\ failures tr = completion_failures (completions tr)
  /\ is_ok res
     = forallb (fun n => is_ok (dict_get ads n)) names
       && match failures tr with [] => true | _ => false end
  /\ match res with
     | Ok cs =>
         List.length cs = List.length names
         /\ map model cs = names
         /\ exists ress,
              List.length ress = List.length names
              /\ completions tr = combine names (map Ok ress)
              /\ cs = map (fun nr => candidate_of (fst nr) (snd nr)) (combine names ress)
     | Err e =>
         In e (failures tr)
         \/ exists k, e = KeyError k /\ In k names /\ ~ In k (dict_keys ads)
     end.
Proof.
  destruct (Debate_run_interp h ads names req s)
    as (tr0 & outs & order & s' & Hrun & Hf & Hl & Hg & Hfail).
  rewrite Hrun.
  assert (Hcm : completions (tr0 ++ [Ev (Completion (List.length names)) order])
                = completions tr0)
    by (rewrite completions_app; simpl; apply app_nil_r).
  assert (Hfl : failures (tr0 ++ [Ev (Completion (List.length names)) order])
                = completion_failures (completions tr0))
    by (rewrite failures_app, Hfail; simpl; apply app_nil_r).
  rewrite Hcm, Hfl.
  destruct (fanned_props Hf) as (Hlen & Herr & Hok & Hfl').
  split; [eauto|]. split; [rewrite fanouts_app, Hg; reflexivity|].
  split; [rewrite logged_app, Hl; reflexivity|]. split; [reflexivity|].
  destruct (gather order outs) as [cs|e] eqn:Eg.
  - apply gather_ok in Eg.
    destruct (fanned_all_ok cs Hf Eg) as (ress & Hlr & Hcmr & Hcs & Hall).
    assert (Hnone : completion_failures (completions tr0) = []).
    { rewrite Hcmr. clear. revert ress. induction names as [|n ns IH]; intros [|r rs];
        simpl; auto. }
    split.
    + rewrite Hnone. apply forallb_registered in Hall. rewrite Hall. reflexivity.
    + split; [subst outs; rewrite length_map in Hlen; exact Hlen|].
      split; [rewrite Hcs; now apply map_model_candidates|].
      exists ress. auto.
  - split.
    + simpl. symmetry. apply andb_false_iff.
      destruct (forallb (fun n => is_ok (dict_get ads n)) names) eqn:Ereg; [|now left].
      right. destruct (completion_failures (completions tr0)) eqn:Ec; [|reflexivity].
      apply forallb_registered in Ereg.
      destruct (Hok eq_refl Ereg) as [cs Hcs].
      apply (gather_ok order) in Hcs. congruence.
    + apply Herr. eapply gather_err; eauto.
Qed.

(** C7: [Debate.run] on [names] issues one fan-out; when it returns, it
    returns as many candidates as there are names, the i-th built from the
    completion of the i-th name's invocation (and carrying that name as
    its [model]), whatever completion order the event loop reports; it
    returns exactly when every name is registered and no invocation
    raised. *)
Theorem Debate_run_preserves_order {S} (h : Handler F S) (s : S)
    (ads : Dict (LLMAdapter F)) (names : list string) (req : CallRequest) :
  let '(tr, res, _) := interp h (Debate_run ads names req) s in
  (exists tr0 order, tr = tr0 ++ [Ev (Completion (List.length names)) order])
  /\ fanouts tr = 1%nat
  /\ is_ok res
     = forallb (fun n => is_ok (dict_get ads n)) names
       && match failures tr with [] => true | _ => false end
  /\ match res with
     | Ok cs =>
         List.length cs = List.length names
         /\ map model cs = names
         /\ exists ress,
              List.length ress = List.length names
              /\ completions tr = combine names (map Ok ress)
              /\ cs = map (fun nr => candidate_of (fst nr) (snd nr)) (combine names ress)
     | Err _ => True
     end.
Proof.
  pose proof (Debate_run_facts h s ads names req) as Hfacts.
  destruct (interp h (Debate_run ads names req) s) as [[tr res] s'].
  destruct Hfacts as (Htr & Hfan & _ & _ & Hok & Hres).
  repeat split; auto. destruct res; auto.
Qed.

End DebateClaims.

(* ================================================================== *)
(** ** ADMIT *)

Section BestOf.
Context {A : Type} (better : A -> A -> bool).
Hypothesis better_irrefl : forall x, better x x = false.
Hypothesis better_trans :
  forall x y z, better x y = true -> better y z = true -> better x z = true.
Local Abbreviation scan := (scan better).

Lemma scan_best (rest : list A) :
  forall (m : A) (seen : list A),
    In m seen ->
    (forall y, In y seen -> better y m = false) ->
    In (scan rest m) (seen ++ rest)
    /\ forall y, In y (seen ++ rest) -> better y (scan rest m) = false.
Proof.
  induction rest as [|x rest IH]; intros m seen Hin Hbest; simpl.
  - rewrite app_nil_r. auto.
  - replace (seen ++ x :: rest) with ((seen ++ [x]) ++ rest)
      by (rewrite <- app_assoc; reflexivity).
    apply IH.
    + destruct (better x m); apply in_or_app; [right; now left | now left].
    + intros y Hy. apply in_app_or in Hy.
      destruct (better x m) eqn:E.
      * destruct Hy as [Hy | [<- | []]]; [|apply better_irrefl].
        destruct (better y x) eqn:Eyx; [|reflexivity].
        rewrite <- (Hbest y Hy). symmetry. eapply better_trans; eauto.
      * destruct Hy as [Hy | [<- | []]]; auto.
Qed.

End BestOf.

Section AdmitClaims.
Context {F : Type} `{PyFloatOrder F} `{PyRandom F} {Sorting : PySorted F}.

Lemma py_min_key_spec {A} (key : A -> F) (x : A) (rest : list A) :
  exists m, py_min_key key (x :: rest) = Ok m
            /\ In m (x :: rest)
            /\ forall y, In y (x :: rest) -> fltb (key y) (key m) = false.
Proof.
  eexists. split; [reflexivity|].
  apply (@scan_best A (fun y m => fltb (key y) (key m))) with (seen := [x]).
  - intros. apply fltb_irrefl.
  - intros a b c. apply fltb_trans.
  - now left.
  - intros y [<- | []]. apply fltb_irrefl.
Qed.

Lemma py_max_default_spec (x : F) (rest : list F) (d : F) :
  In (py_max_default (x :: rest) d) (x :: rest)
  /\ forall y, In y (x :: rest) -> fgtb y (py_max_default (x :: rest) d) = false.
Proof.
  apply (@scan_best F (fun y m => fgtb y m)) with (seen := [x]).
  - intros. apply fltb_irrefl.
  - unfold fgtb. intros a b c Hab Hbc. eapply fltb_trans; eauto.
  - now left.
  - intros y [<- | []]. apply fltb_irrefl.
Qed.

(** C2: in ADMIT the step cost is [sum] of the candidates' costs and the
    step latency the greatest of their latencies (0.0 without
    candidates).  When [Budget.allow] accepts them, all candidates
    proceed; when it refuses, only one candidate proceeds, none of the
    others being cheaper, and cost and latency are that candidate's.
    Either way the running totals grow by, and the budget is charged
    with, the step cost so obtained.  (Refusal with no candidate at all
    raises ValueError.) *)
Theorem admission_spec {S} (h : Handler F S) (s : S) (si : Z) (ls : LoopState F)
    (cand : list (Candidate F)) :
  let step_cost := py_sum (map cost_usd cand) in
  let step_lat := py_max_default (map latency_s cand) fzero in
  let '(tr, res, _) := interp h (admission si ls cand) s in
  match map latency_s cand with
  | [] => step_lat = fzero
  | lats => In step_lat lats /\ forall y, In y lats -> fgtb y step_lat = false
  end
  /\ if fst (Budget_allow (ls_budget ls) step_cost step_lat)
     then tr = []
          /\ res = Ok {| ad_cand := cand;
                         ad_step_cost := step_cost;
                         ad_step_lat := step_lat;
                         ad_total_cost := fadd (ls_total_cost ls) step_cost;
                         ad_total_lat := fadd (ls_total_lat ls) step_lat;
                         ad_budget := Budget_charge (ls_budget ls) step_cost |}
     else tr = [Ev (Log (LogTrimming (si + 1))) tt]
          /\ match cand with
             | [] => res = Err ValueError
             | _ =>
                 exists cheapest,
                   In cheapest cand
                   /\ (forall c, In c cand -> fltb (cost_usd c) (cost_usd cheapest) = false)
                   /\ res = Ok {| ad_cand := [cheapest];
                                  ad_step_cost := cost_usd cheapest;
                                  ad_step_lat := latency_s cheapest;
                                  ad_total_cost :=
                                    fadd (ls_total_cost ls) (cost_usd cheapest);
                                  ad_total_lat :=
                                    fadd (ls_total_lat ls) (latency_s cheapest);
                                  ad_budget :=
                                    Budget_charge (ls_budget ls) (cost_usd cheapest) |}
             end.
Proof.
  intros step_cost step_lat.
  assert (Hmax : match map latency_s cand with
                 | [] => step_lat = fzero
                 | lats => In step_lat lats /\ forall y, In y lats -> fgtb y step_lat = false
                 end).
  { subst step_lat. destruct (map latency_s cand) as [|x rest] eqn:E; [reflexivity|].
    apply py_max_default_spec. }
  unfold admission. fold step_cost step_lat.
  assert (Hsame : snd (Budget_allow (ls_budget ls) step_cost step_lat) = ls_budget ls).
  { unfold Budget_allow. destruct (fltb (usd_left (ls_budget ls)) step_cost); [reflexivity|].
    destruct (deadline_s (ls_budget ls)) as [d|]; [|reflexivity].
    destruct (fltb d step_lat); reflexivity. }
  destruct (Budget_allow (ls_budget ls) step_cost step_lat) as [allowed budget].
  simpl in Hsame. subst budget. simpl fst.
  destruct allowed; simpl negb; cbv iota.
  - simpl. split; [exact Hmax|split; reflexivity].
  - rewrite interp_bind. rewrite interp_bind. rewrite interp_log.
    destruct (h _ (Log (LogTrimming (si + 1))) s) as [[] s1]. simpl fst; simpl snd.
    rewrite interp_bind, interp_lift.
    destruct cand as [|c0 cand'].
    + simpl. auto.
    + destruct (py_min_key_spec cost_usd c0 cand') as (m & Hm & Hin & Hleast).
      rewrite Hm. simpl. split; [exact Hmax|]. split; [reflexivity|].
      exists m. repeat split; auto.
Qed.

End AdmitClaims.

(* ================================================================== *)
(** ** Reasoning about programs against every environment *)

Section Triples.
Context {F : Type}.
Local Abbreviation returns := (returns (F:=F)).
Local Abbreviation always := (always (F:=F)).

Lemma returns_bind {A B} (p : Prog F A) (f : A -> Prog F B)
    (Q1 : list (Event F) -> A -> Prop) (Q2 : list (Event F) -> B -> Prop) :
  returns p Q1 ->
  (forall a tr1, Q1 tr1 a -> returns (f a) (fun tr2 b => Q2 (tr1 ++ tr2) b)) ->
  returns (bind p f) Q2.
Proof.
  intros Hp Hf S h s. rewrite interp_bind.
  specialize (Hp S h s). destruct (interp h p s) as [[tr1 [a|e]] s1]; [|exact I].
  specialize (Hf a tr1 Hp S h s1).
  destruct (interp h (f a) s1) as [[tr2 [b|e]] s2]; [exact Hf|exact I].
Qed.

Lemma returns_weaken {A} (p : Prog F A) (Q Q' : list (Event F) -> A -> Prop) :
  returns p Q -> (forall tr a, Q tr a -> Q' tr a) -> returns p Q'.
Proof.
  intros Hp Himp S h s. specialize (Hp S h s).
  destruct (interp h p s) as [[tr [a|e]] s1]; auto.
Qed.

Lemma returns_ret {A} (a : A) : returns (Ret a) (fun tr b => tr = [] /\ b = a).
Proof. intros S h s. simpl. auto. Qed.

Lemma returns_lift {A} (r : Result A) : returns (lift r) (fun tr b => tr = [] /\ r = Ok b).
Proof. intros S h s. rewrite interp_lift. destruct r; auto. Qed.

Lemma returns_log (m : LogMsg F) : returns (log m) (fun tr _ => tr = [Ev (Log m) tt]).
Proof. intros S h s. rewrite interp_log. destruct (h _ (Log m) s) as [[] s1]. reflexivity. Qed.

Lemma returns_await {A} (c : Call F (Result A)) :
  returns (await c) (fun tr a => tr = [Ev c (Ok a)]).
Proof.
  intros S h s. rewrite interp_await. destruct (h _ c s) as [[a|e] s1]; simpl; auto.
Qed.

Lemma always_bind {A B} (p : Prog F A) (f : A -> Prog F B)
    (Q1 : list (Event F) -> Result A -> Prop) (Q2 : list (Event F) -> Result B -> Prop) :
  always p Q1 ->
  (forall tr1 e, Q1 tr1 (Err e) -> Q2 tr1 (Err e)) ->
  (forall a tr1, Q1 tr1 (Ok a) -> always (f a) (fun tr2 r => Q2 (tr1 ++ tr2) r)) ->
  always (bind p f) Q2.
Proof.
  intros Hp He Hf S h s. rewrite interp_bind.
  specialize (Hp S h s). destruct (interp h p s) as [[tr1 [a|e]] s1]; [|auto].
  specialize (Hf a tr1 Hp S h s1).
  destruct (interp h (f a) s1) as [[tr2 r2] s2]. exact Hf.
Qed.

Lemma always_weaken {A} (p : Prog F A) (Q Q' : list (Event F) -> Result A -> Prop) :
  always p Q -> (forall tr r, Q tr r -> Q' tr r) -> always p Q'.
Proof.
  intros Hp Himp S h s. specialize (Hp S h s).
  destruct (interp h p s) as [[tr r] s1]. auto.
Qed.

Lemma always_ret {A} (a : A) : always (Ret a) (fun tr r => tr = [] /\ r = Ok a).
Proof. intros S h s. simpl. auto. Qed.

Lemma always_lift {A} (r : Result A) : always (lift r) (fun tr r' => tr = [] /\ r' = r).
Proof. intros S h s. rewrite interp_lift. auto. Qed.

Lemma always_log (m : LogMsg F) :
  always (log m) (fun tr r => tr = [Ev (Log m) tt] /\ r = Ok tt).
Proof. intros S h s. rewrite interp_log. destruct (h _ (Log m) s) as [[] s1]. auto. Qed.

Lemma always_await {A} (c : Call F (Result A)) :
  always (await c) (fun tr r => tr = [Ev c r]).
Proof. intros S h s. rewrite interp_await. reflexivity. Qed.

End Triples.

(* ================================================================== *)
(** ** No local recovery *)

Section Propagation.
Context {F : Type} `{PyFloat F} `{PyRandom F} {Sorting : PySorted F}.
Variable ads : Dict (LLMAdapter F).
Local Abbreviation propagates := (propagates ads).
Local Abbreviation aborted := (aborted ads).

Lemma propagates_bind {A B} (p : Prog F A) (f : A -> Prog F B) :
  propagates p -> (forall a, propagates (f a)) -> propagates (bind p f).
Proof.
  intros Hp Hf. eapply always_bind; [exact Hp| |].
  - intros tr1 e [Hnone | (e' & [= <-] & Hin)]; [now left|].
    right. exists e. auto.
  - intros a tr1 [Hnone | (e' & Habs & _)]; [|discriminate].
    eapply always_weaken; [apply Hf|].
    intros tr2 r. unfold aborted. rewrite failures_app, Hnone. auto.
Qed.

Lemma propagates_ret {A} (a : A) : propagates (Ret a).
Proof. intros S h s. simpl. now left. Qed.

Lemma propagates_lift {A} (r : Result A) : propagates (lift r).
Proof. intros S h s. rewrite interp_lift. now left. Qed.

Lemma propagates_log (m : LogMsg F) : propagates (log m).
Proof. intros S h s. rewrite interp_log. now left. Qed.

Lemma propagates_router_call {A} (c : Result A * Router F) : propagates (router_call c).
Proof. intros S h s. destruct c as [[a|e] r]; simpl; now left. Qed.

Lemma propagates_judge task cands : propagates (await (JudgePick task cands)).
Proof.
  intros S h s. rewrite interp_await.
  destruct (h _ (JudgePick task cands) s) as [[a|e] s1]; simpl; [now left|].
  right. exists e. split; [reflexivity|]. left. now left.
Qed.

Lemma propagates_verifier task answer md :
  propagates (await (VerifierCheck task answer md)).
Proof.
  intros S h s. rewrite interp_await.
  destruct (h _ (VerifierCheck task answer md) s) as [[a|e] s1]; simpl; [now left|].
  right. exists e. split; [reflexivity|]. left. now left.
Qed.

Lemma propagates_planner task (b : F) (l : option F) :
  propagates (await (MakePlan task b l)).
Proof.
  intros S h s. rewrite interp_await.
  destruct (h _ (MakePlan task b l) s) as [[a|e] s1]; simpl; [now left|].
  right. exists e. split; [reflexivity|]. left. now left.
Qed.

Lemma propagates_Debate_run names req : propagates (Debate_run ads names req).
Proof.
  intros S h s. pose proof (Debate_run_facts h s ads names req) as Hfacts.
  destruct (interp h (Debate_run ads names req) s) as [[tr res] s'].
  destruct Hfacts as (_ & _ & _ & _ & Hok & Hres).
  destruct res as [cs|e].
  - left. simpl in Hok. symmetry in Hok. apply andb_true_iff in Hok.
    destruct Hok as [_ Hnone]. destruct (failures tr); [reflexivity|discriminate].
  - right. exists e. split; [reflexivity|].
    destruct Hres as [Hin | (k & -> & _ & Hk)]; [now left|]. right. eauto.
Qed.

Lemma propagates_admission si (ls : LoopState F) cand : propagates (admission si ls cand).
Proof.
  unfold admission.
  destruct (Budget_allow (ls_budget ls) _ _) as [allowed budget].
  apply propagates_bind.
  - destruct (negb allowed); [|apply propagates_ret].
    apply propagates_bind; [apply propagates_log|intros _].
    apply propagates_bind; [apply propagates_lift|intros c]. apply propagates_ret.
  - intros [[c sc] sl]. apply propagates_ret.
Qed.

End Propagation.

Ltac propagate :=
  repeat first
    [ apply propagates_ret
    | apply propagates_lift
    | apply propagates_log
    | apply propagates_router_call
    | apply propagates_judge
    | apply propagates_verifier
    | apply propagates_planner
    | apply propagates_Debate_run
    | apply propagates_admission
    | apply propagates_bind; [|intros ?]
    | match goal with
      | x : (_ * _)%type |- _ => destruct x
      | |- propagates _ (if ?b then _ else _) => destruct b
      end ].

Section NoRecovery.
Context {F : Type} `{PyFloat F} `{PyRandom F} {Sorting : PySorted F}.

Lemma propagates_first_round (o : Orchestrator F) task si step ls :
  propagates (orch_adapters o) (first_round o task si step ls).
Proof. unfold first_round. propagate. Qed.

Lemma propagates_improve_round (o : Orchestrator F) task si step s1 :
  propagates (orch_adapters o) (improve_round o task si step s1).
Proof. unfold improve_round, improve_body. propagate. Qed.

Lemma propagates_record_step (ads : Dict (LLMAdapter F)) si step ls s2 :
  propagates ads (record_step si step ls s2).
Proof. unfold record_step. propagate. Qed.

Lemma propagates_run_step (o : Orchestrator F) task si step ls :
  propagates (orch_adapters o) (run_step o task si step ls).
Proof.
  unfold run_step.
  apply propagates_bind; [apply propagates_first_round|intros s1].
  apply propagates_bind; [apply propagates_improve_round|intros s2].
  apply propagates_record_step.
Qed.

Lemma propagates_run_loop (o : Orchestrator F) task todo :
  forall si ls, propagates (orch_adapters o) (run_loop o task si todo ls).
Proof.
  induction todo as [|step rest IH]; intros si ls; cbn [run_loop].
  - apply propagates_ret.
  - apply propagates_bind; [apply propagates_run_step|intros ls']. apply IH.
Qed.

(** C8: in every run, against any environment, as soon as a worker
    invocation, a judge call, a verifier call or the planner raises, the
    run ends with an exception and hands back no [RunTrace]: the exception
    is one of those the environment raised, or the KeyError of an
    unregistered worker name of the same fan-out.  The same holds of a
    fan-out taken alone: one failing invocation makes [Debate.run] raise,
    whatever the other invocations returned. *)
Theorem no_local_recovery {S} (h : Handler F S) (s : S)
    (o : Orchestrator F) (task : string) (budget_usd : F) (latency : option F)
    (names : list string) (req : CallRequest) :
  (let '(tr, res, _) := interp h (Orchestrator_run o task budget_usd latency) s in
   failures tr = []
   \/ exists e, res = Err e
                /\ (In e (failures tr)
                    \/ exists k, e = KeyError k /\ ~ In k (dict_keys (orch_adapters o))))
  /\ (let '(tr, res, _) := interp h (Debate_run (orch_adapters o) names req) s in
      failures tr = []
      \/ exists e, res = Err e
                   /\ (In e (failures tr)
                       \/ exists k, e = KeyError k /\ ~ In k (dict_keys (orch_adapters o)))).
Proof.
  split.
  - assert (Hrun : propagates (orch_adapters o)
                     (Orchestrator_run o task budget_usd latency)).
    { unfold Orchestrator_run.
      apply propagates_bind; [apply propagates_log|intros _].
      apply propagates_bind; [apply propagates_planner|intros plan].
      apply propagates_bind; [apply propagates_log|intros _].
      apply propagates_bind; [apply propagates_run_loop|intros ls].
      apply propagates_bind; [apply propagates_lift|intros final].
      apply propagates_ret. }
    specialize (Hrun S h s).
    destruct (interp h (Orchestrator_run o task budget_usd latency) s) as [[tr res] s'].
    exact Hrun.
  - pose proof (propagates_Debate_run (orch_adapters o) names req h s) as Hd.
    destruct (interp h (Debate_run (orch_adapters o) names req) s) as [[tr res] s'].
    exact Hd.
Qed.

End NoRecovery.

(* ================================================================== *)
(** ** The phases of a step *)

Section PhaseFacts.
Context {F : Type} `{PyFloat F} `{PyRandom F} {Sorting : PySorted F}.

Lemma returns_router_call {A} (c : Result A * Router F) :
  returns (router_call c) (fun tr a => tr = [] /\ c = (Ok (fst a), snd a)).
Proof. intros S h s. destruct c as [[a|e] r]; simpl; auto. Qed.

Lemma fold_pick_in {A} (better : A -> A -> bool) (rest : list A) :
  forall m, In (fold_left (fun m y => if better y m then y else m) rest m) (m :: rest).
Proof.
  induction rest as [|x rest IH]; intros m; simpl; [now left|].
  destruct (IH (if better x m then x else m)) as [E | Hin]; [|auto].
  rewrite <- E. destruct (better x m); auto.
Qed.

Lemma py_min_key_in {A} (key : A -> F) (xs : list A) (m : A) :
  py_min_key key xs = Ok m -> In m xs.
Proof.
  destruct xs as [|x rest]; [discriminate|]. intros [= <-].
  apply (fold_pick_in (fun y m => fltb (key y) (key m))).
Qed.

Lemma returns_admission si (ls : LoopState F) cand :
  returns (admission si ls cand)
          (fun tr ad => completions tr = [] /\ attempts tr = 0%nat /\ fanouts tr = 0%nat
                        /\ admitted ls cand ad).
Proof.
  intros S h s. unfold admission.
  assert (Hsame : snd (Budget_allow (ls_budget ls) (py_sum (map cost_usd cand))
                         (py_max_default (map latency_s cand) fzero)) = ls_budget ls).
  { unfold Budget_allow. destruct (fltb _ _); [reflexivity|].
    destruct (deadline_s (ls_budget ls)) as [d|]; [|reflexivity].
    destruct (fltb d _); reflexivity. }
  destruct (Budget_allow (ls_budget ls) _ _) as [allowed budget].
  simpl in Hsame. subst budget.
  destruct allowed; simpl negb; cbv iota.
  - simpl. unfold admitted. simpl. repeat split; auto.
  - rewrite interp_bind. rewrite interp_bind. rewrite interp_log.
    destruct (h _ (Log (LogTrimming (si + 1))) s) as [[] s1]. simpl fst; simpl snd.
    rewrite interp_bind, interp_lift.
    destruct (py_min_key cost_usd cand) as [m|e] eqn:Em; simpl; [|exact I].
    unfold admitted. simpl. repeat split; auto.
    right. exists m. repeat split; auto. eapply py_min_key_in; eauto.
Qed.

Lemma returns_Debate_run (ads : Dict (LLMAdapter F)) names req :
  returns (Debate_run ads names req)
          (fun tr cs =>
             fanouts tr = 1%nat /\ attempts tr = 0%nat
             /\ exists ress,
                  List.length ress = List.length names
                  /\ completions tr = combine names (map Ok ress)
                  /\ cs = map (fun nr => candidate_of (fst nr) (snd nr))
                              (combine names ress)).
Proof.
  intros S h s. pose proof (Debate_run_facts h s ads names req) as Hfacts.
  destruct (interp h (Debate_run ads names req) s) as [[tr [cs|e]] s']; [|exact I].
  destruct Hfacts as (_ & Hfan & Hlog & _ & _ & _ & _ & Hress).
  split; [exact Hfan|]. split; [unfold attempts; rewrite Hlog; reflexivity|exact Hress].
Qed.

End PhaseFacts.

(** Split the measures of a trace along its appends. *)
Ltac trace_norm :=
  unfold attempts, fanouts, logged, completions, failures in *;
  repeat (rewrite ?flat_map_app, ?filter_app, ?length_app; simpl).

Section FirstRound.
Context {F : Type} `{PyFloat F} `{PyRandom F} {Sorting : PySorted F}.

Lemma first_round_returns (o : Orchestrator F) task si step ls :
  returns (first_round o task si step ls) (first_round_post task si step ls).
Proof.
  unfold first_round.
  eapply returns_bind; [apply returns_log|intros _ tr0 ->].
  eapply returns_bind; [apply returns_router_call|intros [names router] tr1 [-> Hpick]].
  simpl in Hpick.
  eapply returns_bind; [apply returns_log|intros _ tr2 ->].
  eapply returns_bind; [apply returns_log|intros _ tr3 ->].
  eapply returns_bind; [apply returns_Debate_run|
                        intros cand trd (Hfan & Hatt & ress & Hlen & Hcm & Hcand)].
  eapply returns_bind; [apply returns_log|intros _ tr4 ->].
  eapply returns_bind; [apply returns_admission|
                        intros ad tra (Hcma & Hatta & Hfana & Had)].
  eapply returns_bind; [apply returns_log|intros _ tr5 ->].
  eapply returns_bind with
    (Q1 := fun tr (jm : Z * Meta) => attempts tr = 0%nat /\ fanouts tr = 0%nat
                                     /\ completions tr = []).
  { destruct (Nat.eqb (List.length (ad_cand ad)) 1).
    - eapply returns_weaken; [apply returns_ret|]. intros tr a [-> _]. auto.
    - eapply returns_weaken; [apply returns_await|]. intros tr a ->. auto. }
  intros [j_idx j_meta] trj (Hattj & Hfanj & Hcmj).
  eapply returns_bind; [apply returns_lift|intros chosen tr6 [-> Hchosen]].
  eapply returns_bind; [apply returns_log|intros _ tr7 ->].
  eapply returns_bind; [apply returns_log|intros _ tr8 ->].
  eapply returns_bind; [apply returns_await|intros [ok v_meta] tr9 ->].
  eapply returns_bind; [apply returns_log|intros _ tr10 ->].
  eapply returns_weaken; [apply returns_ret|]. intros tr st [-> ->].
  unfold first_round_post. simpl.
  split; [exact Hpick|]. split; [|split; [exact Hchosen|split; [reflexivity|split; [|split]]]].
  - exists ress, ad. split; [exact Hlen|]. split; [|subst cand; auto 10].
    trace_norm. rewrite <- Hcm, Hcma, Hcmj. now rewrite !app_nil_r.
  - eexists (_ :: _ :: _ :: trd ++ _ :: tra ++ _ :: trj ++ [_; _]), v_meta.
    repeat (progress (cbn [app]; rewrite <- ?app_assoc)). reflexivity.
  - trace_norm. rewrite Hatt, Hatta, Hattj. reflexivity.
  - trace_norm. rewrite Hfan, Hfana, Hfanj. reflexivity.
Qed.

End FirstRound.

(* ================================================================== *)
(** ** Counting improve rounds *)

Section Quiet.
Context {F : Type} `{PyFloat F} `{PyRandom F} {Sorting : PySorted F}.
Local Abbreviation quiet := (quiet (F:=F)).

Lemma quiet_bind {A B} (p : Prog F A) (f : A -> Prog F B) :
  quiet p -> (forall a, quiet (f a)) -> quiet (bind p f).
Proof.
  intros Hp Hf. eapply always_bind; [exact Hp|auto|].
  intros a tr1 Hq. eapply always_weaken; [apply Hf|].
  intros tr2 r Hq2. simpl in *. rewrite attempts_app, Hq, Hq2. reflexivity.
Qed.

Lemma quiet_ret {A} (a : A) : quiet (Ret a).
Proof. intros S h s. reflexivity. Qed.

Lemma quiet_lift {A} (r : Result A) : quiet (lift r).
Proof. intros S h s. rewrite interp_lift. reflexivity. Qed.

Lemma quiet_router_call {A} (c : Result A * Router F) : quiet (router_call c).
Proof. intros S h s. destruct c as [[a|e] r]; reflexivity. Qed.

Lemma quiet_log (m : LogMsg F) : is_attempt m = false -> quiet (log m).
Proof.
  intros Hm S h s. rewrite interp_log. unfold attempts. simpl. rewrite Hm. reflexivity.
Qed.

Lemma quiet_judge task cands : quiet (await (JudgePick task cands)).
Proof. intros S h s. rewrite interp_await. reflexivity. Qed.

Lemma quiet_verifier task answer md : quiet (await (VerifierCheck task answer md)).
Proof. intros S h s. rewrite interp_await. reflexivity. Qed.

Lemma quiet_planner task (b : F) (l : option F) : quiet (await (MakePlan task b l)).
Proof. intros S h s. rewrite interp_await. reflexivity. Qed.

Lemma quiet_Debate_run (ads : Dict (LLMAdapter F)) names req :
  quiet (Debate_run ads names req).
Proof.
  intros S h s. pose proof (Debate_run_facts h s ads names req) as Hfacts.
  destruct (interp h (Debate_run ads names req) s) as [[tr res] s'].
  destruct Hfacts as (_ & _ & Hlog & _). unfold attempts. rewrite Hlog. reflexivity.
Qed.

Lemma quiet_admission si (ls : LoopState F) cand : quiet (admission si ls cand).
Proof.
  unfold admission.
  destruct (Budget_allow (ls_budget ls) _ _) as [allowed budget].
  apply quiet_bind.
  - destruct (negb allowed); [|apply quiet_ret].
    apply quiet_bind; [apply quiet_log; reflexivity|intros _].
    apply quiet_bind; [apply quiet_lift|intros c]. apply quiet_ret.
  - intros [[c sc] sl]. apply quiet_ret.
Qed.

End Quiet.

Ltac keep_quiet :=
  repeat first
    [ apply quiet_ret
    | apply quiet_lift
    | apply quiet_log; reflexivity
    | apply quiet_router_call
    | apply quiet_judge
    | apply quiet_verifier
    | apply quiet_planner
    | apply quiet_Debate_run
    | apply quiet_admission
    | apply quiet_bind; [|intros ?]
    | match goal with
      | x : (_ * _)%type |- _ => destruct x
      | |- quiet (if ?b then _ else _) => destruct b
      end ].

Section QuietPhases.
Context {F : Type} `{PyFloat F} `{PyRandom F} {Sorting : PySorted F}.

Lemma quiet_first_round (o : Orchestrator F) task si step ls :
  quiet (first_round o task si step ls).
Proof. unfold first_round. keep_quiet. Qed.

Lemma quiet_record_step si step (ls : LoopState F) s2 : quiet (record_step si step ls s2).
Proof. unfold record_step. keep_quiet. Qed.

(** The body of the improve round announces itself exactly once, however
    it ends. *)
Lemma improve_body_once (o : Orchestrator F) task si step s1 :
  always (improve_body o task si step s1) (fun tr _ => attempts tr = 1%nat).
Proof.
  unfold improve_body.
  eapply always_bind; [apply always_log|intros tr1 e [_ Habs]; discriminate|].
  intros _ tr1 [-> _].
  assert (Hrest : forall A (p : Prog F A), quiet p ->
            always p (fun tr2 _ =>
              attempts ([Ev (Log (LogAttemptImprove (si + 1))) tt] ++ tr2) = 1%nat)).
  { intros A p Hq. eapply always_weaken; [exact Hq|].
    intros tr2 r Hq2. simpl in Hq2. rewrite attempts_app, Hq2. reflexivity. }
  apply Hrest. keep_quiet.
Qed.

End QuietPhases.

Section ImproveRound.
Context {F : Type} `{PyFloat F} `{PyRandom F} {Sorting : PySorted F}.

Lemma returned_map_ok {A} (l : list A) : returned (map Ok l) = l.
Proof. induction l as [|a l IH]; simpl; congruence. Qed.

Lemma map_snd_combine {A B} (l1 : list A) :
  forall l2 : list B, List.length l2 = List.length l1 -> map snd (combine l1 l2) = l2.
Proof.
  induction l1 as [|a l1 IH]; intros [|b l2]; simpl; try discriminate; auto.
  intros [= Hlen]. f_equal. now apply IH.
Qed.

(** The costs of the candidates of a fan-out are the costs its completions
    reported. *)
Lemma candidate_costs (names : list string) (ress : list (CallResult F)) :
  List.length ress = List.length names ->
  map cost_usd (map (fun nr => candidate_of (fst nr) (snd nr)) (combine names ress))
  = map res_cost_usd (returned (map snd (combine names (map Ok ress)))).
Proof.
  intros Hlen. rewrite map_snd_combine by (rewrite length_map; exact Hlen).
  rewrite returned_map_ok, map_map. simpl.
  rewrite <- (map_snd_combine names ress Hlen) at 2. rewrite map_map. reflexivity.
Qed.

Lemma improve_body_returns (o : Orchestrator F) task si step s1 :
  returns (improve_body o task si step s1) (improve_post o task step s1).
Proof.
  unfold improve_body.
  eapply returns_bind; [apply returns_log|intros _ tr0 ->].
  eapply returns_bind; [apply returns_lift|intros top tr1 [-> Htop]].
  eapply returns_bind; [apply returns_router_call|intros [names2 router] tr2 [-> Hpick]].
  simpl in Hpick.
  eapply returns_bind; [apply returns_log|intros _ tr3 ->].
  eapply returns_bind; [apply returns_Debate_run|
                        intros cand2 trd (Hfan & Hatt & ress & Hlen & Hcm & Hcand)].
  eapply returns_bind; [apply returns_log|intros _ tr4 ->].
  eapply returns_bind; [apply returns_log|intros _ tr5 ->].
  eapply returns_bind; [apply returns_await|intros [j_idx2 j_meta2] tr6 ->].
  eapply returns_bind; [apply returns_lift|intros chosen tr7 [-> Hchosen]].
  eapply returns_bind; [apply returns_log|intros _ tr8 ->].
  eapply returns_bind; [apply returns_await|intros [ok2 v_meta2] tr9 ->].
  eapply returns_bind; [apply returns_log|intros _ tr10 ->].
  eapply returns_weaken; [apply returns_ret|]. intros tr st [-> ->].
  unfold improve_post. simpl.
  repeat (split; [reflexivity|]).
  split; [trace_norm; rewrite Hfan; reflexivity|].
  exists top, names2, ress, j_idx2, j_meta2, v_meta2.
  assert (Hcompl : completions
            (Ev (Log (LogAttemptImprove (si + 1))) tt
             :: Ev (Log (LogRunningImprove (si + 1))) tt
                :: trd ++
                   [Ev (Log (LogImproveComplete (si + 1) (List.length cand2))) tt;
                    Ev (Log (LogJudgingImproved (si + 1))) tt;
                    Ev (JudgePick task (ss_chosen s1 :: cand2)) (Ok (j_idx2, j_meta2));
                    Ev (Log (LogVerifyingImproved (si + 1))) tt;
                    Ev (VerifierCheck task (text chosen)
                          [("skill", VStr (skill step)); ("round", VInt 2)])
                       (Ok (ok2, v_meta2));
                    Ev (Log (LogImproveVerification (si + 1) ok2)) tt])
          = combine names2 (map Ok ress)).
  { rewrite <- Hcm. unfold completions. simpl. rewrite flat_map_app. simpl.
    now rewrite app_nil_r. }
  split; [exact Htop|]. split; [exact Hpick|]. split; [exact Hlen|].
  split; [exact Hcompl|]. rewrite <- Hcand.
  split.
  { unfold completion_costs. rewrite Hcompl, Hcand. now apply candidate_costs. }
  split; [exact Hchosen|].
  repeat (split; [reflexivity|]).
  split; [|split; [|split; reflexivity]].
  - right. right. apply in_or_app. right. simpl. auto.
  - right. right. apply in_or_app. right. simpl. auto 10.
Qed.

End ImproveRound.

(* ================================================================== *)
(** ** One step of the loop *)

Section RunStep.
Context {F : Type} `{PyFloat F} `{PyRandom F} {Sorting : PySorted F}.

(** RECORD makes no call: it feeds the router and appends the trace. *)
Lemma record_step_interp {S} (h : Handler F S) (s : S) si step (ls : LoopState F) s2 :
  exists res,
    interp h (record_step si step ls s2) s = ([], res, s)
    /\ match res with
       | Ok ls' =>
           Router_update (ss_router s2) (model (ss_chosen s2))
             (if ss_verified s2 then fone else fzero) (cost_usd (ss_chosen s2))
           = (Ok tt, ls_router ls')
           /\ ls_budget ls' = ss_budget s2
           /\ ls_total_cost ls' = ss_total_cost s2
           /\ ls_total_lat ls' = ss_total_lat s2
           /\ ls_step_traces ls' = ls_step_traces ls ++ [step_trace_of si step s2]
       | Err e =>
           fst (Router_update (ss_router s2) (model (ss_chosen s2))
                  (if ss_verified s2 then fone else fzero) (cost_usd (ss_chosen s2)))
           = Err e
       end.
Proof.
  unfold record_step. rewrite interp_bind.
  destruct (Router_update (ss_router s2) (model (ss_chosen s2))
              (if ss_verified s2 then fone else fzero) (cost_usd (ss_chosen s2)))
    as [[[]|e] router]; simpl.
  - eexists. split; [reflexivity|]. simpl. repeat split; reflexivity.
  - eexists. split; [reflexivity|]. reflexivity.
Qed.

(** A step is its three phases in sequence. *)
Lemma run_step_interp {S} (h : Handler F S) (s : S) (o : Orchestrator F)
    task si step ls :
  interp h (run_step o task si step ls) s =
  let '(tr1, r1, s1) := interp h (first_round o task si step ls) s in
  match r1 with
  | Err e => (tr1, Err e, s1)
  | Ok st1 =>
      let '(tr2, r2, s2) := interp h (improve_round o task si step st1) s1 in
      match r2 with
      | Err e => (tr1 ++ tr2, Err e, s2)
      | Ok st2 =>
          let '(tr3, r3, s3) := interp h (record_step si step ls st2) s2 in
          (tr1 ++ tr2 ++ tr3, r3, s3)
      end
  end.
Proof.
  unfold run_step. rewrite interp_bind.
  destruct (interp h (first_round o task si step ls) s) as [[tr1 [st1|e]] s1];
    [|reflexivity].
  rewrite interp_bind.
  destruct (interp h (improve_round o task si step st1) s1) as [[tr2 [st2|e]] s2];
    [|reflexivity].
  destruct (interp h (record_step si step ls st2) s2) as [[tr3 r3] s3]. reflexivity.
Qed.

(** The step cost of the first round, read off the trace: the sum of the
    costs the fan-out's completions reported, or one of them after a trim. *)
Lemma first_round_step_cost task si step (ls : LoopState F) tr1 st1 :
  first_round_post task si step ls tr1 st1 ->
  ss_total_cost st1 = fadd (ls_total_cost ls) (ss_step_cost st1)
  /\ ss_budget st1 = Budget_charge (ls_budget ls) (ss_step_cost st1)
  /\ (ss_step_cost st1 = py_sum (completion_costs tr1)
      \/ In (ss_step_cost st1) (completion_costs tr1)).
Proof.
  intros (_ & (ress & ad & Hlen & Hcm & Had & Hc & Hsc & Htc & _ & Hb) & _).
  destruct Had as (Hat & _ & Hab & Hcases).
  rewrite Htc, Hb, Hsc. repeat split; auto.
  unfold completion_costs. rewrite Hcm, <- (candidate_costs _ _ Hlen).
  destruct Hcases as [[_ ->] | (cheapest & Hin & _ & ->)]; [now left|].
  right. now apply in_map.
Qed.

End RunStep.

Section EscalationClaims.
Context {F : Type} `{PyFloat F} `{PyRandom F} {Sorting : PySorted F}.

(** C1: run a step against any environment.  No improve round is announced
    during the first round, and if the first round raises the step raises
    with it.  If the first round returns, with the verifier's verdict [ok]
    as answered in the trace and the budget as charged with the step cost,
    the step announces an improve round exactly when
    [not ok and max_rounds > 0 and usd_left > 0.0] and never announces two.
    When the step then returns, [total_cost] is the previous total plus the
    first round's step cost plus the [sum] of the costs reported by the
    improve round's completions, and two fan-outs were awaited; without an
    improve round it is the previous total plus the step cost, with one
    fan-out. *)
Theorem one_improve_round {S} (h : Handler F S) (s : S) (o : Orchestrator F)
    (task : string) (si : Z) (step : PlanStep) (ls : LoopState F) :
  let '(tr1, r1, s1) := interp h (first_round o task si step ls) s in
  let '(tr, res, _) := interp h (run_step o task si step ls) s in
  (attempts tr <= 1)%nat
  /\ attempts tr1 = 0%nat
  /\ match r1 with
     | Err e => tr = tr1 /\ res = Err e
     | Ok st1 =>
         (exists tr0 m,
             tr1 = tr0 ++ [Ev (VerifierCheck task (text (ss_chosen st1))
                                 [("skill", VStr (skill step))]) (Ok (ss_ok st1, m));
                           Ev (Log (LogVerification (si + 1) (ss_ok st1))) tt])
         /\ ss_budget st1 = Budget_charge (ls_budget ls) (ss_step_cost st1)
         /\ (ss_step_cost st1 = py_sum (completion_costs tr1)
             \/ In (ss_step_cost st1) (completion_costs tr1))
         /\ let '(tr2, r2, _) := interp h (improve_round o task si step st1) s1 in
            tr = tr1 ++ tr2
            /\ if negb (ss_ok st1) && (max_rounds step >? 0)
                  && fgtb (usd_left (ss_budget st1)) fzero
               then attempts tr = 1%nat
                    /\ In (LogAttemptImprove (si + 1)) (logged tr2)
                    /\ match res with
                       | Ok ls' =>
                           ls_total_cost ls'
                           = fadd (fadd (ls_total_cost ls) (ss_step_cost st1))
                                  (py_sum (completion_costs tr2))
                           /\ fanouts tr = 2%nat
                       | Err _ => True
                       end
               else attempts tr = 0%nat
                    /\ tr2 = []
                    /\ match res with
                       | Ok ls' =>
                           ls_total_cost ls' = fadd (ls_total_cost ls) (ss_step_cost st1)
                           /\ fanouts tr = 1%nat
                       | Err _ => True
                       end
     end.
Proof.
  pose proof (first_round_returns o task si step ls h s) as Hpost.
  pose proof (quiet_first_round o task si step ls h s) as Hquiet.
  rewrite run_step_interp.
  destruct (interp h (first_round o task si step ls) s) as [[tr1 [st1|e]] s1];
    simpl in Hquiet; [|repeat split; auto; rewrite Hquiet; lia].
  destruct (first_round_step_cost Hpost) as (Htc & Hb & Hsc).
  pose proof Hpost as (_ & _ & _ & _ & Hver & _ & Hfan1).
  unfold improve_round, improve_guard.
  destruct (negb (ss_ok st1) && (max_rounds step >? 0)
            && fgtb (usd_left (ss_budget st1)) fzero) eqn:Eguard.
  - pose proof (improve_body_once o task si step st1 h s1) as Honce.
    pose proof (improve_body_returns o task si step st1 h s1) as Himp.
    assert (Hlogged : forall S' (h' : Handler F S') s',
               In (LogAttemptImprove (si + 1))
                  (logged (fst (fst (interp h' (improve_body o task si step st1) s'))))).
    { intros S' h' s'. unfold improve_body. rewrite interp_bind, interp_log.
      destruct (h' _ (Log (LogAttemptImprove (si + 1))) s') as [[] s''].
      simpl fst; simpl snd.
      match goal with |- context [interp h' ?p s''] =>
        destruct (interp h' p s'') as [[tr' r'] s3] end.
      simpl. now left. }
    specialize (Hlogged S h s1).
    destruct (interp h (improve_body o task si step st1) s1) as [[tr2 [st2|e]] s2];
      simpl in Honce, Hlogged.
    + destruct (record_step_interp h s2 si step ls st2) as (res & Hrec & Hres).
      rewrite Hrec. rewrite app_nil_r.
      assert (Hatt : attempts (tr1 ++ tr2) = 1%nat)
        by (rewrite attempts_app, Hquiet, Honce; reflexivity).
      split; [lia|]. split; [exact Hquiet|]. split; [exact Hver|].
      split; [exact Hb|]. split; [exact Hsc|]. split; [reflexivity|].
      split; [exact Hatt|]. split; [exact Hlogged|].
      destruct res as [ls'|e]; [|exact I].
      destruct Hres as (_ & _ & Hcost & _).
      destruct Himp as (_ & _ & _ & _ & _ & Hfan2 & top & names2 & ress & j2 & jm & vm
                        & _ & _ & _ & _ & Hcosts & _ & Htc2 & _).
      split; [|rewrite fanouts_app, Hfan1, Hfan2; reflexivity].
      rewrite Hcost, Htc2, Htc, Hcosts. reflexivity.
    + assert (Hatt : attempts (tr1 ++ tr2) = 1%nat)
        by (rewrite attempts_app, Hquiet, Honce; reflexivity).
      repeat split; auto. lia.
  - simpl interp at 1. cbv iota beta.
    destruct (record_step_interp h s1 si step ls st1) as (res & Hrec & Hres).
    rewrite Hrec. cbn [app].
    split; [rewrite app_nil_r, Hquiet; lia|]. split; [exact Hquiet|]. split; [exact Hver|].
    split; [exact Hb|]. split; [exact Hsc|]. split; [reflexivity|].
    split; [rewrite app_nil_r; exact Hquiet|]. split; [reflexivity|].
    destruct res as [ls'|e]; [|exact I].
    destruct Hres as (_ & _ & Hcost & _).
    split; [rewrite Hcost; exact Htc|rewrite app_nil_r; exact Hfan1].
Qed.

End EscalationClaims.

(* ================================================================== *)
(** ** What is recorded *)

Section Recording.
Context {F : Type} `{PyFloat F} `{PyRandom F} {Sorting : PySorted F}.

Lemma returns_trivial {A} (p : Prog F A) : returns p (fun _ _ => True).
Proof. intros S h s. destruct (interp h p s) as [[tr [a|e]] s']; exact I. Qed.

Lemma py_last_snoc {A} (l : list A) (t : A) : py_last (l ++ [t]) = Ok t.
Proof.
  unfold py_last, py_index. rewrite length_app. simpl List.length.
  replace (-1 <? 0) with true by reflexivity.
  replace (-1 + Z.of_nat (List.length l + 1)) with (Z.of_nat (List.length l)) by lia.
  replace (0 <=? Z.of_nat (List.length l)) with true by (symmetry; apply Z.leb_le; lia).
  replace (Z.of_nat (List.length l) <? Z.of_nat (List.length l + 1))
    with true by (symmetry; apply Z.ltb_lt; lia).
  simpl. rewrite Nat2Z.id, nth_error_app2 by lia.
  rewrite Nat.sub_diag. reflexivity.
Qed.

(** Lines 168-172 read the text at [chosen_idx] in the [candidates] of the
    last trace. *)
Lemma final_text_of_last (traces : list (StepTrace F)) (txt : string) :
  final_text_of traces = Ok txt ->
  match rev traces with
  | [] => txt = ""
  | t :: _ => exists c, py_index (candidates t) (chosen_idx t) = Ok c /\ txt = text c
  end.
Proof.
  unfold final_text_of. destruct (rev traces) as [|t r] eqn:E.
  - apply (f_equal (@rev _)) in E. rewrite rev_involutive in E. subst traces.
    simpl. congruence.
  - apply (f_equal (@rev _)) in E. rewrite rev_involutive in E. simpl in E. subst traces.
    destruct (rev r ++ [t]) as [|x l] eqn:El; [destruct (rev r); discriminate|].
    rewrite <- El, py_last_snoc. simpl.
    destruct (py_index (candidates t) (chosen_idx t)) as [c|e]; simpl; [|discriminate].
    intros [= <-]. eauto.
Qed.

Lemma Orchestrator_run_returns (o : Orchestrator F) task budget_usd latency :
  returns (Orchestrator_run o task budget_usd latency)
          (fun _ out => final_text_of (run_steps (fst out)) = Ok (final_text (fst out))).
Proof.
  unfold Orchestrator_run.
  eapply returns_bind; [apply returns_trivial|intros _ tr0 _].
  eapply returns_bind; [apply returns_trivial|intros plan tr1 _].
  eapply returns_bind; [apply returns_trivial|intros _ tr2 _].
  eapply returns_bind; [apply returns_trivial|intros ls tr3 _].
  eapply returns_bind; [apply returns_lift|intros final tr4 [-> Hfinal]].
  eapply returns_weaken; [apply returns_ret|]. intros tr out [-> ->]. exact Hfinal.
Qed.

(** A step that returns: its first round returned, then its improve round
    (the body, or nothing), then RECORD. *)
Lemma run_step_returns {S} (h : Handler F S) (s : S) (o : Orchestrator F)
    task si step ls :
  let '(tr1, r1, s1) := interp h (first_round o task si step ls) s in
  let '(tr, res, _) := interp h (run_step o task si step ls) s in
  match r1, res with
  | Ok st1, Ok ls' =>
      first_round_post task si step ls tr1 st1
      /\ let '(tr2, r2, _) := interp h (improve_round o task si step st1) s1 in
         match r2 with
         | Ok st2 =>
             (if improve_guard step st1
              then improve_post o task step st1 tr2 st2
              else st2 = st1)
             /\ Router_update (ss_router st2) (model (ss_chosen st2))
                  (if ss_verified st2 then fone else fzero) (cost_usd (ss_chosen st2))
                = (Ok tt, ls_router ls')
             /\ ls_step_traces ls' = ls_step_traces ls ++ [step_trace_of si step st2]
         | Err _ => False
         end
  | Ok _, Err _ => True
  | Err _, Ok _ => False
  | Err _, Err _ => True
  end.
Proof.
  pose proof (first_round_returns o task si step ls h s) as Hpost.
  rewrite run_step_interp.
  destruct (interp h (first_round o task si step ls) s) as [[tr1 [st1|e]] s1]; [|exact I].
  assert (Himp : match interp h (improve_round o task si step st1) s1 with
                 | (tr2, Ok st2, _) =>
                     if improve_guard step st1
                     then improve_post o task step st1 tr2 st2
                     else st2 = st1
                 | _ => True
                 end).
  { unfold improve_round. destruct (improve_guard step st1).
    - apply (improve_body_returns o task si step st1 h s1).
    - reflexivity. }
  destruct (interp h (improve_round o task si step st1) s1) as [[tr2 [st2|e]] s2];
    [|exact I].
  destruct (record_step_interp h s2 si step ls st2) as (res & Hrec & Hres).
  rewrite Hrec. destruct res as [ls'|e]; [|exact I].
  destruct Hres as (Hupd & _ & _ & _ & Htraces). auto.
Qed.

(** C3: when a step returns, it has appended one [StepTrace]; its worker
    list, candidate list and [chosen_idx] are those of the first round
    (the routed names, the admitted candidates of the first fan-out, the
    first judge index), so that [candidates[chosen_idx]] is the candidate
    chosen in the first round; its [verified] flag is the last verdict.
    After an improve round the candidate finally chosen is picked by the
    second judge index in [chosen :: cand2], and may be one of the improve
    round's candidates, yet the recorded index and candidate list are left
    as the first round set them.  [final_text] of a run is the text at
    [chosen_idx] in the [candidates] of the last [StepTrace], or the empty
    string without steps. *)
Theorem step_trace_records_first_round {S} (h : Handler F S) (s : S)
    (o : Orchestrator F) (task : string) (si : Z) (step : PlanStep) (ls : LoopState F)
    (budget_usd : F) (latency : option F) :
  (let '(tr1, r1, s1) := interp h (first_round o task si step ls) s in
   let '(tr, res, _) := interp h (run_step o task si step ls) s in
   match r1, res with
   | Ok st1, Ok ls' =>
       first_round_post task si step ls tr1 st1
       /\ exists t,
            ls_step_traces ls' = ls_step_traces ls ++ [t]
            /\ step_idx t = si
            /\ st_skill t = skill step
            /\ chosen_models t = ss_names st1
            /\ candidates t = ss_cand st1
            /\ chosen_idx t = ss_j_idx st1
            /\ py_index (candidates t) (chosen_idx t) = Ok (ss_chosen st1)
            /\ let '(tr2, r2, _) := interp h (improve_round o task si step st1) s1 in
               match r2 with
               | Ok st2 =>
                   verified t = ss_verified st2
                   /\ Router_update (ss_router st2) (model (ss_chosen st2))
                        (if ss_verified st2 then fone else fzero)
                        (cost_usd (ss_chosen st2))
                      = (Ok tt, ls_router ls')
                   /\ if improve_guard step st1
                      then improve_post o task step st1 tr2 st2
                      else st2 = st1
               | Err _ => False
               end
   | _, _ => True
   end)
  /\ (let '(_, res, _) := interp h (Orchestrator_run o task budget_usd latency) s in
      match res with
      | Ok (rt, _) =>
          match rev (run_steps rt) with
          | [] => final_text rt = ""
          | t :: _ =>
              exists c, py_index (candidates t) (chosen_idx t) = Ok c
                        /\ final_text rt = text c
          end
      | Err _ => True
      end).
Proof.
  split.
  - pose proof (run_step_returns h s o task si step ls) as Hstep.
    destruct (interp h (first_round o task si step ls) s) as [[tr1 [st1|e]] s1];
      destruct (interp h (run_step o task si step ls) s) as [[tr [ls'|e']] s'];
      try exact I.
    destruct Hstep as (Hpost & Hstep). split; [exact Hpost|].
    pose proof Hpost as (_ & _ & Hchosen & _).
    destruct (interp h (improve_round o task si step st1) s1) as [[tr2 [st2|e]] s2];
      [|destruct Hstep].
    destruct Hstep as (Himp & Hupd & Htraces).
    assert (Hkeep : ss_names st2 = ss_names st1 /\ ss_cand st2 = ss_cand st1
                    /\ ss_j_idx st2 = ss_j_idx st1).
    { destruct (improve_guard step st1).
      - destruct Himp as (Hn & Hc & Hj & _). auto.
      - subst st2. auto. }
    destruct Hkeep as (Hn & Hc & Hj).
    exists (step_trace_of si step st2). simpl.
    rewrite Hn, Hc, Hj. repeat split; auto.
  - pose proof (Orchestrator_run_returns o task budget_usd latency h s) as Hrun.
    destruct (interp h (Orchestrator_run o task budget_usd latency) s)
      as [[tr [[rt o']|e]] s']; [|exact I].
    simpl in Hrun. apply final_text_of_last. exact Hrun.
Qed.

End Recording.

(* ================================================================== *)
(** ** Reproducibility of routing *)

Section Reproducibility.
Context {F : Type} `{PyFloat F} `{PyRandom F} {Sorting : PySorted F}.

(** In a step that returns, the router object is used through these calls
    and no others: the first [pick_k], the [pick_k] of the improve round
    when its guard holds, and the final [update]; none of them raised. *)
Lemma run_step_calls {S} (h : Handler F S) (s : S) (o : Orchestrator F)
    task si step ls :
  let '(_, r1, s1) := interp h (first_round o task si step ls) s in
  let '(_, res, _) := interp h (run_step o task si step ls) s in
  match r1, res with
  | Ok st1, Ok ls' =>
      let '(_, r2, _) := interp h (improve_round o task si step st1) s1 in
      match r2 with
      | Ok st2 =>
          exists answers,
            Router_calls (ls_router ls) (step_calls o step st1 st2)
            = (answers, ls_router ls')
            /\ Forall (fun a => forall e, a <> Raised e) answers
      | Err _ => False
      end
  | _, _ => True
  end.
Proof.
  pose proof (run_step_returns h s o task si step ls) as Hstep.
  destruct (interp h (first_round o task si step ls) s) as [[tr1 [st1|e]] s1];
    destruct (interp h (run_step o task si step ls) s) as [[tr [ls'|e']] s'];
    try exact I.
  destruct Hstep as ((Hpick & _) & Hstep).
  destruct (interp h (improve_round o task si step st1) s1) as [[tr2 [st2|e]] s2];
    [|destruct Hstep].
  destruct Hstep as (Himp & Hupd & _).
  unfold step_calls, improve_calls. destruct (improve_guard step st1).
  - destruct Himp as (_ & _ & _ & _ & _ & _ & top & names2 & ress & j2 & jm & vm
                      & Htop & Hpick2 & _).
    rewrite Htop. eexists. simpl. rewrite Hpick, Hpick2, Hupd. split; [reflexivity|].
    repeat constructor; discriminate.
  - subst st2. eexists. simpl. rewrite Hpick, Hupd. split; [reflexivity|].
    repeat constructor; discriminate.
Qed.

Lemma read_write_same (st : Store F) (a : nat) (g : Rng) : read (write st a g) a = g.
Proof. unfold read, write. simpl. now rewrite Nat.eqb_refl. Qed.

Lemma read_write_other (st : Store F) (a b : nat) (g : Rng) :
  b <> a -> read (write st a g) b = read st b.
Proof.
  intros Hne. unfold read, write. simpl.
  destruct (Nat.eqb b a) eqn:E; [apply Nat.eqb_eq in E; congruence|reflexivity].
Qed.

(** [Router.__init__] hands the router a generator nothing else refers to. *)
Lemma start_owned (ads : Dict (LLMAdapter F)) (c : RouterCfg F) (seed : Z) (st : Store F) :
  owned (start ads c seed st) (Router_init ads c seed)
  /\ p_answers (start ads c seed st) = [].
Proof.
  unfold owned, start, RouterObj_init, Random_new, deref, read. simpl.
  rewrite Nat.eqb_refl. repeat split; auto.
  - apply Forall_forall. intros a Ha. apply in_seq in Ha. lia.
Qed.

(** One action: a call on the router moves it as the method does, and the
    other components leave it alone. *)
Lemma act_owned (p : Process F) (r : Router F) (a : Action F) :
  owned p r ->
  match a with
  | OnRouter c =>
      owned (act p a) (snd (Router_call r c))
      /\ p_answers (act p a) = p_answers p ++ [fst (Router_call r c)]
  | _ => owned (act p a) r /\ p_answers (act p a) = p_answers p
  end.
Proof.
  intros (Hr & Hlt & Htheirs & Hdrawn). destruct a as [c|seed|i]; simpl.
  - unfold RouterObj_call. rewrite Hr.
    destruct (Router_call r c) as [ans r'] eqn:Ec. simpl.
    split; [|reflexivity]. unfold owned, deref, read, write. simpl.
    rewrite Nat.eqb_refl. split; [destruct r'; reflexivity|]. auto.
  - split; [|reflexivity]. unfold owned, deref, read in *. simpl.
    assert (Hne : Nat.eqb (ro_rng (p_router p)) (next (p_store p)) = false)
      by (apply Nat.eqb_neq; lia).
    rewrite Hne. split; [exact Hr|]. split; [lia|]. split; [|exact Hdrawn].
    apply Forall_app. split.
    + eapply Forall_impl; [|exact Htheirs]. simpl. intros b [Hb Hb']. split; [lia|exact Hb'].
    + repeat constructor; lia.
  - destruct (nth_error (p_theirs p) i) as [b|] eqn:Eb; [|split; [repeat split; auto|reflexivity]].
    split; [|reflexivity].
    assert (Hb : (b < next (p_store p))%nat /\ b <> ro_rng (p_router p)).
    { rewrite Forall_forall in Htheirs. apply Htheirs. eapply nth_error_In; eauto. }
    unfold owned, random_at. destruct (rng_random (read (p_store p) b)) as [u g].
    cbn [p_store p_router p_theirs p_drawn snd].
    assert (Hderef : deref (p_router p) (write (p_store p) b g)
                     = deref (p_router p) (p_store p)).
    { unfold deref. rewrite read_write_other by (intros E; symmetry in E; tauto).
      reflexivity. }
    rewrite Hderef.
    split; [exact Hr|]. split; [exact Hlt|]. split; [exact Htheirs|].
    apply Forall_app. split; [exact Hdrawn|]. repeat constructor. tauto.
Qed.

(** A whole run of the process: the router answers as the same calls
    answer on a router of its own, whatever the others do in between. *)
Lemma run_owned (acts : list (Action F)) :
  forall (p : Process F) (r : Router F),
    owned p r ->
    owned (run_process p acts) (snd (Router_calls r (router_calls_of acts)))
    /\ p_answers (run_process p acts)
       = p_answers p ++ fst (Router_calls r (router_calls_of acts)).
Proof.
  unfold run_process.
  induction acts as [|a acts IH]; intros p r Hown; simpl.
  - rewrite app_nil_r. auto.
  - pose proof (act_owned a Hown) as Hact. destruct a as [c|seed|i].
    + destruct Hact as [Hown' Hans]. simpl router_calls_of. simpl Router_calls.
      destruct (Router_call r c) as [ans r1]. simpl in Hown', Hans.
      destruct (IH _ _ Hown') as [Hfin Hans'].
      destruct (Router_calls r1 (router_calls_of acts)) as [rest r2]. simpl in *.
      split; [exact Hfin|]. rewrite Hans', Hans, <- app_assoc. reflexivity.
    + destruct Hact as [Hown' Hans]. destruct (IH _ _ Hown') as [Hfin Hans'].
      simpl router_calls_of. split; [exact Hfin|]. rewrite Hans', Hans. reflexivity.
    + destruct Hact as [Hown' Hans]. destruct (IH _ _ Hown') as [Hfin Hans'].
      simpl router_calls_of. split; [exact Hfin|]. rewrite Hans', Hans. reflexivity.
Qed.


End Reproducibility.

(* ================================================================== *)
(** ** Worked runs *)

(** The budget example of the specification. *)
Example Budget_example :
  let b := {| usd_left := 10 # 100; deadline_s := None |} : Budget Q in
  fst (Budget_allow b (5 # 100) 1%Q) = true
  /\ (usd_left (Budget_charge b (5 # 100)) == 5 # 100)%Q
  /\ fst (Budget_allow (Budget_charge b (5 # 100)) (6 # 100) 1%Q) = false.
Proof. repeat split. Qed.

(** The [ArmStat] example of the specification, in exact arithmetic. *)
Example ArmStat_example :
  exists s : ArmStat Q,
    ArmStat_updates ArmStat_new [(1, 2 # 100); (0, 4 # 100)]%Q = (Ok tt, s)
    /\ pulls s = 2 /\ (winrate s == 1 # 2)%Q /\ (cost s == 3 # 100)%Q.
Proof. eexists. split; [reflexivity|]. repeat split. Qed.

(** The routing example of the specification: of A (tier 0, code) and
    B (tier 1, math), [pick_k("math", 1, tier_hint=1)] returns B. *)
Example pick_k_example :
  let A := {| spec := {| name := "A"; provider := ""; cost_per_1k_input := 0%Q;
                         cost_per_1k_output := 0%Q; tier := 0; skills := Some [CODE] |} |} in
  let B := {| spec := {| name := "B"; provider := ""; cost_per_1k_input := 0%Q;
                         cost_per_1k_output := 0%Q; tier := 1; skills := Some [MATH] |} |} in
  fst (Router_pick_k (Router_init [("A", A); ("B", B)] default_cfg 123) "math" 1 (Some 1))
  = Ok ["B"].
Proof. reflexivity. Qed.

(** C6, counterexample: a non-empty adapter set on which [pick_k] returns
    no identity.  The names [pick_k] scores are the adapters' own: an
    adapter registered under another key has no statistics under its name,
    and scoring it raises. *)
Example pick_k_unregistered_name :
  [("fast", gpt_4o)] <> []
  /\ fst (Router_pick_k (Router_init [("fast", gpt_4o)] default_cfg 123) "math" 1 None)
     = Err (KeyError "gpt-4o")
  /\ forall names r',
       Router_pick_k (Router_init [("fast", gpt_4o)] default_cfg 123) "math" 1 None
       <> (Ok names, r').
Proof.
  split; [discriminate|]. split; [reflexivity|]. intros names r' E.
  apply (f_equal fst) in E. discriminate.
Qed.

(** An adapter built without [skills] makes the filter raise as soon as a
    skill is asked for; without a skill, or when the tier test fails, its
    skills are not read. *)
Example pick_k_undeclared_skills :
  let r := Router_init [("gpt-4o", gpt_plain)] default_cfg 123 in
  Router_pick_k r "math" 1 None = (Err TypeError, r)
  /\ fst (Router_pick_k r "" 1 None) = Ok ["gpt-4o"]
  /\ fst (Router_pick_k r "math" 1 (Some 1)) = Ok ["gpt-4o"].
Proof. repeat split. Qed.

(** The two worked processes give the same three answers. *)
Example sessions_agree :
  p_answers (run_process (start worker_models default_cfg 123 busy_store) busy_session)
  = [Picked ["gpt-4o"; "gpt-4o-mini"]; Updated; Picked ["gpt-4o"]]
  /\ p_answers (run_process (start worker_models default_cfg 123 empty_store) quiet_session)
     = [Picked ["gpt-4o"; "gpt-4o-mini"]; Updated; Picked ["gpt-4o"]]
  /\ p_drawn (run_process (start worker_models default_cfg 123 busy_store) busy_session)
     = [0%nat; 2%nat; 0%nat; 2%nat]
  /\ ro_rng (p_router (run_process (start worker_models default_cfg 123 busy_store)
                                   busy_session)) = 1%nat.
Proof. vm_compute. repeat split. Qed.

(** The same calls on a router with a generator of its own and on one
    whose [rng] is the generator of another router that has been used:
    the answers differ.  Reproducibility rests on the generator not being
    shared. *)
Example shared_generator_not_reproducible :
  let (first, st) := RouterObj_init worker_models default_cfg 123 empty_store in
  let '(_, _, st1) := RouterObj_call first (CallPickK "" 2 None) st in
  let (second, st2) := RouterObj_init worker_models default_cfg 123 st1 in
  fst (fst (RouterObj_call second (CallPickK "" 2 None) st2))
  = Picked ["gpt-4o"; "gpt-4o-mini"]
  /\ fst (fst (RouterObj_call (aliased_router first) (CallPickK "" 2 None) st1))
     = Picked ["gpt-4o-mini"; "gpt-4o"].
Proof. vm_compute. split; reflexivity. Qed.

(** A whole run in which the verifier rejects the first answer: one improve
    round, two fan-outs, the cost of both rounds in the total; the trace
    keeps the first round's candidate list and index, and [final_text] is
    the first round's text although the answer finally chosen and verified
    is the improve round's. *)
Example demo_run :
  let '(tr, res, _) :=
    interp demo_env (Orchestrator_run demo_orchestrator "2+2" (1 # 10) None) 0%nat in
  attempts tr = 1%nat
  /\ fanouts tr = 2%nat
  /\ map fst (completions tr) = ["gpt-4o"; "gpt-4o"]
  /\ match res with
     | Ok (rt, o') =>
         final_text rt = "answer of gpt-4o to: You are a helpful assistant."
         /\ map chosen_idx (run_steps rt) = [0]
         /\ map verified (run_steps rt) = [true]
         /\ map (fun t => List.length (candidates t)) (run_steps rt) = [1%nat]
         /\ (total_cost_usd rt == 30 # 1000)%Q
         /\ map (fun kv => pulls (snd kv)) (stats (orch_router o')) = [1; 0]
     | Err _ => False
     end.
Proof. vm_compute. repeat split; congruence. Qed.

(** [admission] on two candidates the budget cannot pay for together. *)
Example admission_example :
  let '(tr, res, _) := interp demo_env (admission 0 demo_loop_state demo_candidates) 0%nat in
  logged tr = [LogTrimming 1]
  /\ match res with
     | Ok ad => map model (ad_cand ad) = ["gpt-4o-mini"]
                /\ (ad_step_cost ad == 2 # 1000)%Q
                /\ (usd_left (ad_budget ad) == 8 # 1000)%Q
     | Err _ => False
     end.
Proof. vm_compute. repeat split; congruence. Qed.

(* ================================================================== *)
(** ** The theorems at a concrete configuration *)

Lemma Router_pick_k_spec_witness :
  worker_models <> []
  /\ keyed_by_name worker_models
  /\ declared_skills worker_models
  /\ exists names scored cand r',
       pool worker_models "math" (Some 1) = Ok cand
       /\ Router_pick_k (snd (Router_calls (Router_init worker_models default_cfg 123)
                                [CallPickK "code" 2 None; CallUpdate "gpt-4o" 1%Q (15 # 1000)]))
                        "math" 0 (Some 1)
          = (Ok names, r')
       /\ names = map (fun a => name (spec a)) (py_take (Z.max 1 0) scored)
       /\ Permutation scored cand
       /\ 1 <= Z.of_nat (List.length names) <= Z.max 1 0
       /\ (forall n, In n names ->
             exists a, In a (dict_values worker_models) /\ name (spec a) = n)
       /\ ((exists a, In a (dict_values worker_models)
                      /\ eligible "math" (Some 1) a = Ok true) ->
           forall n, In n names ->
             exists a, In a (dict_values worker_models) /\ name (spec a) = n
                       /\ tier_ok (Some 1) a = true /\ skill_ok "math" a = Ok true)
       /\ ((forall a, In a (dict_values worker_models) ->
                      eligible "math" (Some 1) a = Ok false) ->
           cand = dict_values worker_models
           /\ Z.of_nat (List.length names)
              = Z.min (Z.of_nat (List.length worker_models)) (Z.max 1 0)).
Proof.
  assert (Hne : worker_models <> []) by discriminate.
  assert (Hk : keyed_by_name worker_models) by (repeat constructor).
  assert (Hd : declared_skills worker_models) by (repeat constructor; discriminate).
  split; [exact Hne|]. split; [exact Hk|]. split; [exact Hd|].
  exact (Router_pick_k_spec default_cfg 123
           [CallPickK "code" 2 None; CallUpdate "gpt-4o" 1%Q (15 # 1000)]
           "math" 0 (Some 1) Hne Hk Hd).
Defined.



Lemma admission_spec_witness :
  PyFloatOrder Q
  /\ let step_cost := py_sum (map cost_usd demo_candidates) in
     let step_lat := py_max_default (map latency_s demo_candidates) fzero in
     let '(tr, res, _) :=
       interp demo_env (admission 0 demo_loop_state demo_candidates) 0%nat in
     match map latency_s demo_candidates with
     | [] => step_lat = fzero
     | lats => In step_lat lats /\ forall y, In y lats -> fgtb y step_lat = false
     end
     /\ if fst (Budget_allow (ls_budget demo_loop_state) step_cost step_lat)
        then tr = []
             /\ res = Ok {| ad_cand := demo_candidates;
                            ad_step_cost := step_cost;
                            ad_step_lat := step_lat;
                            ad_total_cost := fadd (ls_total_cost demo_loop_state) step_cost;
                            ad_total_lat := fadd (ls_total_lat demo_loop_state) step_lat;
                            ad_budget := Budget_charge (ls_budget demo_loop_state) step_cost |}
        else tr = [Ev (Log (LogTrimming (0 + 1))) tt]
             /\ match demo_candidates with
                | [] => res = Err ValueError
                | _ =>
                    exists cheapest,
                      In cheapest demo_candidates
                      /\ (forall c, In c demo_candidates ->
                                    fltb (cost_usd c) (cost_usd cheapest) = false)
                      /\ res = Ok {| ad_cand := [cheapest];
                                     ad_step_cost := cost_usd cheapest;
                                     ad_step_lat := latency_s cheapest;
                                     ad_total_cost :=
                                       fadd (ls_total_cost demo_loop_state)
                                            (cost_usd cheapest);
                                     ad_total_lat :=
                                       fadd (ls_total_lat demo_loop_state)
                                            (latency_s cheapest);
                                     ad_budget :=
                                       Budget_charge (ls_budget demo_loop_state)
                                                     (cost_usd cheapest) |}
                end.
Proof.
  split; [exact exactQ_order|].
  exact (admission_spec (H0 := exactQ_order) demo_env 0%nat 0 demo_loop_state
           demo_candidates).
Defined.

(* ================================================================== *)
(** * Further properties *)

(** ** Router: what a call touches *)

Section RouterEffects.
Context {F : Type} `{PyFloat F} `{PyRandom F} {Sorting : PySorted F}.

Lemma advance_add (a b : nat) (g : Rng) : advance (a + b) g = advance b (advance a g).
Proof. revert g. induction a as [|a IH]; intros g; simpl; auto. Qed.

Lemma dict_get_err {V} (d : Dict V) (k : string) (e : Exc) :
  dict_get d k = Err e -> e = KeyError k /\ ~ In k (dict_keys d).
Proof.
  induction d as [|[k' v] d IH]; simpl.
  - intros [= <-]. tauto.
  - destruct (String.eqb k' k) eqn:E; [discriminate|]. intros Hg.
    destruct (IH Hg) as [-> Hn]. split; [reflexivity|].
    intros [-> | Hin]; [rewrite String.eqb_refl in E; discriminate | tauto].
Qed.

(** One call of [_score]: no draw when the name has no statistics, else
    one draw, or two when it explores. *)
Lemma Router_score_draws (r : Router F) (nm : string) :
  exists m : nat,
    rng (snd (Router_score r nm)) = advance m (rng r)
    /\ match fst (Router_score r nm) with
       | Ok _ => (1 <= m <= 2)%nat
       | Err e => m = 0%nat /\ e = KeyError nm /\ ~ In nm (dict_keys (stats r))
       end.
Proof.
  unfold Router_score. destruct (dict_get (stats r) nm) as [s|e] eqn:Eg.
  - destruct (rng_random (rng r)) as [u g1] eqn:E1.
    destruct (fltb u (epsilon (cfg r)) || (pulls s =? 0)).
    + destruct (rng_random g1) as [v g2] eqn:E2. exists 2%nat. simpl.
      rewrite E1. simpl. rewrite E2. simpl. split; [reflexivity|lia].
    + exists 1%nat. simpl. rewrite E1. simpl. split; [reflexivity|lia].
  - exists 0%nat. simpl. split; [reflexivity|]. split; [reflexivity|].
    apply (dict_get_err _ _ Eg).
Qed.

Lemma score_all_draws (cand : list (LLMAdapter F)) :
  forall r : Router F,
    exists m : nat,
      rng (snd (score_all r cand)) = advance m (rng r)
      /\ (m <= 2 * List.length cand)%nat
      /\ match fst (score_all r cand) with
         | Ok keyed => (List.length cand <= m)%nat /\ map snd keyed = cand
         | Err e => exists a, In a cand /\ e = KeyError (name (spec a))
                              /\ ~ In (name (spec a)) (dict_keys (stats r))
         end.
Proof.
  induction cand as [|a rest IH]; intros r; simpl.
  - exists 0%nat. simpl. repeat split; lia.
  - destruct (Router_score_draws r (name (spec a))) as (m1 & Hg1 & Hres1).
    pose proof (Router_score_frame r (name (spec a))) as (_ & _ & Hst).
    destruct (Router_score r (name (spec a))) as [[k|e] r1]; simpl in *.
    + destruct (IH r1) as (m2 & Hg2 & Hle & Hres2).
      destruct (score_all r1 rest) as [[ks|e] r2]; simpl in *.
      * exists (m1 + m2)%nat. rewrite advance_add, <- Hg1. split; [exact Hg2|].
        split; [lia|]. destruct Hres2 as [Hm ->]. split; [lia|reflexivity].
      * exists (m1 + m2)%nat. rewrite advance_add, <- Hg1. split; [exact Hg2|].
        split; [lia|]. destruct Hres2 as (b & Hb & -> & Hn).
        exists b. rewrite <- Hst. auto.
    + destruct Hres1 as (-> & -> & Hn). exists 0%nat. simpl.
      split; [exact Hg1|]. split; [lia|]. exists a. auto.
Qed.

(** X1: [pick_k] leaves the adapters, the configuration and every
    statistic as they were, also when it raises; all it changes is the
    generator.  It can raise two exceptions only.  [TypeError] comes from
    the filter, before any draw and with the router left as it was, when a
    non-empty skill is asked for and an adapter that passes the tier test
    has [None] for skills.  Otherwise the generator is advanced by at least
    one and at most two draws per adapter of the pool when [pick_k]
    returns, and the only exception is the [KeyError] of a pool adapter
    whose name has no statistics. *)
Theorem pick_k_only_draws (r : Router F) (sk : string) (k : Z) (th : option Z) :
  let (res, r') := Router_pick_k r sk k th in
  adapters r' = adapters r
  /\ cfg r' = cfg r
  /\ stats r' = stats r
  /\ match pool (adapters r) sk th with
     | Err _ =>
         res = Err TypeError /\ r' = r
         /\ exists a, In a (dict_values (adapters r)) /\ tier_ok th a = true
                      /\ sk <> "" /\ skills (spec a) = None
     | Ok cand =>
         exists m : nat,
           rng r' = advance m (rng r)
           /\ (m <= 2 * List.length cand)%nat
           /\ match res with
              | Ok names => (List.length cand <= m)%nat
              | Err e => exists a, In a cand
                                   /\ e = KeyError (name (spec a))
                                   /\ ~ In (name (spec a)) (dict_keys (stats r))
              end
     end.
Proof.
  unfold Router_pick_k.
  destruct (pool (adapters r) sk th) as [cand|e] eqn:Hpool.
  - pose proof (score_all_frame cand r) as (Ha & Hc & Hs).
    destruct (score_all_draws cand r) as (m & Hg & Hle & Hres).
    destruct (score_all r cand) as [[keyed|e] r']; simpl in *.
    + repeat split; auto. exists m. repeat split; auto. tauto.
    + repeat split; auto. exists m. repeat split; auto.
  - destruct (pool_raises _ _ _ Hpool) as (-> & Hwho). repeat split; auto.
Qed.

Lemma dict_get_set_same {V} (d : Dict V) (k : string) (v v' : V) :
  dict_get d k = Ok v -> dict_get (dict_set d k v') k = Ok v'.
Proof.
  induction d as [|[k' w] d IH]; simpl; [discriminate|].
  destruct (String.eqb k' k) eqn:E; simpl; rewrite E; auto.
Qed.

Lemma dict_get_set_other {V} (d : Dict V) (k k' : string) (v' : V) :
  k' <> k -> dict_get (dict_set d k v') k' = dict_get d k'.
Proof.
  intros Hne. induction d as [|[k0 w] d IH]; simpl.
  - destruct (String.eqb k k') eqn:E; [|reflexivity].
    apply String.eqb_eq in E. congruence.
  - destruct (String.eqb k0 k) eqn:E; simpl.
    + apply String.eqb_eq in E. subst k0.
      destruct (String.eqb k k') eqn:E'; [|reflexivity].
      apply String.eqb_eq in E'. congruence.
    + destruct (String.eqb k0 k'); auto.
Qed.

(** X2: [update] on a name without statistics raises [KeyError] of that
    name and changes nothing.  On a name with statistics it replaces that
    entry by the result of [ArmStat.update], so that looking the name up
    afterwards yields the updated statistics, and leaves every other entry,
    the order of the keys, the generator, the configuration and the
    adapters as they were. *)
Theorem Router_update_entry (r : Router F) (nm : string) (reward c : F) :
  let (res, r') := Router_update r nm reward c in
  adapters r' = adapters r /\ cfg r' = cfg r /\ rng r' = rng r
  /\ match dict_get (stats r) nm with
     | Err _ =>
         res = Err (KeyError nm) /\ r' = r /\ ~ In nm (dict_keys (stats r))
     | Ok s =>
         res = fst (ArmStat_update s reward c)
         /\ dict_get (stats r') nm = Ok (snd (ArmStat_update s reward c))
         /\ (forall nm', nm' <> nm -> dict_get (stats r') nm' = dict_get (stats r) nm')
         /\ dict_keys (stats r') = dict_keys (stats r)
     end.
Proof.
  unfold Router_update. destruct (dict_get (stats r) nm) as [s|e] eqn:Eg.
  - destruct (ArmStat_update s reward c) as [res s'] eqn:Eu. simpl.
    repeat split; auto.
    + eapply dict_get_set_same; eauto.
    + intros nm' Hne. now apply dict_get_set_other.
    + apply dict_set_keys. apply (dict_get_ok_in _ _ Eg).
  - destruct (dict_get_err _ _ Eg) as [-> Hn]. repeat split; auto.
Qed.

Lemma fresh_lookup (st : Dict (ArmStat F)) (nm : string) (s : ArmStat F) :
  Forall (fun kv => pulls (snd kv) = 0) st -> dict_get st nm = Ok s -> pulls s = 0.
Proof.
  intros Hall Hg. destruct (dict_get_ok_in _ _ Hg) as [_ Hin].
  unfold dict_values in Hin. apply in_map_iff in Hin. destruct Hin as [kv [<- Hkv]].
  rewrite Forall_forall in Hall. now apply Hall.
Qed.

Lemma score_all_cold (cand : list (LLMAdapter F)) (c' : RouterCfg F) :
  forall r : Router F,
    Forall (fun kv => pulls (snd kv) = 0) (stats r) ->
    fst (score_all (with_cfg r c') cand) = fst (score_all r cand)
    /\ snd (score_all (with_cfg r c') cand) = with_cfg (snd (score_all r cand)) c'.
Proof.
  induction cand as [|a rest IH]; intros r Hcold; simpl; [auto|].
  assert (Hscore : fst (Router_score (with_cfg r c') (name (spec a)))
                   = fst (Router_score r (name (spec a)))
                   /\ snd (Router_score (with_cfg r c') (name (spec a)))
                      = with_cfg (snd (Router_score r (name (spec a)))) c').
  { unfold Router_score. simpl.
    destruct (dict_get (stats r) (name (spec a))) as [s|e] eqn:Eg; [|auto].
    rewrite (fresh_lookup _ Hcold Eg).
    destruct (rng_random (rng r)) as [u g1]. rewrite !orb_true_r.
    destruct (rng_random g1) as [v g2]. auto. }
  pose proof (Router_score_frame r (name (spec a))) as (_ & _ & Hst).
  destruct Hscore as [Hf Hs].
  destruct (Router_score (with_cfg r c') (name (spec a))) as [res1 r1'].
  destruct (Router_score r (name (spec a))) as [res1o r1]. simpl in *. subst res1 r1'.
  destruct res1o as [k|e]; [|auto].
  destruct (IH r1) as [Hf2 Hs2]; [rewrite Hst; exact Hcold|].
  destruct (score_all (with_cfg r1 c') rest) as [res2 r2'].
  destruct (score_all r1 rest) as [res2o r2]. simpl in *. subst res2 r2'.
  destruct res2o; auto.
Qed.

(** X3: cold start.  As long as no worker has been pulled, [pick_k] does
    not depend on the configuration: with another [epsilon] and
    [alpha_cost] it returns the same names (or raises the same exception)
    and leaves the same generator and statistics. *)
Theorem cold_start_ignores_cfg (r : Router F) (c' : RouterCfg F)
    (sk : string) (k : Z) (th : option Z) :
  Forall (fun kv => pulls (snd kv) = 0) (stats r) ->
  fst (Router_pick_k (with_cfg r c') sk k th) = fst (Router_pick_k r sk k th)
  /\ rng (snd (Router_pick_k (with_cfg r c') sk k th)) = rng (snd (Router_pick_k r sk k th))
  /\ stats (snd (Router_pick_k (with_cfg r c') sk k th))
     = stats (snd (Router_pick_k r sk k th)).
Proof.
  intros Hcold. unfold Router_pick_k. simpl adapters.
  destruct (pool (adapters r) sk th) as [cand|e]; [|simpl; auto].
  destruct (score_all_cold cand c' r Hcold) as [Hf Hs].
  destruct (score_all (with_cfg r c') cand) as [res' r'].
  destruct (score_all r cand) as [res r0]. simpl in *.
  subst res' r'. destruct res; simpl; auto.
Qed.

End RouterEffects.

(** ** Router: ranking without exploration *)

Section Exploitation.
Context {F : Type} `{PyFloatOrder F} `{PyRandom F} {Sorting : PySorted F}.

Lemma fltb_asym (x y : F) : fltb x y = true -> fltb y x = false.
Proof.
  intros Hxy. destruct (fltb y x) eqn:Hyx; [|reflexivity].
  rewrite <- (fltb_irrefl x). symmetry. eapply fltb_trans; eauto.
Qed.

(** No key of a [sorted(..., reverse=True)] result is directly followed by
    a greater one. *)
Lemma insert_desc_sorted {A} (x : F * A) (l : list (F * A)) :
  Sorted (fun p q => fltb (fst p) (fst q) = false) l ->
  Sorted (fun p q => fltb (fst p) (fst q) = false) (insert_desc x l).
Proof.
  induction 1 as [|y l Hs IH Hhd]; simpl.
  - repeat constructor.
  - destruct (fltb (fst x) (fst y)) eqn:E.
    + constructor; [exact IH|].
      destruct l as [|z l]; simpl.
      * constructor. now apply fltb_asym.
      * destruct (fltb (fst x) (fst z)).
        -- constructor. inversion Hhd; assumption.
        -- constructor. now apply fltb_asym.
    + constructor; [constructor; assumption|]. constructor. exact E.
Qed.

Lemma sort_desc_sorted {A} (l : list (F * A)) :
  Sorted (fun p q => fltb (fst p) (fst q) = false) (sort_desc l).
Proof.
  induction l as [|x l IH]; simpl; [constructor|]. now apply insert_desc_sorted.
Qed.

Lemma score_all_exploit (cand : list (LLMAdapter F)) :
  forall r : Router F,
    (forall g, fltb (fst (rng_random g)) (epsilon (cfg r)) = false) ->
    (forall a, In a cand ->
       exists s, dict_get (stats r) (name (spec a)) = Ok s /\ pulls s <> 0) ->
    score_all r cand
    = (Ok (map (fun a => (utility r a, a)) cand),
       set_rng r (advance (List.length cand) (rng r))).
Proof.
  induction cand as [|a rest IH]; intros r Hno Hpulled; simpl.
  - destruct r; reflexivity.
  - destruct (Hpulled a (or_introl eq_refl)) as (s & Hs & Hp).
    unfold Router_score at 1. rewrite Hs.
    pose proof (Hno (rng r)) as Hu.
    destruct (rng_random (rng r)) as [u g1]. simpl in Hu. rewrite Hu.
    apply Z.eqb_neq in Hp. rewrite Hp. simpl orb. cbv iota.
    rewrite (IH (set_rng r g1)); [|exact Hno|intros b Hb; apply Hpulled; now right].
    unfold utility at 2. rewrite Hs. reflexivity.
Qed.


End Exploitation.

(** ** Fan-out: who is invoked *)

Section DebateInvocations.
Context {F : Type} `{PyFloat F} `{PyRandom F} {Sorting : PySorted F}.

Lemma labels_app (t1 t2 : list (Event F)) : labels (t1 ++ t2) = labels t1 ++ labels t2.
Proof. unfold labels. apply map_app. Qed.

Lemma first_raised_nil {A} (order : list nat) : first_raised order (@nil (Result A)) = None.
Proof.
  induction order as [|i order IH]; simpl; [reflexivity|].
  destruct i; simpl; exact IH.
Qed.

Lemma run_tasks_labels {S} (h : Handler F S) (ads : Dict (LLMAdapter F))
    (req : CallRequest) (names : list string) :
  forall s : S,
    exists answers,
      List.length answers = List.length (registered ads names)
      /\ labels (fst (fst (interp h (run_tasks (map (Debate_one ads req) names)) s)))
         = map (fun nar => LInvoke (fst (fst nar)) (snd (fst nar)) req (snd nar))
               (combine (registered ads names) answers).
Proof.
  induction names as [|n names IH]; intros s; simpl.
  - exists []. auto.
  - rewrite interp_bind. unfold Debate_one at 1.
    destruct (dict_get ads n) as [a|e] eqn:Eg; simpl.
    + destruct (h _ (Acomplete n a req) s) as [r s1].
      rewrite interp_bind. destruct (IH s1) as (answers & Hlen & Hlab).
      destruct (interp h (run_tasks (map (Debate_one ads req) names)) s1)
        as [[tr res] s2].
      exists (r :: answers). simpl in *. split; [now rewrite Hlen|].
      destruct res as [outs|e]; simpl; rewrite ?app_nil_r; now rewrite Hlab.
    + rewrite interp_bind. destruct (IH s) as (answers & Hlen & Hlab).
      destruct (interp h (run_tasks (map (Debate_one ads req) names)) s)
        as [[tr res] s2].
      exists answers. simpl in *. split; [exact Hlen|].
      destruct res as [outs|e']; simpl; rewrite ?app_nil_r; exact Hlab.
Qed.

(** The whole trace of one [Debate.run]. *)
Lemma Debate_run_labels {S} (h : Handler F S) (s : S)
    (ads : Dict (LLMAdapter F)) (names : list string) (req : CallRequest) :
  exists answers order,
    List.length answers = List.length (registered ads names)
    /\ labels (fst (fst (interp h (Debate_run ads names req) s)))
       = map (fun nar => LInvoke (fst (fst nar)) (snd (fst nar)) req (snd nar))
             (combine (registered ads names) answers)
         ++ [LCompletion (List.length names) order].
Proof.
  destruct (run_tasks_labels h ads req names s) as (answers & Hlen & Hlab).
  destruct (run_tasks_fanned h ads req names s) as (tr0 & outs & s1 & Hrun & _).
  unfold Debate_run. rewrite interp_bind. rewrite Hrun in *. simpl in Hlab.
  rewrite interp_bind. simpl.
  destruct (h _ (Completion (List.length names)) s1) as [order s2].
  rewrite interp_lift. exists answers, order. split; [exact Hlen|].
  destruct (gather order outs); simpl; rewrite labels_app, Hlab; reflexivity.
Qed.

(** X5: [Debate.run] invokes every registered name of [names] exactly
    once, in the order of [names] and with the request it was given, then
    awaits them together; it does so whatever the invocations answer, so a
    failing worker does not keep the later ones from being invoked.  A name
    that is not registered invokes nothing.  Without names nothing is
    invoked and the empty list is returned. *)
Theorem Debate_run_invokes_all {S} (h : Handler F S) (s : S)
    (ads : Dict (LLMAdapter F)) (names : list string) (req : CallRequest) :
  let '(tr, res, _) := interp h (Debate_run ads names req) s in
  (exists answers order,
      List.length answers = List.length (registered ads names)
      /\ labels tr
         = map (fun nar => LInvoke (fst (fst nar)) (snd (fst nar)) req (snd nar))
               (combine (registered ads names) answers)
           ++ [LCompletion (List.length names) order])
  /\ map fst (completions tr) = map fst (registered ads names)
  /\ match names with
     | [] => res = Ok []
     | _ => True
     end.
Proof.
  pose proof (Debate_run_labels h s ads names req) as Hlab.
  pose proof (Debate_run_interp h ads names req s) as Hint.
  destruct (interp h (Debate_run ads names req) s) as [[tr res] s'].
  simpl in Hlab. split; [exact Hlab|].
  destruct Hint as (tr0 & outs & order & s2 & [= -> -> ->] & Hf & _).
  split.
  - rewrite completions_app. simpl. rewrite app_nil_r.
    clear -Hf. induction Hf as [|n ns outs cm e Hg Hf IH|n ns outs cm a r Hg Hf IH];
      simpl; unfold registered in *; simpl.
    + reflexivity.
    + rewrite Hg. exact IH.
    + rewrite Hg. simpl. now rewrite IH.
  - destruct names; [|exact I].
    inversion Hf; subst. unfold gather. rewrite first_raised_nil. reflexivity.
Qed.

End DebateInvocations.

(** ** Budget: not-a-number amounts *)

Lemma SFcompare_refl f : f <> S754_nan -> SFcompare f f = Some Eq.
Proof.
  destruct f as [s| [|] | |[|] m e]; simpl; try reflexivity; try congruence;
    intros _; rewrite Z.compare_refl, Pos.compare_cont_refl; reflexivity.
Qed.

Lemma is_nan_Prim2SF (x : float) : is_nan x = true <-> Prim2SF x = S754_nan.
Proof.
  unfold is_nan. rewrite FloatAxioms.eqb_spec. unfold SFeqb. split.
  - intros Hn. destruct (Prim2SF x) as [s|s| |s m e] eqn:E; try reflexivity;
      rewrite SFcompare_refl in Hn by discriminate; discriminate.
  - intros ->. reflexivity.
Qed.

Lemma ltb_nan_l (x y : float) : is_nan x = true -> PrimFloat.ltb x y = false.
Proof.
  intros Hn. apply is_nan_Prim2SF in Hn. rewrite ltb_spec, Hn. reflexivity.
Qed.

Lemma ltb_nan_r (x y : float) : is_nan y = true -> PrimFloat.ltb x y = false.
Proof.
  intros Hn. apply is_nan_Prim2SF in Hn. rewrite ltb_spec, Hn.
  unfold SFltb, SFcompare. destruct (Prim2SF x); reflexivity.
Qed.

Lemma sub_nan_r (x y : float) : is_nan y = true -> is_nan (x - y)%float = true.
Proof.
  intros Hn. apply is_nan_Prim2SF in Hn. apply is_nan_Prim2SF.
  rewrite sub_spec, Hn. unfold SF64sub, SFsub. destruct (Prim2SF x); reflexivity.
Qed.

(** X6: in binary64 a cost that is not a number is never refused by the
    budget check: [allow] then decides by the deadline alone.  Charging it
    leaves [usd_left] not a number, after which [allow] accepts every cost
    (again up to the deadline) and the guard [usd_left > 0.0] of the
    improve round is false. *)
Theorem Budget_nan_cost (b : Budget float) (cost latency : float) :
  is_nan cost = true ->
  let deadline_ok (l : float) :=
    match deadline_s b with Some d => negb (PrimFloat.ltb d l) | None => true end in
  fst (Budget_allow b cost latency) = deadline_ok latency
  /\ is_nan (usd_left (Budget_charge b cost)) = true
  /\ deadline_s (Budget_charge b cost) = deadline_s b
  /\ (forall cost' latency',
         fst (Budget_allow (Budget_charge b cost) cost' latency') = deadline_ok latency')
  /\ fgtb (usd_left (Budget_charge b cost)) fzero = false.
Proof.
  intros Hn deadline_ok.
  assert (Hcharged : is_nan (usd_left (Budget_charge b cost)) = true)
    by (apply sub_nan_r; exact Hn).
  assert (Hallow : forall (b' : Budget float) c l,
             PrimFloat.ltb (usd_left b') c = false ->
             fst (Budget_allow b' c l)
             = match deadline_s b' with
               | Some d => negb (PrimFloat.ltb d l)
               | None => true
               end).
  { intros b' c l Hlt. unfold Budget_allow. simpl fltb. rewrite Hlt.
    destruct (deadline_s b') as [d|]; [|reflexivity].
    destruct (PrimFloat.ltb d l); reflexivity. }
  split; [apply Hallow; now apply ltb_nan_r|].
  split; [exact Hcharged|]. split; [reflexivity|]. split.
  - intros cost' latency'. subst deadline_ok.
    rewrite Hallow by (now apply ltb_nan_l). reflexivity.
  - unfold fgtb. simpl fltb. now apply ltb_nan_r.
Qed.

(** ** The loop, step after step *)

Section LoopChain.
Context {F : Type} `{PyFloat F} `{PyRandom F} {Sorting : PySorted F}.

Lemma returns_record_step si step (ls : LoopState F) (s2 : StepState F) :
  returns (record_step si step ls s2)
          (fun tr ls' =>
             tr = []
             /\ Router_update (ss_router s2) (model (ss_chosen s2))
                  (if ss_verified s2 then fone else fzero) (cost_usd (ss_chosen s2))
                = (Ok tt, ls_router ls')
             /\ ls_budget ls' = ss_budget s2
             /\ ls_total_cost ls' = ss_total_cost s2
             /\ ls_total_lat ls' = ss_total_lat s2
             /\ ls_step_traces ls' = ls_step_traces ls ++ [step_trace_of si step s2]).
Proof.
  intros S h s. destruct (record_step_interp h s si step ls s2) as (res & Hrec & Hres).
  rewrite Hrec. destruct res as [ls'|e]; [|exact I]. tauto.
Qed.

(** A returning step, as a relation between loop states. *)
Lemma run_step_rel (o : Orchestrator F) task si step ls :
  returns (run_step o task si step ls) (fun _ ls' => step_rel o task si step ls ls').
Proof.
  unfold run_step.
  eapply returns_bind; [apply first_round_returns|intros st1 tr1 Hpost].
  eapply returns_bind with
    (Q1 := fun tr2 st2 => if improve_guard step st1
                          then improve_post o task step st1 tr2 st2
                          else st2 = st1).
  { unfold improve_round. destruct (improve_guard step st1).
    - apply improve_body_returns.
    - eapply returns_weaken; [apply returns_ret|]. intros tr a [_ ->]. reflexivity. }
  intros st2 tr2 Himp.
  eapply returns_weaken; [apply returns_record_step|].
  intros tr3 ls' (_ & Hupd & Hb & Hc & Hl & Ht).
  exists tr1, st1, tr2, st2. auto 10.
Qed.

(** A returning loop is a chain of returning steps. *)
Lemma run_loop_chain (o : Orchestrator F) task todo :
  forall si ls,
    returns (run_loop o task si todo ls)
            (fun _ ls' => chain (step_rel o task) si todo ls ls').
Proof.
  induction todo as [|step rest IH]; intros si ls; cbn [run_loop].
  - eapply returns_weaken; [apply returns_ret|]. intros tr a [_ ->]. reflexivity.
  - eapply returns_bind; [apply run_step_rel|intros mid tr1 Hstep].
    eapply returns_weaken; [apply IH|]. intros tr2 ls' Hchain.
    simpl. exists mid. auto.
Qed.

(** A returning run: the plan the planner answered, the chain of its
    steps from the initial loop state, and what is handed back. *)
Lemma Orchestrator_run_chain (o : Orchestrator F) task budget_usd latency :
  returns (Orchestrator_run o task budget_usd latency)
          (fun tr out =>
             exists plan ls',
               nth_error (labels tr) 1 = Some (LPlan task budget_usd latency (Ok plan))
               /\ chain (step_rel o task) 0 (steps plan) (initial_loop_state o plan) ls'
               /\ run_steps (fst out) = ls_step_traces ls'
               /\ total_cost_usd (fst out) = ls_total_cost ls'
               /\ total_latency_s (fst out) = ls_total_lat ls'
               /\ final_text_of (ls_step_traces ls') = Ok (final_text (fst out))
               /\ snd out = {| orch_adapters := orch_adapters o;
                               orch_router := ls_router ls';
                               orch_rng := orch_rng o |}).
Proof.
  unfold Orchestrator_run.
  eapply returns_bind; [apply returns_log|intros _ tr0 ->].
  eapply returns_bind; [apply returns_await|intros plan tr1 ->].
  eapply returns_bind; [apply returns_log|intros _ tr2 ->].
  eapply returns_bind; [apply run_loop_chain|intros ls' tr3 Hchain].
  eapply returns_bind; [apply returns_lift|intros final tr4 [-> Hfinal]].
  eapply returns_weaken; [apply returns_ret|]. intros tr out [-> ->].
  exists plan, ls'. simpl. repeat split; auto.
Qed.

End LoopChain.

(** ** What a returning loop leaves behind *)

Section LoopFacts.
Context {F : Type} `{PyFloat F} `{PyRandom F} {Sorting : PySorted F}.

Lemma py_index_ok {A} (l : list A) (i : Z) (c : A) :
  py_index l i = Ok c ->
  l <> []
  /\ - Z.of_nat (List.length l) <= i < Z.of_nat (List.length l)
  /\ In c l.
Proof.
  unfold py_index. intros Hidx.
  set (n := Z.of_nat (List.length l)) in *.
  set (j := if i <? 0 then i + n else i) in *.
  destruct ((0 <=? j) && (j <? n)) eqn:Hg; [|discriminate].
  apply andb_true_iff in Hg. destruct Hg as [Hlo Hhi].
  apply Z.leb_le in Hlo. apply Z.ltb_lt in Hhi.
  destruct (nth_error l (Z.to_nat j)) as [a|] eqn:Hnth; [|discriminate].
  injection Hidx as ->.
  assert (Hrange : - n <= i < n).
  { subst j. destruct (i <? 0) eqn:Hneg;
      [apply Z.ltb_lt in Hneg | apply Z.ltb_ge in Hneg]; lia. }
  split; [|split; [exact Hrange|eapply nth_error_In; eauto]].
  intros ->. subst n. simpl in Hrange. lia.
Qed.

Lemma step_rel_trace (o : Orchestrator F) task si step ls ls' :
  step_rel o task si step ls ls' ->
  exists t, ls_step_traces ls' = ls_step_traces ls ++ [t]
            /\ step_idx t = si /\ st_skill t = skill step /\ well_indexed t.
Proof.
  intros (tr1 & st1 & tr2 & st2 & Hfirst & Himp & _ & _ & _ & _ & Htr).
  exists (step_trace_of si step st2). split; [exact Htr|].
  split; [reflexivity|]. split; [reflexivity|].
  destruct Hfirst as (_ & _ & Hidx & _).
  assert (Hsame : ss_cand st2 = ss_cand st1 /\ ss_j_idx st2 = ss_j_idx st1).
  { destruct (improve_guard step st1).
    - destruct Himp as (_ & Hc & Hj & _). auto.
    - subst st2. auto. }
  destruct Hsame as [Hc Hj].
  unfold well_indexed. simpl. rewrite Hc, Hj.
  destruct (py_index_ok _ _ Hidx) as (Hne & Hrange & Hin).
  split; [exact Hne|]. split; [exact Hrange|]. eauto.
Qed.

Lemma indices_from_length si n : List.length (indices_from si n) = n.
Proof. revert si. induction n as [|n IH]; intros si; simpl; auto. Qed.

Lemma chain_traces (o : Orchestrator F) task todo :
  forall si ls ls',
    chain (step_rel o task) si todo ls ls' ->
    exists new,
      ls_step_traces ls' = ls_step_traces ls ++ new
      /\ map step_idx new = indices_from si (List.length todo)
      /\ map st_skill new = map skill todo
      /\ Forall well_indexed new.
Proof.
  induction todo as [|step rest IH]; intros si ls ls'; simpl.
  - intros ->. exists []. rewrite app_nil_r. auto.
  - intros (mid & Hstep & Hchain).
    destruct (step_rel_trace Hstep) as (t & Ht & Hi & Hs & Hw).
    destruct (IH _ _ _ Hchain) as (new & Hnew & Hidx & Hsk & Hall).
    exists (t :: new). rewrite Hnew, Ht, <- app_assoc. simpl.
    repeat split; auto; congruence.
Qed.

(** The charges of one step: the admitted step cost, then the cost of the
    improve round when there is one. *)
Lemma step_rel_charges (o : Orchestrator F) task si step ls ls' :
  step_rel o task si step ls ls' ->
  exists charges,
    (1 <= List.length charges <= 2)%nat
    /\ ls_budget ls' = charge_all charges (ls_budget ls)
    /\ ls_total_cost ls' = fold_left fadd charges (ls_total_cost ls).
Proof.
  intros (tr1 & st1 & tr2 & st2 & Hfirst & Himp & _ & Hb & Hc & _ & _).
  destruct Hfirst as (_ & (ress & ad & _ & _ & Hadm & _ & _ & Htc & _ & Hbud) & _).
  destruct Hadm as (Hatc & _ & Hab & _).
  destruct (improve_guard step st1).
  - destruct Himp as (_ & _ & _ & _ & _ & _ & top & names2 & ress2 & j2 & jm & vm
                      & _ & _ & _ & _ & _ & _ & Htc2 & _ & Hb2 & _).
    match type of Hb2 with _ = Budget_charge _ ?c => exists [ad_step_cost ad; c] end.
    simpl. split; [lia|]. unfold charge_all. simpl.
    rewrite Hb, Hc, Hb2, Htc2, Hbud, Htc, Hab, Hatc. auto.
  - subst st2. exists [ad_step_cost ad]. simpl. split; [lia|]. unfold charge_all. simpl.
    rewrite Hb, Hc, Hbud, Htc, Hab, Hatc. auto.
Qed.

Lemma charge_all_app (c1 c2 : list F) (b : Budget F) :
  charge_all (c1 ++ c2) b = charge_all c2 (charge_all c1 b).
Proof. unfold charge_all. apply fold_left_app. Qed.

Lemma charge_all_deadline (charges : list F) :
  forall b : Budget F, deadline_s (charge_all charges b) = deadline_s b.
Proof.
  unfold charge_all. induction charges as [|c cs IH]; intros b; simpl; [reflexivity|].
  rewrite IH. reflexivity.
Qed.

Lemma chain_charges (o : Orchestrator F) task todo :
  forall si ls ls',
    chain (step_rel o task) si todo ls ls' ->
    exists charges,
      (List.length todo <= List.length charges <= 2 * List.length todo)%nat
      /\ ls_budget ls' = charge_all charges (ls_budget ls)
      /\ ls_total_cost ls' = fold_left fadd charges (ls_total_cost ls).
Proof.
  induction todo as [|step rest IH]; intros si ls ls'; simpl.
  - intros ->. exists []. simpl. split; [lia|]. auto.
  - intros (mid & Hstep & Hchain).
    destruct (step_rel_charges Hstep) as (c1 & Hl1 & Hb1 & Ht1).
    destruct (IH _ _ _ Hchain) as (c2 & Hl2 & Hb2 & Ht2).
    exists (c1 ++ c2). rewrite length_app, charge_all_app, fold_left_app.
    split; [lia|]. rewrite Hb2, Ht2, Hb1, Ht1. auto.
Qed.

Lemma total_pulls_set (d : Dict (ArmStat F)) (k : string) (s s' : ArmStat F) :
  dict_get d k = Ok s ->
  total_pulls (dict_set d k s') = total_pulls d - pulls s + pulls s'.
Proof.
  induction d as [|[k0 v] d IH]; simpl; [discriminate|].
  destruct (String.eqb k0 k); simpl.
  - intros [= ->]. unfold total_pulls. simpl. lia.
  - intros Hg. specialize (IH Hg). unfold total_pulls in *. simpl. lia.
Qed.

(** A returning [update] pulls exactly one arm once. *)
Lemma Router_update_pulls (r r' : Router F) nm reward c :
  Router_update r nm reward c = (Ok tt, r') ->
  adapters r' = adapters r /\ cfg r' = cfg r /\ rng r' = rng r
  /\ dict_keys (stats r') = dict_keys (stats r)
  /\ total_pulls (stats r') = total_pulls (stats r) + 1.
Proof.
  unfold Router_update. destruct (dict_get (stats r) nm) as [s|e] eqn:Eg; [|discriminate].
  unfold ArmStat_update. destruct (pulls s + 1 =? 0); [discriminate|].
  intros [= <-]. simpl. repeat split.
  - apply dict_set_keys. apply (dict_get_ok_in _ _ Eg).
  - erewrite total_pulls_set by exact Eg. simpl. lia.
Qed.

Lemma pick_k_unchanged (r r' : Router F) sk k th (res : Result (list string)) :
  Router_pick_k r sk k th = (res, r') ->
  adapters r' = adapters r /\ cfg r' = cfg r /\ stats r' = stats r.
Proof.
  intros E. pose proof (Router_pick_k_frame r sk k th) as Hf. rewrite E in Hf. exact Hf.
Qed.

Lemma step_rel_router (o : Orchestrator F) task si step ls ls' :
  step_rel o task si step ls ls' ->
  adapters (ls_router ls') = adapters (ls_router ls)
  /\ cfg (ls_router ls') = cfg (ls_router ls)
  /\ dict_keys (stats (ls_router ls')) = dict_keys (stats (ls_router ls))
  /\ total_pulls (stats (ls_router ls')) = total_pulls (stats (ls_router ls)) + 1.
Proof.
  intros (tr1 & st1 & tr2 & st2 & Hfirst & Himp & Hupd & _).
  destruct Hfirst as (Hpick & _).
  destruct (pick_k_unchanged _ _ _ _ Hpick) as (Ha1 & Hc1 & Hs1).
  assert (H2 : adapters (ss_router st2) = adapters (ss_router st1)
               /\ cfg (ss_router st2) = cfg (ss_router st1)
               /\ stats (ss_router st2) = stats (ss_router st1)).
  { destruct (improve_guard step st1).
    - destruct Himp as (_ & _ & _ & _ & _ & _ & top & names2 & ress2 & j2 & jm & vm
                        & _ & Hpick2 & _).
      exact (pick_k_unchanged _ _ _ _ Hpick2).
    - subst st2. auto. }
  destruct H2 as (Ha2 & Hc2 & Hs2).
  destruct (Router_update_pulls _ _ _ _ Hupd) as (Ha3 & Hc3 & _ & Hk3 & Hp3).
  repeat split; congruence.
Qed.

Lemma chain_router (o : Orchestrator F) task todo :
  forall si ls ls',
    chain (step_rel o task) si todo ls ls' ->
    adapters (ls_router ls') = adapters (ls_router ls)
    /\ cfg (ls_router ls') = cfg (ls_router ls)
    /\ dict_keys (stats (ls_router ls')) = dict_keys (stats (ls_router ls))
    /\ total_pulls (stats (ls_router ls'))
       = total_pulls (stats (ls_router ls)) + Z.of_nat (List.length todo).
Proof.
  induction todo as [|step rest IH]; intros si ls ls'; simpl List.length.
  - simpl. intros ->. repeat split; lia.
  - intros (mid & Hstep & Hchain).
    destruct (step_rel_router Hstep) as (Ha & Hc & Hk & Hp).
    destruct (IH _ _ _ Hchain) as (Ha' & Hc' & Hk' & Hp').
    repeat split; try congruence. lia.
Qed.

(** X7: a returning [run] hands back one step trace per step of the plan
    the planner answered, in plan order: the trace at position [i] has
    [step_idx = i] and the skill of step [i], holds at least one candidate,
    and its [chosen_idx] addresses one of them (from the front, or from the
    back when negative). *)
Theorem run_records_each_step {S} (h : Handler F S) (s : S) (o : Orchestrator F)
    (tk : string) (budget_usd : F) (latency : option F) :
  let '(tr, res, _) := interp h (Orchestrator_run o tk budget_usd latency) s in
  match res with
  | Ok (rt, _) =>
      exists plan,
        nth_error (labels tr) 1 = Some (LPlan tk budget_usd latency (Ok plan))
        /\ map step_idx (run_steps rt) = indices_from 0 (List.length (steps plan))
        /\ map st_skill (run_steps rt) = map skill (steps plan)
        /\ Forall well_indexed (run_steps rt)
  | Err _ => True
  end.
Proof.
  pose proof (Orchestrator_run_chain o tk budget_usd latency h s) as Hrun.
  destruct (interp h (Orchestrator_run o tk budget_usd latency) s) as [[tr res] s'].
  destruct res as [[rt o']|e]; [|exact I].
  destruct Hrun as (plan & ls' & Hplan & Hchain & Hsteps & _).
  destruct (@chain_traces _ _ _ _ _ _ Hchain) as (new & Hnew & Hidx & Hsk & Hall).
  simpl in Hsteps, Hnew. exists plan. rewrite Hsteps, Hnew. auto.
Qed.


(** X11: a returning [run] pulls exactly one arm per recorded step: the
    pulls of the router's statistics, summed over the arms, grow by the
    number of step traces.  The router keeps its adapters, its
    configuration and the keys of its statistics, and the orchestrator its
    adapters. *)
Theorem run_pulls_one_arm_per_step {S} (h : Handler F S) (s : S) (o : Orchestrator F)
    (tk : string) (budget_usd : F) (latency : option F) :
  let '(_, res, _) := interp h (Orchestrator_run o tk budget_usd latency) s in
  match res with
  | Ok (rt, o') =>
      orch_adapters o' = orch_adapters o
      /\ adapters (orch_router o') = adapters (orch_router o)
      /\ cfg (orch_router o') = cfg (orch_router o)
      /\ dict_keys (stats (orch_router o')) = dict_keys (stats (orch_router o))
      /\ total_pulls (stats (orch_router o'))
         = total_pulls (stats (orch_router o)) + Z.of_nat (List.length (run_steps rt))
  | Err _ => True
  end.
Proof.
  pose proof (Orchestrator_run_chain o tk budget_usd latency h s) as Hrun.
  destruct (interp h (Orchestrator_run o tk budget_usd latency) s) as [[tr res] s'].
  destruct res as [[rt o']|e]; [|exact I].
  destruct Hrun as (plan & ls' & _ & Hchain & Hsteps & _ & _ & _ & Ho).
  destruct (@chain_traces _ _ _ _ _ _ Hchain) as (new & Hnew & Hidx & _).
  destruct (@chain_router _ _ _ _ _ _ Hchain) as (Ha & Hc & Hk & Hp).
  simpl in *. subst o'. simpl. rewrite Hsteps, Hnew.
  assert (Hlen : List.length new = List.length (steps plan)).
  { rewrite <- (length_map step_idx), Hidx. apply indices_from_length. }
  rewrite Hlen. auto.
Qed.

End LoopFacts.

(** ** The outcomes of a run *)

Section RunOutcomes.
Context {F : Type} `{PyFloat F} `{PyRandom F} {Sorting : PySorted F}.

(** FINALIZE reads the last trace at its own [chosen_idx]: on well-indexed
    traces it does not raise. *)
Lemma final_text_of_total (traces : list (StepTrace F)) :
  Forall well_indexed traces -> exists txt, final_text_of traces = Ok txt.
Proof.
  intros Hall. destruct traces as [|t0 rest] using rev_ind.
  - exists "". reflexivity.
  - clear IHrest. apply Forall_app in Hall. destruct Hall as [_ Hlast].
    inversion Hlast as [|? ? (_ & _ & c & Hc & _) _]; subst.
    exists (text c). unfold final_text_of.
    destruct (rest ++ [t0]) as [|x l] eqn:E; [destruct rest; discriminate|].
    rewrite <- E, py_last_snoc. simpl. rewrite Hc. reflexivity.
Qed.

(** X8: the three outcomes of [run].  When the planner raises, [run]
    raises the same exception after two events (its first log line and the
    planner call).  When the planner answers a plan, [run] goes through the
    loop over the plan's steps from the initial budget and totals: it
    raises what the loop raises, and returns whenever the loop returns, so
    reading the final text never raises.  On a plan without steps it
    returns the empty text, no step trace and zero totals, and leaves the
    router as it was. *)
Theorem run_outcomes {S} (h : Handler F S) (s : S) (o : Orchestrator F)
    (tk : string) (budget_usd : F) (latency : option F) :
  let '(tr, res, _) := interp h (Orchestrator_run o tk budget_usd latency) s in
  match nth_error (labels tr) 1 with
  | Some (LPlan _ _ _ (Err e)) => res = Err e /\ List.length tr = 2%nat
  | Some (LPlan _ _ _ (Ok plan)) =>
      (exists s1,
          let '(trl, rl, _) :=
            interp h (run_loop o tk 0 (steps plan) (initial_loop_state o plan)) s1 in
          labels tr
          = [LLog (LogGeneratingPlan tk budget_usd);
             LPlan tk budget_usd latency (Ok plan);
             LLog (LogPlanGenerated (List.length (steps plan)))] ++ labels trl
          /\ match rl with
             | Ok ls' =>
                 exists txt,
                   res = Ok ({| task := tk; final_text := txt;
                                run_steps := ls_step_traces ls';
                                total_cost_usd := ls_total_cost ls';
                                total_latency_s := ls_total_lat ls' |},
                             {| orch_adapters := orch_adapters o;
                                orch_router := ls_router ls';
                                orch_rng := orch_rng o |})
             | Err e => res = Err e
             end)
      /\ (steps plan = [] ->
          List.length tr = 3%nat
          /\ res = Ok ({| task := tk; final_text := ""; run_steps := [];
                          total_cost_usd := fzero; total_latency_s := fzero |},
                       {| orch_adapters := orch_adapters o;
                          orch_router := orch_router o;
                          orch_rng := orch_rng o |}))
  | _ => False
  end.
Proof.
  unfold Orchestrator_run, log, await. simpl.
  destruct (h _ (Log (LogGeneratingPlan tk budget_usd)) s) as [[] s0].
  destruct (h _ (MakePlan tk budget_usd latency) s0) as [[plan|e] s1]; simpl;
    [|split; reflexivity].
  destruct (h _ (Log (LogPlanGenerated (List.length (steps plan)))) s1) as [[] s2].
  rewrite interp_bind.
  change {| ls_router := orch_router o;
            ls_budget := {| usd_left := hard_budget_usd plan;
                            deadline_s := hard_latency_s plan |};
            ls_total_cost := fzero; ls_total_lat := fzero; ls_step_traces := [] |}
    with (initial_loop_state o plan).
  pose proof (run_loop_chain o tk (steps plan) 0 (initial_loop_state o plan) h s2) as Hloop.
  destruct (interp h (run_loop o tk 0 (steps plan) (initial_loop_state o plan)) s2)
    as [[trl [ls'|e]] s3] eqn:Eloop.
  - destruct (@chain_traces _ _ _ _ _ _ _ _ _ _ Hloop) as (new & Hnew & _ & _ & Hall).
    simpl in Hnew. destruct (@final_text_of_total (ls_step_traces ls')) as [txt Htxt];
      [rewrite Hnew; exact Hall|].
    rewrite interp_bind, interp_lift, Htxt. simpl. rewrite app_nil_r. split.
    + exists s2. rewrite Eloop. split; [reflexivity|]. exists txt. reflexivity.
    + intros Hnone. rewrite Hnone in Eloop. simpl in Eloop.
      injection Eloop as <- <- _. simpl in Htxt. injection Htxt as <-.
      split; reflexivity.
  - simpl. split.
    + exists s2. rewrite Eloop. split; reflexivity.
    + intros Hnone. rewrite Hnone in Eloop. discriminate.
Qed.

End RunOutcomes.

(** ** Exact accounting *)

Section ExactAccounting.
Context `{PyRandom Q} {Sorting : PySorted Q}.

Lemma charge_all_exact (charges : list Q) :
  forall (b : Budget Q) (t : Q),
    (usd_left (charge_all charges b) + fold_left Qplus charges t == usd_left b + t)%Q.
Proof.
  unfold charge_all. induction charges as [|c cs IH]; intros b t; simpl.
  - reflexivity.
  - rewrite IH. simpl. ring.
Qed.

(** X10: over exact arithmetic the loop conserves money: when it returns,
    what is left of the budget plus the reported total cost is what they
    were together before the loop.  From the initial state of [run] the
    budget left is the plan's hard budget minus the total cost; nothing in
    the loop keeps it from going negative. *)
Theorem exact_budget_conservation {S} (h : Handler Q S) (s : S) (o : Orchestrator Q)
    (tk : string) (si : Z) (todo : list PlanStep) (ls : LoopState Q) :
  let '(_, res, _) := interp h (run_loop o tk si todo ls) s in
  match res with
  | Ok ls' =>
      (usd_left (ls_budget ls') + ls_total_cost ls'
       == usd_left (ls_budget ls) + ls_total_cost ls)%Q
  | Err _ => True
  end.
Proof.
  pose proof (run_loop_chain o tk todo si ls h s) as Hrun.
  destruct (interp h (run_loop o tk si todo ls) s) as [[tr res] s'].
  destruct res as [ls'|e]; [|exact I].
  destruct (@chain_charges _ _ _ _ _ _ _ _ _ _ Hrun) as (charges & _ & Hb & Ht).
  rewrite Hb, Ht. apply charge_all_exact.
Qed.

End ExactAccounting.

(** ** A router without adapters *)

Section NoAdapters.
Context {F : Type} `{PyFloat F} `{PyRandom F} {Sorting : PySorted F}.

Lemma pick_k_no_adapters (r : Router F) sk k th :
  adapters r = [] -> Router_pick_k r sk k th = (Ok [], r).
Proof.
  intros Hnone. unfold Router_pick_k, pool. rewrite Hnone. simpl.
  assert (Hsorted : py_sorted_desc (@nil (F * LLMAdapter F)) = []).
  { apply Permutation_nil. symmetry. apply py_sorted_desc_perm. }
  rewrite Hsorted. unfold py_take. rewrite firstn_nil. reflexivity.
Qed.

Lemma py_index_nil {A} (j : Z) : py_index (@nil A) j = Err IndexError.
Proof.
  destruct (py_index (@nil A) j) as [a|e] eqn:E.
  - apply py_index_ok in E. destruct E as (Hne & _). congruence.
  - unfold py_index in E. destruct (_ && _) in E; [|congruence].
    destruct (nth_error _ _) in E; congruence.
Qed.

(** X12: with a router that has no adapters no step can return.
    [pick_k] then returns no name without raising, the fan-out over no name
    invokes nothing and yields no candidate, and the step raises further
    on: [ValueError] from the [min] over no candidate when the budget
    refuses the zero cost and latency, else whatever the judge raises when
    asked to pick among no candidates, else [IndexError] from indexing the
    empty candidate list with the judge's answer. *)
Theorem no_adapters_no_step {S} (h : Handler F S) (s : S) (o : Orchestrator F)
    (tk : string) (si : Z) (step : PlanStep) (ls : LoopState F) :
  adapters (ls_router ls) = [] ->
  let '(tr, res, _) := interp h (first_round o tk si step ls) s in
  completions tr = []
  /\ if fst (Budget_allow (ls_budget ls) fzero fzero)
     then exists ans,
            judged tr = [LJudge tk [] ans]
            /\ res = Err (match ans with Ok _ => IndexError | Err e => e end)
     else judged tr = [] /\ res = Err ValueError.
Proof.
  intros Hnone. unfold first_round.
  rewrite (pick_k_no_adapters _ _ _ _ Hnone).
  unfold Debate_run, admission, log, await. simpl.
  destruct (h _ (Log (LogStep (si + 1) (skill step) (description step))) s) as [[] s0].
  destruct (h _ (Log (LogSelected (si + 1) [])) s0) as [[] s1].
  destruct (h _ (Log (LogRunningDebate (si + 1))) s1) as [[] s2].
  destruct (h _ (Completion 0) s2) as [order s3].
  unfold gather. rewrite first_raised_nil. simpl.
  destruct (h _ (Log (LogDebateComplete (si + 1) 0)) s3) as [[] s4].
  unfold py_sum. simpl.
  assert (Hsame : snd (Budget_allow (ls_budget ls) fzero fzero) = ls_budget ls).
  { unfold Budget_allow. destruct (fltb _ _); [reflexivity|].
    destruct (deadline_s (ls_budget ls)) as [d|]; [|reflexivity].
    destruct (fltb d _); reflexivity. }
  destruct (Budget_allow (ls_budget ls) fzero fzero) as [[|] b']; simpl.
  - destruct (h _ (Log (LogJudging (si + 1))) s4) as [[] s5].
    destruct (h _ (JudgePick tk []) s5) as [[[j m]|e] s6]; simpl.
    + rewrite py_index_nil. simpl.
      split; [reflexivity|]. exists (Ok (j, m)). split; reflexivity.
    + split; [reflexivity|]. exists (Err e). split; reflexivity.
  - destruct (h _ (Log (LogTrimming (si + 1))) s4) as [[] s5]. simpl.
    split; [reflexivity|]. split; reflexivity.
Qed.

End NoAdapters.

(** ** [max_rounds] as a flag *)

Section MaxRounds.
Context {F : Type} `{PyFloat F} `{PyRandom F} {Sorting : PySorted F}.

Lemma improve_guard_clamp (step : PlanStep) (st : StepState F) :
  improve_guard (clamp_rounds step) st = improve_guard step st.
Proof.
  unfold improve_guard, clamp_rounds. simpl.
  destruct (max_rounds step >? 0); reflexivity.
Qed.

Lemma run_step_clamp {S} (h : Handler F S) (s : S) (o : Orchestrator F)
    tk si step ls :
  interp h (run_step o tk si (clamp_rounds step) ls) s
  = interp h (run_step o tk si step ls) s.
Proof.
  rewrite !run_step_interp.
  change (first_round o tk si (clamp_rounds step) ls) with (first_round o tk si step ls).
  destruct (interp h (first_round o tk si step ls) s) as [[tr1 [st1|e]] s1]; [|reflexivity].
  unfold improve_round. rewrite improve_guard_clamp.
  change (improve_body o tk si (clamp_rounds step) st1)
    with (improve_body o tk si step st1).
  destruct (interp h (if improve_guard step st1
                      then improve_body o tk si step st1 else Ret st1) s1)
    as [[tr2 [st2|e]] s2]; reflexivity.
Qed.

(** X14: the loop reads [max_rounds] of a step only through the test
    [max_rounds > 0].  Replacing every positive [max_rounds] of a plan by 1
    and every other by 0 changes nothing: in every environment the loop
    makes the same calls, in the same order, and ends with the same
    outcome and loop state. *)
Theorem max_rounds_is_a_flag {S} (h : Handler F S) (o : Orchestrator F)
    (tk : string) (todo : list PlanStep) :
  forall (si : Z) (ls : LoopState F) (s : S),
    interp h (run_loop o tk si (map clamp_rounds todo) ls) s
    = interp h (run_loop o tk si todo ls) s.
Proof.
  induction todo as [|step rest IH]; intros si ls s; cbn [run_loop map]; [reflexivity|].
  rewrite !interp_bind, run_step_clamp.
  destruct (interp h (run_step o tk si step ls) s) as [[tr1 [mid|e]] s1]; [|reflexivity].
  rewrite IH. reflexivity.
Qed.

End MaxRounds.

(** ** What a run asks of its environment *)

Section Every.
Context {F : Type} `{PyFloat F} `{PyRandom F} {Sorting : PySorted F}.
Local Abbreviation every := (every (F:=F)).

Lemma every_bind {A B} (P : Label F -> Prop) (p : Prog F A) (f : A -> Prog F B) :
  every P p -> (forall a, every P (f a)) -> every P (bind p f).
Proof.
  intros Hp Hf S h s. rewrite interp_bind. specialize (Hp S h s).
  destruct (interp h p s) as [[tr1 [a|e]] s1]; simpl in *; [|exact Hp].
  specialize (Hf a S h s1). destruct (interp h (f a) s1) as [[tr2 r2] s2]. simpl in *.
  rewrite labels_app. apply Forall_app. auto.
Qed.

Lemma every_ret {A} (P : Label F -> Prop) (a : A) : every P (Ret a).
Proof. intros S h s. simpl. constructor. Qed.

Lemma every_lift {A} (P : Label F -> Prop) (r : Result A) : every P (lift r).
Proof. intros S h s. rewrite interp_lift. constructor. Qed.

Lemma every_router_call {A} (P : Label F -> Prop) (c : Result A * Router F) :
  every P (router_call c).
Proof. intros S h s. destruct c as [[a|e] r]; simpl; constructor. Qed.

Lemma every_log (P : Label F -> Prop) (m : LogMsg F) : P (LLog m) -> every P (log m).
Proof.
  intros Hm S h s. rewrite interp_log. simpl. repeat constructor. exact Hm.
Qed.

Lemma every_await {A} (P : Label F -> Prop) (c : Call F (Result A)) :
  (forall ans, P (label (Ev c ans))) -> every P (await c).
Proof.
  intros Hc S h s. rewrite interp_await. simpl. repeat constructor. apply Hc.
Qed.

Lemma registered_lookup (ads : Dict (LLMAdapter F)) (names : list string) key a :
  In (key, a) (registered ads names) -> dict_get ads key = Ok a.
Proof.
  unfold registered. rewrite in_flat_map. intros (n & _ & Hin).
  destruct (dict_get ads n) as [b|e] eqn:Eg; [|destruct Hin].
  destruct Hin as [[= <- <-]|[]]. exact Eg.
Qed.

Lemma every_Debate_run (P : Label F -> Prop) (ads : Dict (LLMAdapter F)) names req :
  (forall key a ans, dict_get ads key = Ok a -> P (LInvoke key a req ans)) ->
  (forall n order, P (LCompletion n order)) ->
  every P (Debate_run ads names req).
Proof.
  intros Hinv Hcompl S h s.
  destruct (Debate_run_labels h s ads names req) as (answers & order & _ & Hlab).
  rewrite Hlab. apply Forall_app. split; [|repeat constructor; apply Hcompl].
  rewrite Forall_forall. intros l Hl. apply in_map_iff in Hl.
  destruct Hl as ([[key a] ans] & <- & Hin). simpl.
  apply Hinv. apply in_combine_l in Hin. eapply registered_lookup; eauto.
Qed.

Lemma every_admission (P : Label F -> Prop) si (ls : LoopState F) cand :
  (forall m, P (LLog m)) -> every P (admission si ls cand).
Proof.
  intros Hlog. unfold admission.
  destruct (Budget_allow (ls_budget ls) _ _) as [allowed budget].
  apply every_bind; [|intros [[c sc] sl]; apply every_ret].
  destruct allowed; simpl negb; cbv iota; [apply every_ret|].
  apply every_bind; [apply every_log, Hlog|intros _].
  apply every_bind; [apply every_lift|intros c; apply every_ret].
Qed.

Ltac every_step Hlog :=
  first
    [ apply every_ret
    | apply every_lift
    | apply every_router_call
    | apply every_log; apply Hlog
    | apply every_admission; apply Hlog ].

Lemma every_run_step (o : Orchestrator F) (tk : string) si step ls :
  every (about_task o tk) (run_step o tk si step ls).
Proof.
  assert (Hlog : forall m : LogMsg F, about_task o tk (LLog m)) by (intros m; exact I).
  assert (Hdeb : forall names req,
             (req = original_request tk \/ exists previous, req = improve_request tk previous) ->
             every (about_task o tk) (Debate_run (orch_adapters o) names req)).
  { intros names req Hreq. apply every_Debate_run.
    - intros key a ans Hg. simpl. auto.
    - intros n order. exact I. }
  unfold run_step. apply every_bind; [|intros st1; apply every_bind].
  - unfold first_round.
    apply every_bind; [every_step Hlog|intros _].
    apply every_bind; [every_step Hlog|intros [names router]].
    apply every_bind; [every_step Hlog|intros _].
    apply every_bind; [every_step Hlog|intros _].
    apply every_bind; [apply Hdeb; left; reflexivity|intros cand].
    apply every_bind; [every_step Hlog|intros _].
    apply every_bind; [every_step Hlog|intros ad].
    apply every_bind; [every_step Hlog|intros _].
    apply every_bind; [|intros [j_idx j_meta]].
    { destruct (Nat.eqb _ 1); [apply every_ret|].
      apply every_await. intros ans. reflexivity. }
    apply every_bind; [every_step Hlog|intros chosen].
    apply every_bind; [every_step Hlog|intros _].
    apply every_bind; [every_step Hlog|intros _].
    apply every_bind; [apply every_await; intros ans; reflexivity|intros [ok v_meta]].
    apply every_bind; [every_step Hlog|intros _]. apply every_ret.
  - unfold improve_round. destruct (improve_guard step st1); [|apply every_ret].
    unfold improve_body.
    apply every_bind; [every_step Hlog|intros _].
    apply every_bind; [every_step Hlog|intros top].
    apply every_bind; [every_step Hlog|intros [names2 router]].
    apply every_bind; [every_step Hlog|intros _].
    apply every_bind; [apply Hdeb; right; eexists; reflexivity|intros cand2].
    apply every_bind; [every_step Hlog|intros _].
    apply every_bind; [every_step Hlog|intros _].
    apply every_bind; [apply every_await; intros ans; reflexivity|intros [j_idx2 j_meta2]].
    apply every_bind; [every_step Hlog|intros chosen].
    apply every_bind; [every_step Hlog|intros _].
    apply every_bind; [apply every_await; intros ans; reflexivity|intros [ok2 v_meta2]].
    apply every_bind; [every_step Hlog|intros _]. apply every_ret.
  - intros st2. unfold record_step.
    apply every_bind; [every_step Hlog|intros [u router]]. apply every_ret.
Qed.

Lemma every_run_loop (o : Orchestrator F) (tk : string) todo :
  forall si ls, every (about_task o tk) (run_loop o tk si todo ls).
Proof.
  induction todo as [|step rest IH]; intros si ls; cbn [run_loop].
  - apply every_ret.
  - apply every_bind; [apply every_run_step|intros mid; apply IH].
Qed.

(** X15: whatever the plan and the environment, and whether the run
    returns or raises, every worker a run invokes is registered with the
    orchestrator under the key it is invoked by, and is sent either the
    original request (the fixed system prompt with the task as user text)
    or an improve request for the task; the planner, the judge and the
    verifier are asked about the task.  The original request is the same
    for every step: it carries neither the step's description or skill nor
    an earlier step's answer. *)
Theorem run_asks_about_task {S} (h : Handler F S) (s : S) (o : Orchestrator F)
    (tk : string) (budget_usd : F) (latency : option F) :
  let '(tr, _, _) := interp h (Orchestrator_run o tk budget_usd latency) s in
  Forall (about_task o tk) (labels tr).
Proof.
  assert (Hrun : every (about_task o tk) (Orchestrator_run o tk budget_usd latency)).
  { unfold Orchestrator_run.
    apply every_bind; [apply every_log; exact I|intros _].
    apply every_bind; [apply every_await; intros ans; reflexivity|intros plan].
    apply every_bind; [apply every_log; exact I|intros _].
    apply every_bind; [apply every_run_loop|intros ls].
    apply every_bind; [apply every_lift|intros final]. apply every_ret. }
  specialize (Hrun S h s).
  destruct (interp h (Orchestrator_run o tk budget_usd latency) s) as [[tr res] s'].
  exact Hrun.
Qed.

End Every.

(** ** When the judge is consulted *)

Section JudgeSkipped.
Context {F : Type} `{PyFloat F} `{PyRandom F} {Sorting : PySorted F}.

Local Abbreviation judged := (judged (F:=F)).

Lemma judged_app (t1 t2 : list (Event F)) : judged (t1 ++ t2) = judged t1 ++ judged t2.
Proof. unfold judged. now rewrite labels_app, filter_app. Qed.

Lemma returns_and {A} (p : Prog F A) (Q1 Q2 : list (Event F) -> A -> Prop) :
  returns p Q1 -> returns p Q2 -> returns p (fun tr a => Q1 tr a /\ Q2 tr a).
Proof.
  intros H1 H2 S h s. specialize (H1 S h s). specialize (H2 S h s).
  destruct (interp h p s) as [[tr [a|e]] s']; auto.
Qed.

Lemma Debate_run_unjudged (ads : Dict (LLMAdapter F)) names req :
  returns (Debate_run ads names req)
          (fun tr cs => judged tr = [] /\ logged tr = []
                        /\ List.length cs = List.length names).
Proof.
  intros S h s.
  destruct (Debate_run_labels h s ads names req) as (answers & order & _ & Hlab).
  pose proof (Debate_run_facts h s ads names req) as Hfacts.
  destruct (interp h (Debate_run ads names req) s) as [[tr [cs|e]] s']; [|exact I].
  simpl in Hlab. destruct Hfacts as (_ & _ & Hlog & _ & _ & Hlen & _).
  split; [|auto]. unfold judged. rewrite Hlab, filter_app. simpl.
  clear. induction (combine (registered ads names) answers) as [|x l IH]; simpl; auto.
Qed.

(** ADMIT either lets the candidates through silently or logs the trim
    and hands on a single candidate. *)
Lemma admission_trims si (ls : LoopState F) cand :
  returns (admission si ls cand)
          (fun tr ad =>
             (tr = [] /\ ad_cand ad = cand)
             \/ (tr = [Ev (Log (LogTrimming (si + 1))) tt]
                 /\ exists c, ad_cand ad = [c])).
Proof.
  intros S h s. unfold admission.
  destruct (Budget_allow (ls_budget ls) _ _) as [allowed budget].
  destruct allowed; simpl negb; cbv iota.
  - simpl. left. auto.
  - rewrite interp_bind. rewrite interp_bind. rewrite interp_log.
    destruct (h _ (Log (LogTrimming (si + 1))) s) as [[] s1]. simpl fst; simpl snd.
    rewrite interp_bind, interp_lift.
    destruct (py_min_key cost_usd cand) as [m|e] eqn:Em; simpl; [|exact I].
    right. eauto.
Qed.

(** X13: the judge is consulted in the first round exactly when more than
    one candidate is left after admission.  A returning first round with a
    single admitted candidate has not called the judge: it records index 0
    and the fixed note.  Otherwise it has called the judge once, on the
    admitted candidates, and records its answer.  The log of the round is
    fixed up to the trim warning, and a round that logged the warning has
    a single candidate: after a trim the judge is never consulted. *)
Theorem single_candidate_skips_judge {S} (h : Handler F S) (s : S)
    (o : Orchestrator F) (tk : string) (si : Z) (step : PlanStep) (ls : LoopState F) :
  let '(tr, res, _) := interp h (first_round o tk si step ls) s in
  match res with
  | Ok st =>
      match ss_cand st with
      | [_] =>
          judged tr = [] /\ ss_j_idx st = 0
          /\ ss_j_meta st = [("judge_text", VStr "There is only one candidate.")]
      | cands => judged tr = [LJudge tk cands (Ok (ss_j_idx st, ss_j_meta st))]
      end
      /\ exists (n : nat) (trimmed : bool),
           logged tr
           = [LogStep (si + 1) (skill step) (description step);
              LogSelected (si + 1) (ss_names st);
              LogRunningDebate (si + 1);
              LogDebateComplete (si + 1) n]
             ++ (if trimmed then [LogTrimming (si + 1)] else [])
             ++ [LogJudging (si + 1);
                 LogChosen (si + 1) (ss_j_idx st);
                 LogVerifying (si + 1);
                 LogVerification (si + 1) (ss_ok st)]
           /\ n = List.length (ss_names st)
           /\ if trimmed then List.length (ss_cand st) = 1%nat
              else List.length (ss_cand st) = n
  | Err _ => True
  end.
Proof.
  assert (Hret : returns (first_round o tk si step ls)
            (fun tr st =>
               match ss_cand st with
               | [_] =>
                   judged tr = [] /\ ss_j_idx st = 0
                   /\ ss_j_meta st = [("judge_text", VStr "There is only one candidate.")]
               | cands => judged tr = [LJudge tk cands (Ok (ss_j_idx st, ss_j_meta st))]
               end
               /\ exists (n : nat) (trimmed : bool),
                    logged tr
                    = [LogStep (si + 1) (skill step) (description step);
                       LogSelected (si + 1) (ss_names st);
                       LogRunningDebate (si + 1);
                       LogDebateComplete (si + 1) n]
                      ++ (if trimmed then [LogTrimming (si + 1)] else [])
                      ++ [LogJudging (si + 1);
                          LogChosen (si + 1) (ss_j_idx st);
                          LogVerifying (si + 1);
                          LogVerification (si + 1) (ss_ok st)]
                    /\ n = List.length (ss_names st)
                    /\ if trimmed then List.length (ss_cand st) = 1%nat
                       else List.length (ss_cand st) = n)).
  { unfold first_round.
    eapply returns_bind; [apply returns_log|intros _ tr0 ->].
    eapply returns_bind; [apply returns_router_call|intros [names router] tr1 [-> _]].
    eapply returns_bind; [apply returns_log|intros _ tr2 ->].
    eapply returns_bind; [apply returns_log|intros _ tr3 ->].
    eapply returns_bind; [apply Debate_run_unjudged|intros cand trd (Hjd & Hld & Hlen)].
    eapply returns_bind; [apply returns_log|intros _ tr4 ->].
    eapply returns_bind; [apply admission_trims|intros ad tra Hadm].
    eapply returns_bind; [apply returns_log|intros _ tr5 ->].
    eapply returns_bind with
      (Q1 := fun tr (jm : Z * Meta) =>
               if Nat.eqb (List.length (ad_cand ad)) 1
               then tr = [] /\ jm = (0, [("judge_text", VStr "There is only one candidate.")])
               else tr = [Ev (JudgePick tk (ad_cand ad)) (Ok jm)]).
    { destruct (Nat.eqb (List.length (ad_cand ad)) 1).
      - apply returns_ret.
      - apply returns_await. }
    intros [j_idx j_meta] trj Hj.
    eapply returns_bind; [apply returns_lift|intros chosen tr6 [-> _]].
    eapply returns_bind; [apply returns_log|intros _ tr7 ->].
    eapply returns_bind; [apply returns_log|intros _ tr8 ->].
    eapply returns_bind; [apply returns_await|intros [ok v_meta] tr9 ->].
    eapply returns_bind; [apply returns_log|intros _ tr10 ->].
    eapply returns_weaken; [apply returns_ret|]. intros tr st [-> ->].
    cbn [ss_cand ss_j_idx ss_j_meta ss_names ss_ok].
    assert (Hja : judged tra = []) by (destruct Hadm as [[-> _]|[-> _]]; reflexivity).
    assert (Hlj : logged trj = []).
    { destruct (Nat.eqb (List.length (ad_cand ad)) 1).
      - destruct Hj as [-> _]. reflexivity.
      - subst trj. reflexivity. }
    split.
    - rewrite !judged_app, Hjd, Hja. simpl.
      destruct (ad_cand ad) as [|c [|c' rest]]; simpl in Hj.
      + subst trj. reflexivity.
      + destruct Hj as [-> [= -> ->]]. auto.
      + subst trj. reflexivity.
    - exists (List.length cand), (match tra with [] => false | _ => true end).
      split; [|split; [exact Hlen|]].
      + rewrite !logged_app, Hld, Hlj. simpl.
        destruct Hadm as [[-> _]|[-> _]]; reflexivity.
      + destruct Hadm as [[-> ->]|[-> [c ->]]]; reflexivity. }
  specialize (Hret S h s).
  destruct (interp h (first_round o tk si step ls) s) as [[tr [st|e]] s']; [|exact I].
  exact Hret.
Qed.

End JudgeSkipped.

(** ** Win rates are frequencies *)

Section WinRates.
Context `{PyRandom Q} {Sorting : PySorted Q}.

Lemma ArmStat_update_unit (s : ArmStat Q) (reward c : Q) :
  0 <= pulls s -> (0 <= winrate s)%Q -> (winrate s <= 1)%Q ->
  (0 <= reward)%Q -> (reward <= 1)%Q ->
  0 <= pulls (snd (ArmStat_update s reward c))
  /\ (0 <= winrate (snd (ArmStat_update s reward c)))%Q
  /\ (winrate (snd (ArmStat_update s reward c)) <= 1)%Q.
Proof.
  intros Hp Hw0 Hw1 Hr0 Hr1. unfold ArmStat_update.
  destruct (pulls s + 1 =? 0) eqn:E; [apply Z.eqb_eq in E; lia|].
  simpl. split; [lia|].
  set (q := inject_Z (pulls s + 1)).
  assert (Hq : (1 <= q)%Q).
  { subst q. change 1%Q with (inject_Z 1). rewrite <- Zle_Qle. lia. }
  assert (Hq0 : (0 < q)%Q) by (eapply Qlt_le_trans; [|exact Hq]; reflexivity).
  assert (Hmix : (winrate s + (reward - winrate s) / q
                  == (winrate s * (q - 1) + reward) / q)%Q).
  { field. intros Hz. rewrite Hz in Hq0. discriminate. }
  assert (Hlow : (0 <= winrate s * (q - 1))%Q).
  { apply Qmult_le_0_compat; [exact Hw0|]. lra. }
  assert (Hup : (winrate s * (q - 1) <= 1 * (q - 1))%Q).
  { apply Qmult_le_compat_r; [exact Hw1|]. lra. }
  rewrite Hmix. split.
  - apply Qle_shift_div_l; [exact Hq0|]. lra.
  - apply Qle_shift_div_r; [exact Hq0|]. lra.
Qed.

Lemma sane_stats_set (st : Dict (ArmStat Q)) (k : string) (v : ArmStat Q) :
  sane_stats st ->
  0 <= pulls v /\ (0 <= winrate v)%Q /\ (winrate v <= 1)%Q ->
  sane_stats (dict_set st k v).
Proof.
  unfold sane_stats. intros Hall Hv. induction Hall as [|[k0 v0] d Hkv Hd IH]; simpl.
  - repeat constructor; apply Hv.
  - destruct (String.eqb k0 k); constructor; auto.
Qed.

Lemma sane_stats_lookup (st : Dict (ArmStat Q)) (k : string) (v : ArmStat Q) :
  sane_stats st -> dict_get st k = Ok v ->
  0 <= pulls v /\ (0 <= winrate v)%Q /\ (winrate v <= 1)%Q.
Proof.
  unfold sane_stats. intros Hall. induction Hall as [|[k0 v0] d Hkv Hd IH]; simpl.
  - discriminate.
  - destruct (String.eqb k0 k); [intros [= <-]; exact Hkv|exact IH].
Qed.

Lemma Router_update_sane (r : Router Q) (nm : string) (reward c : Q) :
  sane_stats (stats r) -> (0 <= reward)%Q -> (reward <= 1)%Q ->
  sane_stats (stats (snd (Router_update r nm reward c))).
Proof.
  intros Hsane Hr0 Hr1. unfold Router_update.
  destruct (dict_get (stats r) nm) as [s|e] eqn:Eg; [|exact Hsane].
  destruct (sane_stats_lookup _ Hsane Eg) as (Hp & Hw0 & Hw1).
  pose proof (ArmStat_update_unit s c Hp Hw0 Hw1 Hr0 Hr1) as Hnew.
  destruct (ArmStat_update s reward c) as [res s']. simpl in *.
  apply sane_stats_set; assumption.
Qed.

Lemma step_rel_sane (o : Orchestrator Q) tk si step ls ls' :
  step_rel o tk si step ls ls' ->
  sane_stats (stats (ls_router ls)) -> sane_stats (stats (ls_router ls')).
Proof.
  intros (tr1 & st1 & tr2 & st2 & Hfirst & Himp & Hupd & _) Hsane.
  destruct Hfirst as (Hpick & _).
  destruct (pick_k_unchanged _ _ _ _ Hpick) as (_ & _ & Hs1).
  assert (Hs2 : stats (ss_router st2) = stats (ss_router st1)).
  { destruct (improve_guard step st1).
    - destruct Himp as (_ & _ & _ & _ & _ & _ & top & names2 & ress2 & j2 & jm & vm
                        & _ & Hpick2 & _).
      apply (pick_k_unchanged _ _ _ _ Hpick2).
    - subst st2. reflexivity. }
  replace (ls_router ls') with (snd (Router_update (ss_router st2) (model (ss_chosen st2))
                                       (if ss_verified st2 then fone else fzero)
                                       (cost_usd (ss_chosen st2))))
    by (rewrite Hupd; reflexivity).
  apply Router_update_sane.
  - rewrite Hs2, Hs1. exact Hsane.
  - destruct (ss_verified st2); simpl; lra.
  - destruct (ss_verified st2); simpl; lra.
Qed.

Lemma chain_sane (o : Orchestrator Q) tk todo :
  forall si ls ls',
    chain (step_rel o tk) si todo ls ls' ->
    sane_stats (stats (ls_router ls)) -> sane_stats (stats (ls_router ls')).
Proof.
  induction todo as [|step rest IH]; intros si ls ls'; simpl.
  - intros ->. auto.
  - intros (mid & Hstep & Hchain) Hsane.
    eapply IH; [exact Hchain|]. eapply step_rel_sane; eauto.
Qed.

(** X16: over exact arithmetic the feedback of the loop keeps the win
    rates frequencies.  [update] on statistics with a pull count that is
    not negative and a win rate in [0, 1], given a reward in [0, 1], leaves
    them so (also when it raises); the loop only rewards with 1.0 or 0.0,
    so a loop started on such statistics ends on such statistics. *)
Theorem winrates_stay_frequencies {S} (h : Handler Q S) (s : S) (o : Orchestrator Q)
    (tk : string) (si : Z) (todo : list PlanStep) (ls : LoopState Q) :
  sane_stats (stats (ls_router ls)) ->
  (forall nm reward c,
      (0 <= reward)%Q -> (reward <= 1)%Q ->
      sane_stats (stats (snd (Router_update (ls_router ls) nm reward c))))
  /\ let '(_, res, _) := interp h (run_loop o tk si todo ls) s in
     match res with
     | Ok ls' => sane_stats (stats (ls_router ls'))
     | Err _ => True
     end.
Proof.
  intros Hsane. split.
  - intros nm reward c Hr0 Hr1. now apply Router_update_sane.
  - pose proof (run_loop_chain o tk todo si ls h s) as Hrun.
    destruct (interp h (run_loop o tk si todo ls) s) as [[tr res] s'].
    destruct res as [ls'|e]; [|exact I].
    eapply chain_sane; eauto.
Qed.

End WinRates.

(* ================================================================== *)
(** ** Worked instances of the further properties *)

(** A draw of the stand-in generator is not negative. *)
Lemma lcg_draw_nonneg (g : Z) :
  fltb (fst (rng_random (PyRandom := lcg_exactQ) g)) 0%Q = false.
Proof.
  simpl. apply negb_false_iff. apply Qle_bool_iff.
  apply Qle_shift_div_l; [reflexivity|]. rewrite Qmult_0_l.
  change 0%Q with (inject_Z 0). rewrite <- Zle_Qle.
  unfold lcg_next. apply Z.mod_pos_bound. lia.
Qed.

Lemma cold_start_ignores_cfg_witness :
  Forall (fun kv => pulls (snd kv) = 0) (stats fresh_router)
  /\ fst (Router_pick_k (with_cfg fresh_router eager_cfg) "math" 1 (Some 1))
     = fst (Router_pick_k fresh_router "math" 1 (Some 1))
  /\ rng (snd (Router_pick_k (with_cfg fresh_router eager_cfg) "math" 1 (Some 1)))
     = rng (snd (Router_pick_k fresh_router "math" 1 (Some 1)))
  /\ stats (snd (Router_pick_k (with_cfg fresh_router eager_cfg) "math" 1 (Some 1)))
     = stats (snd (Router_pick_k fresh_router "math" 1 (Some 1))).
Proof.
  assert (Hcold : Forall (fun kv => pulls (snd kv) = 0) (stats fresh_router))
    by (repeat constructor).
  split; [exact Hcold|].
  exact (cold_start_ignores_cfg fresh_router eager_cfg "math" 1 (Some 1) Hcold).
Defined.

(** Over the rationals [<] orders every list of keys. *)
Lemma ordered_keys_exact (ks : list Q) : ordered_keys ks.
Proof.
  split; [|split].
  - intros x _. apply fltb_irrefl.
  - intros x y z _ _ _. apply fltb_trans.
  - intros x y z _ _ _. simpl. rewrite !negb_false_iff, !Qle_bool_iff.
    intros Hyx Hzy. eapply Qle_trans; eauto.
Qed.


Lemma Budget_nan_cost_witness :
  is_nan nan = true
  /\ let deadline_ok (l : float) :=
       match deadline_s timed_budget with
       | Some d => negb (PrimFloat.ltb d l)
       | None => true
       end in
     fst (Budget_allow timed_budget nan 2%float) = deadline_ok 2%float
     /\ is_nan (usd_left (Budget_charge timed_budget nan)) = true
     /\ deadline_s (Budget_charge timed_budget nan) = deadline_s timed_budget
     /\ (forall cost' latency',
            fst (Budget_allow (Budget_charge timed_budget nan) cost' latency')
            = deadline_ok latency')
     /\ fgtb (usd_left (Budget_charge timed_budget nan)) fzero = false.
Proof.
  assert (Hnan : is_nan nan = true) by reflexivity.
  split; [exact Hnan|].
  exact (Budget_nan_cost timed_budget nan 2%float Hnan).
Defined.

Lemma no_adapters_no_step_witness :
  adapters (ls_router bare_loop_state) = []
  /\ let '(tr, res, _) :=
       interp demo_env (first_round demo_orchestrator "2 + 2" 0 demo_step bare_loop_state)
              0%nat in
     completions tr = []
     /\ if fst (Budget_allow (ls_budget bare_loop_state) fzero fzero)
        then exists ans,
               judged tr = [LJudge "2 + 2" [] ans]
               /\ res = Err (match ans with Ok _ => IndexError | Err e => e end)
        else judged tr = [] /\ res = Err ValueError.
Proof.
  assert (Hnone : adapters (ls_router bare_loop_state) = []) by reflexivity.
  split; [exact Hnone|].
  exact (no_adapters_no_step demo_env 0%nat demo_orchestrator "2 + 2" 0 demo_step
           bare_loop_state Hnone).
Defined.

Lemma winrates_stay_frequencies_witness :
  sane_stats (stats (ls_router demo_loop_state))
  /\ (forall nm reward c,
         (0 <= reward)%Q -> (reward <= 1)%Q ->
         sane_stats (stats (snd (Router_update (ls_router demo_loop_state) nm reward c))))
  /\ let '(_, res, _) :=
       interp demo_env (run_loop demo_orchestrator "2 + 2" 0 [demo_step] demo_loop_state)
              0%nat in
     match res with
     | Ok ls' => sane_stats (stats (ls_router ls'))
     | Err _ => True
     end.
Proof.
  assert (Hsane : sane_stats (stats (ls_router demo_loop_state))).
  { repeat constructor; simpl; try lia; discriminate. }
  split; [exact Hsane|].
  exact (winrates_stay_frequencies demo_env 0%nat demo_orchestrator "2 + 2" 0
           [demo_step] demo_loop_state Hsane).
Defined.
